(** * Magnolia: clustering-based source separation

    A shallow embedding of [src/utils/clustering_utils.py] and of
    [magnolia/sandbox/demo/app/model_functions.py].

    - numpy arrays are C-contiguous buffers with a shape ([ndarray]);
    - scalars are given by the interface [Float64], instantiated twice: with
      IEEE-754 binary64 (the arithmetic the code runs on, taken from the
      standard library's [SpecFloat]) and with the real numbers (the
      arithmetic the algebraic identities are about);
    - Python exceptions are values of [Res];
    - what a call does to the arrays it is handed is stated on a heap of
      array objects ([Py]);
    - scikit-learn's [KMeans], the model, the STFT and the pre-emphasis
      filters are collaborators, reached through interfaces. *)

From Stdlib Require Import ZArith Bool Reals Lra Lia.
From Stdlib Require Import Floats.SpecFloat.
From stdpp Require Import base option list.

(** ** Python exceptions *)

Inductive exn := IndexError | ValueError.

Inductive Res (A : Type) : Type :=
  | Ok (a : A)
  | Raise (e : exn).
Arguments Ok {A} a.
Arguments Raise {A} e.

#[global] Instance Res_ret : MRet Res := fun _ a => Ok a.
#[global] Instance Res_bind : MBind Res := fun _ _ f m =>
  match m with Ok a => f a | Raise e => Raise e end.
#[global] Instance Res_fmap : FMap Res := fun _ _ f m =>
  match m with Ok a => Ok (f a) | Raise e => Raise e end.

(** ** Scalars *)

(** The operations numpy applies to [float64] items. *)
Class Float64 (A : Type) := {
  fzero : A;
  fone : A;
  fadd : A -> A -> A;
  fsub : A -> A -> A;
  fmul : A -> A -> A;
  fdiv : A -> A -> A;
  fneg : A -> A;
  fsqrt : A -> A;
  fleb : A -> A -> bool;
  feqb : A -> A -> bool;
  fisnan : A -> bool;
  of_nat : nat -> A
}.

(** The C library functions behind [np.exp] and behind [np.abs] on complex
    items. *)
Class NumLib (A : Type) := {
  lib_exp : A -> A;
  lib_hypot : A -> A -> A
}.

(** *** IEEE-754 binary64 *)

Module B64.
Definition prec : Z := 53.
Definition emax : Z := 1024.

Definition t := spec_float.

Definition of_Z (z : Z) : t := binary_normalize prec emax z 0 false.
Definition zero : t := S754_zero false.
Definition one : t := S754_finite false 4503599627370496 (-52).
Definition nan : t := S754_nan.

Definition add := SFadd prec emax.
Definition sub := SFsub prec emax.
Definition mul := SFmul prec emax.
Definition div := SFdiv prec emax.
Definition sqrt := SFsqrt prec emax.

Definition isnan (x : t) : bool :=
  match x with S754_nan => true | _ => false end.
Definition is_zero (x : t) : bool :=
  match x with S754_zero _ => true | _ => false end.
(** [np.isfinite] *)
Definition isfinite (x : t) : bool :=
  match x with S754_zero _ | S754_finite _ _ _ => true | _ => false end.
(** A value of the format: the mantissa is canonical and in range. *)
Definition valid (x : t) : bool := valid_binary prec emax x.

(** Decimal literals: the double nearest to [p / q]. *)
Definition ratio (p q : Z) : t := div (of_Z p) (of_Z q).
End B64.

#[global] Instance binary64 : Float64 B64.t := {
  fzero := B64.zero;
  fone := B64.one;
  fadd := B64.add;
  fsub := B64.sub;
  fmul := B64.mul;
  fdiv := B64.div;
  fneg := SFopp;
  fsqrt := B64.sqrt;
  fleb := SFleb;
  feqb := SFeqb;
  fisnan := B64.isnan;
  of_nat := fun n => B64.of_Z (Z.of_nat n)
}.

(** *** Exact real arithmetic *)

Definition Rleb (x y : R) : bool := if Rle_dec x y then true else false.
Definition Reqb (x y : R) : bool := if Req_dec_T x y then true else false.

#[global] Instance exact : Float64 R := {
  fzero := 0%R;
  fone := 1%R;
  fadd := Rplus;
  fsub := Rminus;
  fmul := Rmult;
  fdiv := Rdiv;
  fneg := Ropp;
  fsqrt := sqrt;
  fleb := Rleb;
  feqb := Reqb;
  fisnan := fun _ => false;
  of_nat := INR
}.

#[global] Instance exact_lib : NumLib R := {
  lib_exp := exp;
  lib_hypot := fun x y => sqrt (x * x + y * y)
}.

(** *** Complex items *)

Record complex (A : Type) := Cx { re : A; im : A }.
Arguments Cx {A} re im.
Arguments re {A} _.
Arguments im {A} _.

Section Scalar.
Context {A : Type} `{Float64 A}.

(** numpy's [minimum] and [maximum] on floats: a NaN on either side is
    returned. *)
Definition minimum (a b : A) : A := if fleb a b || fisnan a then a else b.
Definition maximum (a b : A) : A := if fleb b a || fisnan a then a else b.

Definition square (x : A) : A := fmul x x.

(** A [float64] item used where a [complex128] one is expected. *)
Definition of_real (x : A) : complex A := Cx x fzero.
Definition czero : complex A := Cx fzero fzero.

Definition cadd (x y : complex A) : complex A :=
  Cx (fadd (re x) (re y)) (fadd (im x) (im y)).

(** The [complex128] multiply loop. *)
Definition cmul (x y : complex A) : complex A :=
  Cx (fsub (fmul (re x) (re y)) (fmul (im x) (im y)))
     (fadd (fmul (re x) (im y)) (fmul (im x) (re y))).

(** [mask_item * spectrogram_item]: the mask is promoted first. *)
Definition mask_mul (m : A) (z : complex A) : complex A := cmul (of_real m) z.

(** [x == y] on complex items. *)
Definition ceqb (x y : complex A) : bool :=
  feqb (re x) (re y) && feqb (im x) (im y).

Context `{NumLib A}.

(** [np.abs] on a complex item. *)
Definition cabs (z : complex A) : A := lib_hypot (re z) (im z).

(** [1/(1 + np.exp(-x))] *)
Definition sigmoid (x : A) : A := fdiv fone (fadd fone (lib_exp (fneg x))).
End Scalar.

(** ** Arrays *)

(** A numpy array: its shape and its items in C order. *)
Record ndarray (A : Type) := Nd { shape : list nat; data : list A }.
Arguments Nd {A} shape data.
Arguments shape {A} _.
Arguments data {A} _.

(** Number of items of an array of shape [s]. *)
Definition size (s : list nat) : nat := foldr Nat.mul 1 s.

(** The buffer holds as many items as the shape says. *)
Definition wf {A} (a : ndarray A) : Prop := length (data a) = size (shape a).

(** [l] cut into [n] consecutive pieces of [sz] items. *)
Definition chunks {A} (sz n : nat) (l : list A) : list (list A) :=
  reshape (replicate n sz) l.

Section Arrays.
Context {A : Type}.

(** A 0-d array. *)
Definition scalar (x : A) : ndarray A := Nd [] [x].

Definition np_full (s : list nat) (x : A) : ndarray A :=
  Nd s (replicate (size s) x).

(** [a.reshape(s)] *)
Definition np_reshape (a : ndarray A) (s : list nat) : Res (ndarray A) :=
  if decide (size s = size (shape a)) then Ok (Nd s (data a))
  else Raise ValueError.

(** [a[0]] *)
Definition index0 (a : ndarray A) : Res (ndarray A) :=
  match shape a with
  | [] => Raise IndexError
  | d :: s => if decide (d = 0) then Raise IndexError
              else Ok (Nd s (take (size s) (data a)))
  end.

(** [np.expand_dims(a, axis)] for a non-negative [axis]. *)
Definition np_expand_dims (a : ndarray A) (axis : nat) : Res (ndarray A) :=
  if decide (axis <= length (shape a))
  then Ok (Nd (take axis (shape a) ++ 1 :: drop axis (shape a)) (data a))
  else Raise ValueError.

(** [r] rows of [c] items, read column by column. *)
Definition transpose2 (r c : nat) (l : list A) : list A :=
  flat_map (fun j => flat_map (fun row => take 1 (drop j row)) (chunks c r l))
           (seq 0 c).

Fixpoint rev_axes (s : list nat) (l : list A) : list A :=
  match s with
  | [] => l
  | d :: s' =>
      transpose2 d (size s') (flat_map (rev_axes s') (chunks (size s') d l))
  end.

(** [a.T]: the axes reversed. *)
Definition np_T (a : ndarray A) : ndarray A :=
  Nd (reverse (shape a)) (rev_axes (shape a) (data a)).

(** [a.transpose(0, 2, 1)] *)
Definition transpose_021 (a : ndarray A) : Res (ndarray A) :=
  match shape a with
  | [n; r; c] =>
      Ok (Nd [n; c; r] (flat_map (transpose2 r c) (chunks (r * c) n (data a))))
  | _ => Raise ValueError
  end.

(** [a[:, :, i]] for [0 <= i]. *)
Definition slice_axis2 (a : ndarray A) (i : nat) : Res (ndarray A) :=
  match shape a with
  | d0 :: d1 :: d2 :: s =>
      if decide (i < d2)
      then Ok (Nd (d0 :: d1 :: s)
                  (flat_map (fun blk => take (size s) (drop (i * size s) blk))
                            (chunks (d2 * size s) (d0 * d1) (data a))))
      else Raise IndexError
  | _ => Raise IndexError
  end.

(** [a[i, j] = x] on a 2-d array, for [0 <= i] and [0 <= j]. *)
Definition setitem2 (a : ndarray A) (i j : nat) (x : A) : Res (ndarray A) :=
  match shape a with
  | [r; c] =>
      if decide (i < r /\ j < c)
      then Ok (Nd [r; c] (<[i * c + j := x]> (data a)))
      else Raise IndexError
  | _ => Raise IndexError
  end.

(** [np.stack(arrays)] *)
Definition np_stack (arrays : list (ndarray A)) : Res (ndarray A) :=
  match arrays with
  | [] => Raise ValueError
  | a :: _ =>
      if decide (Forall (fun b => shape b = shape a) arrays)
      then Ok (Nd (length arrays :: shape a) (flat_map data arrays))
      else Raise ValueError
  end.
End Arrays.

Definition np_map {A B} (f : A -> B) (a : ndarray A) : ndarray B :=
  Nd (shape a) (map f (data a)).

(** *** Broadcasting *)

(** A shape padded on the left with 1s up to rank [n]. *)
Definition pad_shape (n : nat) (s : list nat) : list nat :=
  replicate (n - length s) 1 ++ s.

Definition broadcast_dim (a b : nat) : option nat :=
  if decide (a = b) then Some a
  else if decide (a = 1) then Some b
  else if decide (b = 1) then Some a
  else None.

Fixpoint broadcast_shapes (s1 s2 : list nat) : option (list nat) :=
  match s1, s2 with
  | [], [] => Some []
  | a :: s1', b :: s2' =>
      d ← broadcast_dim a b; s ← broadcast_shapes s1' s2'; Some (d :: s)
  | _, _ => None
  end.

(** The items of an array of shape [src] as seen through shape [tgt]. *)
Fixpoint broadcast_to {A} (src tgt : list nat) (l : list A) : list A :=
  match src, tgt with
  | d :: src', e :: tgt' =>
      if decide (d = e)
      then flat_map (broadcast_to src' tgt') (chunks (size src') d l)
      else flat_map (fun _ => broadcast_to src' tgt' l) (seq 0 e)
  | _, _ => l
  end.

(** A binary ufunc. *)
Definition np_binop {A B C} (f : A -> B -> C)
    (a : ndarray A) (b : ndarray B) : Res (ndarray C) :=
  let n := max (length (shape a)) (length (shape b)) in
  let sa := pad_shape n (shape a) in
  let sb := pad_shape n (shape b) in
  match broadcast_shapes sa sb with
  | Some s =>
      Ok (Nd s (zip_with f (broadcast_to sa s (data a)) (broadcast_to sb s (data b))))
  | None => Raise ValueError
  end.

(** *** Reductions *)

Section Reductions.
Context {A : Type} `{Float64 A}.

Definition np_zeros (s : list nat) : ndarray A := np_full s fzero.

(** [a.min()] and [a.max()]: the buffer is folded from its first item; an
    empty array has no minimum. *)
Definition np_min (a : ndarray A) : Res A :=
  match data a with
  | [] => Raise ValueError
  | x :: l => Ok (fold_left minimum l x)
  end.

Definition np_max (a : ndarray A) : Res A :=
  match data a with
  | [] => Raise ValueError
  | x :: l => Ok (fold_left maximum l x)
  end.

(** Items added up from zero, in index order. *)
Definition add_all (l : list A) : A := fold_left fadd l fzero.

(** numpy's pairwise summation of a contiguous run of [float64] items
    ([DOUBLE_pairwise_sum]). Fewer than eight items are added one after the
    other, starting from -0.0. *)
Definition sum_few (l : list A) : A := fold_left fadd l (fneg fzero).

(** The eight accumulators [r[0]], ..., [r[7]], added up as a tree. There
    are always eight of them. *)
Definition sum_eight (r : list A) : A :=
  match r with
  | [r0; r1; r2; r3; r4; r5; r6; r7] =>
      fadd (fadd (fadd r0 r1) (fadd r2 r3)) (fadd (fadd r4 r5) (fadd r6 r7))
  | _ => sum_few r
  end.

(** From 8 to 128 items: accumulator [j] takes the items [j], [8 + j],
    [16 + j], ... of the leading multiple of eight; the accumulators are
    added up, and the remaining items are added to the result one after the
    other. *)
Definition sum_block (l : list A) : A :=
  let n := length l in
  let m := n - n mod 8 in
  let r := fold_left (zip_with fadd) (chunks 8 (m / 8 - 1) (drop 8 l))
                     (take 8 l) in
  fold_left fadd (drop m l) (sum_eight r).

(** More than 128 items: the run is split at half its length, rounded down
    to a multiple of eight. A run is split fewer times than it has items,
    which is what [fuel] counts. *)
Fixpoint pairwise_sum_from (fuel : nat) (l : list A) : A :=
  let n := length l in
  if decide (n < 8) then sum_few l
  else if decide (n <= 128) then sum_block l
  else match fuel with
       | 0 => sum_block l
       | S fuel =>
           let n2 := n / 2 - (n / 2) mod 8 in
           fadd (pairwise_sum_from fuel (take n2 l))
                (pairwise_sum_from fuel (drop n2 l))
       end.

Definition pairwise_sum (l : list A) : A := pairwise_sum_from (length l) l.

(** [np.add.reduce] over a contiguous run: the result starts as the
    identity, 0.0, and the pairwise sum of the run is added to it. *)
Definition np_add_reduce (l : list A) : A := fadd fzero (pairwise_sum l).

(** [np.sum(a, axis)] for a non-negative [axis] of a C-contiguous array.
    When the items along [axis] are contiguous (no axis longer than 1
    follows), each run is reduced by the pairwise loop; otherwise the
    slices along [axis] are added to zeros one after the other, item by
    item. *)
Definition np_sum_axis (a : ndarray A) (axis : nat) : Res (ndarray A) :=
  match drop axis (shape a) with
  | n :: inner =>
      let outer := take axis (shape a) in
      Ok (Nd (outer ++ inner)
             (flat_map
                (fun blk =>
                   if decide (size inner = 1) then [np_add_reduce blk]
                   else fold_left (zip_with fadd)
                                  (chunks (size inner) n blk)
                                  (replicate (size inner) fzero))
                (chunks (n * size inner) (size outer) (data a))))
  | [] => Raise ValueError
  end.

(** [a.mean()]: [umr_sum(a) / a.size], the sum over the whole buffer. *)
Definition np_mean (a : ndarray A) : A :=
  fdiv (np_add_reduce (data a)) (of_nat (length (data a))).

(** [a.std()]: the root of the mean squared deviation from the mean
    ([_var] with [ddof=0], then [sqrt]). *)
Definition np_std (a : ndarray A) : A :=
  let mu := np_mean a in
  fsqrt (np_mean (np_map (fun x => square (fsub x mu)) a)).
End Reductions.

(** ** Arrays as objects

    What a call does to the arrays it is handed is a matter of references:
    a name denotes an object of the interpreter's heap, a slice reads the
    object it is taken from, and an item-wise product allocates its
    result. *)

Inductive object (A : Type) : Type :=
  | Float64Array (a : ndarray A)
  | Complex128Array (a : ndarray (complex A)).
Arguments Float64Array {A} a.
Arguments Complex128Array {A} a.

Definition heap (A : Type) : Type := list (object A).

(** A computation on the heap: it returns or raises, leaving a heap, or it
    is stuck, on a reference that does not denote an array of the type the
    embedding expects there. *)
Definition Py (A X : Type) : Type := heap A -> option (Res X * heap A).

#[global] Instance Py_ret {A} : MRet (Py A) := fun _ x h => Some (Ok x, h).
#[global] Instance Py_bind {A} : MBind (Py A) := fun _ _ f m h =>
  match m h with
  | Some (Ok x, h') => f x h'
  | Some (Raise e, h') => Some (Raise e, h')
  | None => None
  end.

Section Objects.
Context {A : Type}.

(** A step that reads no object and writes none. *)
Definition py_pure {X} (r : Res X) : Py A X := fun h => Some (r, h).

(** The array a name denotes. *)
Definition py_float64 (ref : nat) : Py A (ndarray A) := fun h =>
  match h !! ref with
  | Some (Float64Array a) => Some (Ok a, h)
  | _ => None
  end.

Definition py_complex128 (ref : nat) : Py A (ndarray (complex A)) := fun h =>
  match h !! ref with
  | Some (Complex128Array a) => Some (Ok a, h)
  | _ => None
  end.

(** A new object; its reference is one no object had. *)
Definition py_new (o : object A) : Py A nat := fun h =>
  Some (Ok (length h), h ++ [o]).
End Objects.

(** ** Collaborators *)

(** What a fitted [sklearn.cluster.KMeans] exposes. *)
Record KMeansFit (A : Type) := Fit {
  labels_ : list nat;
  cluster_centers_ : ndarray A
}.
Arguments Fit {A} labels_ cluster_centers_.
Arguments labels_ {A} _.
Arguments cluster_centers_ {A} _.

(** scikit-learn's k-means: the clustering of the rows of a 2-d array into
    [n_clusters] groups, driven by a random generator it advances. A fit that
    rejects its input raises. *)
Class KMeansLib (A : Type) := {
  RandomState : Type;
  RandomState_of_seed : Z -> RandomState;
  k_means : nat -> RandomState -> ndarray A -> Res (KMeansFit A) * RandomState
}.

(** What a successful fit returns: a label below [n_clusters] for every row,
    and one center per cluster, of the rows' width. It succeeds only when
    asked for at least one cluster. *)
Class KMeansSound (A : Type) `{KMeansLib A} : Prop := {
  k_means_sound : forall k rs rs' X n e fit,
    shape X = [n; e] -> wf X ->
    k_means k rs X = (Ok fit, rs') ->
    0 < k /\
    length (labels_ fit) = n /\ Forall (fun c => c < k) (labels_ fit) /\
    shape (cluster_centers_ fit) = [k; e] /\ wf (cluster_centers_ fit)
}.

(** The separation model. *)
Class Model (A : Type) := {
  get_vectors : ndarray A -> ndarray A;
  predict : ndarray A -> ndarray A
}.

Definition from_option {A} (o : option A) (e : exn) : Res A :=
  match o with Some a => Ok a | None => Raise e end.

(** [for i in items: state = body(state, i)] *)
Fixpoint for_each {S I} (body : S -> I -> Res S) (items : list I) (s : S)
    : Res S :=
  match items with
  | [] => Ok s
  | i :: items' => s' ← body s i; for_each body items' s'
  end.

(** ** src/utils/clustering_utils.py *)

Section Clustering.
Context {A : Type} `{Float64 A} `{NumLib A} `{KMeansLib A} `{Model A}.

(** [from ..features.preprocessing import make_stft_features] *)
Variable make_stft_features : ndarray A -> A -> ndarray (complex A).
(** [from ..features.spectral_features import istft]; the arguments are the
    spectrogram, the sample rate and the overlap. *)
Variable istft : ndarray (complex A) -> A -> A -> ndarray A.
Variable undo_preemphasis : ndarray A -> ndarray A.
(** [from magnolia.utils.training import preprocess_l41_batch] *)
Variable preprocess_l41_batch : ndarray (complex A) -> ndarray A.

Definition preprocess_signal (signal : ndarray A) (sample_rate : A)
    : Res (ndarray (complex A) * ndarray A) :=
  let spectrogram := make_stft_features signal sample_rate in
  let mag_spec := np_map cabs spectrogram in
  let X_in := np_map fsqrt mag_spec in
  m ← np_min X_in;
  M ← np_max X_in;
  let X_in := np_map (fun x => fdiv x (fsub M m))
                     (np_map (fun x => fsub x m) X_in) in
  Ok (spectrogram, X_in).

Definition process_signal (signal : ndarray A) (sample_rate : A)
    : Res (ndarray (complex A) * ndarray A) :=
  '(spectrogram, X_in) ← preprocess_signal signal sample_rate;
  d0 ← from_option (shape X_in !! 0) IndexError;
  d1 ← from_option (shape X_in !! 1) IndexError;
  X_in ← np_reshape X_in [1; d0; d1];
  Ok (spectrogram, get_vectors X_in).

(** [KMeans(n_clusters, random_state).fit(X)]. With an integer
    [random_state] the fit runs on a generator of its own, seeded with it;
    with [None] it draws from numpy's global generator [g]. *)
Definition KMeans_fit (n_clusters : nat) (random_state : option Z)
    (X : ndarray A) (g : RandomState) : Res (KMeansFit A) * RandomState :=
  match random_state with
  | Some seed => (fst (k_means n_clusters (RandomState_of_seed seed) X), g)
  | None => k_means n_clusters g X
  end.

(** The binary branch: [masks[i, labels[i]] = 1] for every row. *)
Definition binary_masks (labels : list nat) (masks : ndarray A)
    : Res (ndarray A) :=
  for_each
    (fun masks i =>
       label ← from_option (labels !! i) IndexError;
       setitem2 masks i label fone)
    (seq 0 (length labels)) masks.

(** The soft branch. *)
Definition soft_masks (centers v0 : ndarray A) : Res (ndarray A) :=
  let centers := np_T centers in
  centers ← np_expand_dims centers 0;
  centers ← np_expand_dims centers 0;
  v ← np_expand_dims v0 3;
  masks ← np_binop fmul centers v;
  masks ← np_sum_axis masks 2;
  Ok (np_map sigmoid masks).

(** The state threaded through is numpy's global random generator. *)
Definition get_cluster_masks (vectors : ndarray A) (num_sources : nat)
    (binary_mask : bool) (g : RandomState) : Res (ndarray A) * RandomState :=
  match shape vectors with
  | _ :: T :: F :: E :: _ =>
      match v0 ← index0 vectors; np_reshape v0 [T * F; E] with
      | Raise e => (Raise e, g)
      | Ok X =>
          let '(fit, g) := KMeans_fit num_sources (Some 0%Z) X g in
          (kmeans ← fit;
           let masks := np_zeros [T * F; num_sources] in
           if binary_mask then
             masks ← binary_masks (labels_ kmeans) masks;
             np_reshape masks [T; F; num_sources]
           else
             v0 ← index0 vectors;
             soft_masks (cluster_centers_ kmeans) v0,
           g)
      end
  | _ => (Raise IndexError, g)
  end.

Definition apply_masks (spectrogram : ndarray (complex A)) (masks : ndarray A)
    : Res (list (ndarray (complex A))) :=
  num_sources ← from_option (shape masks !! 2) IndexError;
  mapM (fun i => m ← slice_axis2 masks i; np_binop mask_mul m spectrogram)
       (seq 0 num_sources).

(** [apply_masks] on references: every product is a new object; the slice
    [masks[:, :, i]] and [spectrogram] are read where they are. *)
Definition apply_masks_on (spectrogram masks : nat) : Py A (list nat) :=
  M ← py_float64 masks;
  num_sources ← py_pure (from_option (shape M !! 2) IndexError);
  mapM (fun i =>
          M ← py_float64 masks;
          m ← py_pure (slice_axis2 M i);
          S ← py_complex128 spectrogram;
          product ← py_pure (np_binop mask_mul m S);
          py_new (Complex128Array product))
       (seq 0 num_sources).

Definition clustering_separate (signal : ndarray A) (sample_rate : A)
    (num_sources : nat) (binary_mask : bool) (g : RandomState)
    : Res (ndarray A) * RandomState :=
  match process_signal signal sample_rate with
  | Raise e => (Raise e, g)
  | Ok (spectrogram, vectors) =>
      let '(masks, g) := get_cluster_masks vectors num_sources binary_mask g in
      (masks ← masks;
       masked_specs ← apply_masks spectrogram masks;
       waveforms ←
         mapM (fun i =>
                 masked ← from_option (masked_specs !! i) IndexError;
                 let waveform :=
                   istft masked (of_nat (100 * 100))
                         (fdiv (of_nat 256) (of_nat (100 * 100))) in
                 Ok (undo_preemphasis waveform))
              (seq 0 num_sources);
       np_stack waveforms,
       g)
  end.

Definition l41_clustering_separate (spec : ndarray (complex A))
    (num_sources : nat) (binary_mask : bool) (g : RandomState)
    : Res (ndarray (complex A)) * RandomState :=
  let model_spec := preprocess_l41_batch spec in
  let vectors := get_vectors model_spec in
  let '(masks, g) := get_cluster_masks vectors num_sources binary_mask g in
  (masks ← masks;
   spec0 ← index0 spec;
   masked_specs ← apply_masks (np_T spec0) masks;
   sources ← np_stack masked_specs;
   transpose_021 sources,
   g).
End Clustering.

(** ** magnolia/sandbox/demo/app/model_functions.py *)

Section Demo.
Context {A : Type} `{Float64 A} `{NumLib A} `{Model A}.

Variable Path : Type.
(** [soundfile.read]: the signal and its rate. *)
Variable sf_read : Path -> ndarray A * A.
(** [make_stft_features(signal, rate, sample_rate, window_size, overlap,
    fft_size)] *)
Variable make_stft_features :
  ndarray A -> A -> A -> A -> A -> nat -> ndarray (complex A).
(** [np.unwrap(np.angle(spectrogram))] *)
Variable phase_of : ndarray (complex A) -> ndarray A.
(** [np.exp(x*1.0j)] on one item. *)
Variable cis : A -> complex A.
(** [istft(spectrogram, sample_rate, None, overlap, two_sided=False,
    fft_size)] *)
Variable istft : ndarray (complex A) -> A -> A -> nat -> ndarray A.
Variable undo_preemphasis : ndarray A -> ndarray A.

Definition featurize_spectrogram (spectrogram : ndarray (complex A))
    : Res (ndarray A * ndarray A * A * A) :=
  let X_input := np_map cabs spectrogram in
  let phases := phase_of spectrogram in
  let X_input := np_map fsqrt X_input in
  X_max ← np_max X_input;
  X_min ← np_min X_input;
  let X_input := np_map (fun x => fdiv x (fsub X_max X_min))
                        (np_map (fun x => fsub x X_min) X_input) in
  Ok (X_input, phases, X_max, X_min).

(** [y_output*(X_max - X_min) + X_min], then [np.square]. *)
Definition undo_normalization (y_output : ndarray A) (X_max X_min : A)
    : ndarray A :=
  np_map square
    (np_map (fun y => fadd (fmul y (fsub X_max X_min)) X_min) y_output).

(** [(waveform - waveform.mean())/waveform.std()] *)
Definition normalize_waveform (waveform : ndarray A) : ndarray A :=
  let mu := np_mean waveform in
  let sd := np_std waveform in
  np_map (fun x => fdiv x sd) (np_map (fun x => fsub x mu) waveform).

Definition separate_sources (signal_path : Path)
    (sample_rate window_size overlap : A) : Res (ndarray A) :=
  let '(signal, rate) := sf_read signal_path in
  let spectrogram :=
    make_stft_features signal rate sample_rate window_size overlap 500 in
  '(X_input, phases, X_max, X_min) ← featurize_spectrogram spectrogram;
  d0 ← from_option (shape X_input !! 0) IndexError;
  d1 ← from_option (shape X_input !! 1) IndexError;
  X_input ← np_reshape X_input [1; d0; d1; 1];
  let y_output := predict X_input in
  let y_output := undo_normalization y_output X_max X_min in
  _ ← from_option (shape spectrogram !! 0) IndexError;
  n ← from_option (shape y_output !! 3) IndexError;
  source_list ←
    mapM (fun i =>
            y0 ← index0 y_output;
            yi ← slice_axis2 y0 i;
            complex_spectrogram ← np_binop mask_mul yi (np_map cis phases);
            let waveform := istft complex_spectrogram sample_rate overlap 500 in
            let waveform := undo_preemphasis waveform in
            Ok (normalize_waveform waveform))
         (seq 0 n);
  np_stack source_list.
End Demo.


(** ** What the properties are stated with *)

(** The C-order position of the item at index [idx] in an array of shape [s]. *)
Fixpoint offset (s idx : list nat) : option nat :=
  match s, idx with
  | [], [] => Some 0
  | d :: s', i :: idx' =>
      if decide (i < d) then o ← offset s' idx'; Some (i * size s' + o)
      else None
  | _, _ => None
  end.

(** [a[idx]] *)
Definition item {A} (a : ndarray A) (idx : list nat) : option A :=
  o ← offset (shape a) idx; data a !! o.

Section Properties.
Context {A : Type} `{Float64 A}.

(** The inner product, accumulated from zero in index order. *)
Definition dot (c v : list A) : A := add_all (zip_with fmul c v).

(** The inner product as the soft branch of [get_cluster_masks] adds it up:
    the products are summed along the embedding axis of a
    (T, F, E, num_sources) array, whose runs are contiguous, and reduced
    pairwise, only when there is a single source. *)
Definition np_dot (num_sources : nat) (c v : list A) : A :=
  if decide (num_sources = 1) then np_add_reduce (zip_with fmul c v)
  else add_all (zip_with fmul c v).

(** A mask cell that selects source [c] out of [k]. *)
Definition one_hot (k c : nat) : list A := <[c := fone]> (replicate k fzero).

(** The built-in [sum(arrays)]: it starts from [0]. *)
Definition py_sum (arrays : list (ndarray (complex A)))
  : Res (ndarray (complex A)) :=
  for_each (np_binop cadd) arrays (scalar czero).

(** [(x == y).all()] *)
Definition all_equal (x y : ndarray (complex A)) : Res bool :=
  r ← np_binop ceqb x y; Ok (forallb (fun b : bool => b) (data r)).
End Properties.

(** Two dimensions that numpy cannot broadcast. *)
Definition clash (a b : nat) : Prop := a <> b /\ a <> 1 /\ b <> 1.

(** ** Instances the examples run on *)

(** The textbook formulas evaluated in binary64. They agree with the C
    library wherever the examples below use them ([hypot] of exact squares);
    no theorem depends on how [exp] rounds. *)
Definition B64_hypot (x y : B64.t) : B64.t :=
  B64.sqrt (B64.add (B64.mul x x) (B64.mul y y)).

(** [exp] by argument reduction: the Taylor polynomial at [x/1024], squared
    ten times; 0 below the least argument with a positive value, infinite
    above the greatest argument with a finite one. *)
Definition B64_exp (x : B64.t) : B64.t :=
  if B64.isnan x then B64.nan
  else if SFltb x (B64.of_Z (-746)) then B64.zero
  else if SFltb (B64.of_Z 710) x then S754_infinity false
  else
    let y := B64.div x (B64.of_Z 1024) in
    let p :=
      foldr (fun n acc =>
               B64.add B64.one (B64.div (B64.mul y acc) (B64.of_Z n)))
            B64.one [1; 2; 3; 4; 5; 6; 7; 8; 9; 10; 11; 12]%Z in
    Nat.iter 10 (fun e => B64.mul e e) p.

Definition binary64_lib : NumLib B64.t :=
  {| lib_exp := B64_exp; lib_hypot := B64_hypot |}.

(** A clustering to run examples with: the first [k] rows are the centers and
    the labels go round the clusters, starting where the generator stands.
    Like scikit-learn it wants at least one cluster, one column, and as many
    rows as clusters. *)
Definition round_robin_k_means {A} (k : nat) (rs : nat) (X : ndarray A)
  : Res (KMeansFit A) * nat :=
  match shape X with
  | [n; e] =>
      if decide (1 <= k <= n /\ 1 <= e)
      then (Ok (Fit (map (fun i => (i + rs) mod k) (seq 0 n))
                    (Nd [k; e] (take (k * e) (data X)))),
            S rs)
      else (Raise ValueError, rs)
  | _ => (Raise ValueError, rs)
  end.

Definition round_robin {A} : KMeansLib A :=
  {| RandomState := nat;
     RandomState_of_seed := Z.to_nat;
     k_means := round_robin_k_means |}.

(** A model whose embedding of a cell is the cell's feature itself. *)
Definition identity_model {A} : Model A :=
  {| get_vectors := fun X => Nd (shape X ++ [1]) (data X);
     predict := fun X => X |}.

(** The columns of a list of rows of [c] items. *)
Definition columns {A} (c : nat) (rows : list (list A)) : list (list A) :=
  map (fun j => flat_map (fun row => take 1 (drop j row)) rows) (seq 0 c).


(** *** Binary64 values in the statements *)

(** A finite value of the format. *)
Definition finite_item (x : B64.t) : Prop :=
  B64.isfinite x = true /\ B64.valid x = true.


Definition weight (x : B64.t) : nat := if B64.is_zero x then 0 else 1.

(** How many items of a list of zeros and ones are ones. *)
Definition ones (l : list B64.t) : nat :=
  foldr (fun x n => weight x + n) 0 l.

(** The same number: the same value, or two zeros of any signs. *)
Definition same_value (x y : B64.t) : Prop :=
  x = y \/ (B64.is_zero x = true /\ B64.is_zero y = true).

Definition czeroish (z : complex B64.t) : Prop :=
  B64.is_zero (re z) = true /\ B64.is_zero (im z) = true.

Definition csame (u z : complex B64.t) : Prop :=
  same_value (re u) (re z) /\ same_value (im u) (im z).


(** ** Example inputs *)

(** A silent 2 x 2 spectrogram, the stub that produces it, and a stub for the
    phases. *)
Definition silent_spectrogram : ndarray (complex B64.t) :=
  Nd [2; 2] (replicate 4 czero).

Definition silent_stft (_ : ndarray B64.t) (_ : B64.t)
  : ndarray (complex B64.t) := silent_spectrogram.

Definition zero_phase {A} `{Float64 A} (s : ndarray (complex A)) : ndarray A :=
  np_map (fun _ => fzero) s.

(** A silent waveform. *)
Definition silent_waveform : ndarray B64.t := Nd [4] (replicate 4 B64.zero).

(** Embeddings of shape (1, 2, 2, 1). *)
Definition example_vectors : ndarray B64.t :=
  Nd [1; 2; 2; 1] [B64.of_Z 1; B64.of_Z 2; B64.of_Z 3; B64.of_Z 4].

(** Two batches that agree on their first element only. *)
Definition batch_a : ndarray B64.t :=
  Nd [2; 1; 2; 1] [B64.of_Z 1; B64.of_Z 2; B64.of_Z 3; B64.of_Z 4].
Definition batch_b : ndarray B64.t :=
  Nd [2; 1; 2; 1] [B64.of_Z 1; B64.of_Z 2; B64.of_Z 7; B64.of_Z 9].


(** A (1, 2) spectrogram with entries 3 - i and 1/2 + 2i, and the hard mask
    that gives the first cell to source 0 and the second to source 1. *)
Definition example_spectrogram : ndarray (complex B64.t) :=
  Nd [1; 2] [Cx (B64.of_Z 3) (B64.of_Z (-1)); Cx (B64.ratio 1 2) (B64.of_Z 2)].
Definition example_hard_mask : ndarray B64.t :=
  Nd [1; 2; 2] [B64.one; B64.zero; B64.zero; B64.one].

(** The one-cell spectrogram 3 + 0i and the soft mask (0.3, 0.7). *)
Definition three : ndarray (complex B64.t) :=
  Nd [1; 1] [Cx (B64.of_Z 3) B64.zero].
Definition mask_3_7 : ndarray B64.t :=
  Nd [1; 1; 2] [B64.ratio 3 10; B64.ratio 7 10].

(** The same over the reals. *)
Definition real_three : ndarray (complex R) := Nd [1; 1] [Cx 3%R 0%R].
Definition real_mask_3_7 : ndarray R :=
  Nd [1; 1; 2] [(3 / 10)%R; (7 / 10)%R].

(** A (1, 2) spectrogram with magnitudes 0 and 2. *)
Definition zero_two : ndarray (complex B64.t) :=
  Nd [1; 2] [czero; Cx (B64.of_Z 2) B64.zero].

(** A real (1, 2) spectrogram with magnitudes 0 and 1. *)
Definition real_zero_one : ndarray (complex R) :=
  Nd [1; 2] [Cx 0%R 0%R; Cx 1%R 0%R].

(** A spectrogram of shape (1, F, T) with F = 3 and T = 2, and a stub for
    [preprocess_l41_batch]: the magnitudes, as (1, T, F). *)
Definition l41_spec : ndarray (complex B64.t) :=
  Nd [1; 3; 2]
     (map (fun n => Cx (B64.of_Z n) B64.zero) [1; 2; 3; 4; 5; 6]%Z).

Definition magnitudes_time_major {A} `{Float64 A} `{NumLib A}
    (spec : ndarray (complex A)) : ndarray A :=
  match transpose_021 (np_map cabs spec) with
  | Ok a => a
  | Raise _ => np_map cabs spec
  end.

(** Embeddings that lack the batch and the embedding axes. *)
Definition flat_vectors : ndarray B64.t :=
  Nd [2; 2] [B64.of_Z 1; B64.of_Z 2; B64.of_Z 3; B64.of_Z 4].

(** A (3, 2) spectrogram and a (2, 2, 1) mask: the time axes clash. *)
Definition tall_spectrogram : ndarray (complex B64.t) :=
  Nd [3; 2] (replicate 6 (Cx B64.one B64.zero)).
Definition square_mask : ndarray B64.t := Nd [2; 2; 1] (replicate 4 B64.one).

(** A stub for [preprocess_l41_batch] that makes five time frames of any
    spectrogram. *)
Definition five_frames (_ : ndarray (complex B64.t)) : ndarray B64.t :=
  Nd [1; 5; 3] (map (fun n => B64.of_Z (Z.of_nat n)) (seq 0 15)).

(** STFT stubs that return a given spectrogram, with the arguments of
    [clustering_utils] and with those of [model_functions]. *)
Definition fixed_stft {A} (s : ndarray (complex A))
    (_ : ndarray A) (_ : A) : ndarray (complex A) := s.
Definition fixed_stft_demo {A} (s : ndarray (complex A))
    (_ : ndarray A) (_ _ _ _ : A) (_ : nat) : ndarray (complex A) := s.

(** A (1, 2) spectrogram with a NaN, and a spectrogram with one axis only. *)
Definition nan_spectrogram : ndarray (complex B64.t) :=
  Nd [1; 2] [Cx B64.nan B64.zero; Cx (B64.of_Z 1) B64.zero].
Definition line_spectrogram : ndarray (complex B64.t) :=
  Nd [2] [czero; Cx (B64.of_Z 2) B64.zero].

(** A spectrogram without a frame. *)
Definition empty_spectrogram : ndarray (complex B64.t) := Nd [0; 3] [].


(** (1, 1, 2, 8) embeddings whose second cell has, with the first, the
    products 1, 2^53, 1, -2^53, 0, 0, 0, 0: they add up to 0 one after the
    other and to 1 in pairs. *)
Definition pairwise_vectors : ndarray B64.t :=
  Nd [1; 1; 2; 8]
     ([B64.one; B64.of_Z (2 ^ 53); B64.one; B64.of_Z (2 ^ 53);
       B64.zero; B64.zero; B64.zero; B64.zero]
      ++ [B64.one; B64.one; B64.one; B64.of_Z (-1);
          B64.zero; B64.zero; B64.zero; B64.zero]).

(** Ten samples of 0.1. *)
Definition tenths : ndarray B64.t := Nd [10] (replicate 10 (B64.ratio 1 10)).

(** The waveform (0, 2) over the reals. *)
Definition real_ramp : ndarray R := Nd [2] [0%R; 2%R].

(** Inverse-STFT stubs: the real parts of the items, as one row. *)
Definition real_parts {A} (c : ndarray (complex A)) (_ _ : A) : ndarray A :=
  Nd [size (shape c)] (map re (data c)).
Definition real_parts_demo {A} (c : ndarray (complex A)) (_ _ : A) (_ : nat)
  : ndarray A :=
  Nd [size (shape c)] (map re (data c)).

(** A stub for [undo_preemphasis]. *)
Definition no_filter {A} (w : ndarray A) : ndarray A := w.

(** [exp(1j*p)] to first order, exact at phase 0. *)
Definition small_phasor {A} `{Float64 A} (p : A) : complex A := Cx fone p.

(** A stub for [soundfile.read]. *)
Definition no_file (_ : unit) : ndarray B64.t * B64.t := (Nd [0] [], B64.one).

(** Models with a malformed output: one axis only, and no channel. *)
Definition flat_model {A} : Model A :=
  {| get_vectors := fun X => X;
     predict := fun X => Nd [size (shape X)] (data X) |}.
Definition mute_model {A} : Model A :=
  {| get_vectors := fun X => X;
     predict := fun X => Nd (take 3 (shape X) ++ [0]) [] |}.

(** ** Proof automation *)

(** Case analysis on the integer comparisons behind [SFcompare]. *)
Ltac compare_cases :=
  repeat match goal with
    | |- context [Z.compare ?a ?b] =>
        destruct (Z.compare_spec a b); try lia; subst
    | |- context [Pos.compare_cont Eq ?a ?b] =>
        change (Pos.compare_cont Eq a b) with (Pos.compare a b)
    | |- context [Pos.compare ?a ?b] =>
        destruct (Pos.compare_spec a b); try lia; subst
    | H : context [Z.compare ?a ?b] |- _ =>
        destruct (Z.compare_spec a b); try lia; subst
    | H : context [Pos.compare_cont Eq ?a ?b] |- _ =>
        change (Pos.compare_cont Eq a b) with (Pos.compare a b) in H
    | H : context [Pos.compare ?a ?b] |- _ =>
        destruct (Pos.compare_spec a b); try lia; subst
    end.

(** The class operations at binary64, by name. *)
Ltac b64_ops :=
  change (@fmul _ binary64) with B64.mul;
  change (@fsub _ binary64) with B64.sub;
  change (@fadd _ binary64) with B64.add;
  change (@fone _ binary64) with B64.one;
  change (@fzero _ binary64) with B64.zero;
  change (@feqb _ binary64) with SFeqb.


(** ** Lists cut into pieces *)

Section Chunks.
Context {A : Type}.
Implicit Types (l : list A) (sz n : nat).

Lemma chunks_S sz n l :
  chunks sz (S n) l = take sz l :: chunks sz n (drop sz l).
Proof. reflexivity. Qed.

Lemma length_chunks sz n l : length (chunks sz n l) = n.
Proof. unfold chunks. by rewrite length_reshape, length_replicate. Qed.

Lemma concat_chunks sz n l :
  length l = n * sz -> concat (chunks sz n l) = l.
Proof.
  revert l. induction n as [|n IH]; intros l Hl.
  - destruct l; [done | simpl in Hl; lia].
  - rewrite chunks_S. simpl. rewrite IH.
    + apply take_drop.
    + rewrite length_drop. lia.
Qed.

Lemma chunks_flat_map {B} (f : B -> list A) sz (xs : list B) rest :
  Forall (fun x => length (f x) = sz) xs ->
  chunks sz (length xs) (flat_map f xs ++ rest) = map f xs.
Proof.
  induction 1 as [|x xs Hx _ IH]; [done |].
  simpl length. rewrite chunks_S. simpl flat_map. rewrite <- app_assoc.
  rewrite take_app_length', drop_app_length' by done.
  by rewrite IH.
Qed.

Lemma chunks_flat_map_nil {B} (f : B -> list A) sz (xs : list B) :
  Forall (fun x => length (f x) = sz) xs ->
  chunks sz (length xs) (flat_map f xs) = map f xs.
Proof.
  intros Hxs. rewrite <- (app_nil_r (flat_map f xs)).
  by apply chunks_flat_map.
Qed.

Lemma Forall_length_chunks sz n l :
  n * sz <= length l -> Forall (fun c => length c = sz) (chunks sz n l).
Proof.
  revert l. induction n as [|n IH]; intros l Hl; [constructor |].
  rewrite chunks_S. constructor.
  - rewrite length_take. lia.
  - apply IH. rewrite length_drop. lia.
Qed.

Lemma flat_map_map {B C} (f : C -> list A) (g : B -> C) (xs : list B) :
  flat_map f (map g xs) = flat_map (fun x => f (g x)) xs.
Proof. induction xs as [|x xs IH]; simpl; [done | by rewrite IH]. Qed.

Lemma length_flat_map_const {B} (f : B -> list A) m (xs : list B) :
  Forall (fun x => length (f x) = m) xs ->
  length (flat_map f xs) = length xs * m.
Proof.
  induction 1 as [|x xs Hx _ IH]; [done |].
  simpl. rewrite length_app. lia.
Qed.

Lemma length_concat_const m (xs : list (list A)) :
  Forall (fun x => length x = m) xs -> length (concat xs) = length xs * m.
Proof.
  induction 1 as [|x xs Hx _ IH]; [done |].
  simpl. rewrite length_app. lia.
Qed.

Lemma chunks_lookup sz n l p :
  p < n -> chunks sz n l !! p = Some (take sz (drop (p * sz) l)).
Proof.
  revert l p. induction n as [|n IH]; intros l p Hp; [lia |].
  rewrite chunks_S. destruct p as [|p]; simpl.
  - done.
  - rewrite IH by lia. by rewrite drop_drop.
Qed.

Lemma chunks_take sz n l :
  chunks sz n (take (n * sz) l) = chunks sz n l.
Proof.
  revert l. induction n as [|n IH]; intros l; [done |].
  rewrite !chunks_S. f_equal.
  - rewrite take_take. f_equal. lia.
  - rewrite <- (IH (drop sz l)), take_drop_commute. reflexivity.
Qed.
End Chunks.

(** ** Exceptions *)

Lemma bind_Ok {A B} (m : Res A) (f : A -> Res B) b :
  m ≫= f = Ok b -> exists a, m = Ok a /\ f a = Ok b.
Proof. destruct m as [a|e]; simpl; [eauto | discriminate]. Qed.

Lemma mapM_Ok_length {A B} (f : A -> Res B) (l : list A) (r : list B) :
  mapM f l = Ok r -> length r = length l.
Proof.
  revert r. induction l as [|x l IH]; intros r; simpl.
  - intros [= <-]. done.
  - intros Hr. apply bind_Ok in Hr as (y & Hy & Hr).
    apply bind_Ok in Hr as (ys & Hys & [= <-]). simpl. by rewrite (IH ys).
Qed.

Lemma mapM_Ok_lookup {A B} (f : A -> Res B) (l : list A) (r : list B) i x :
  mapM f l = Ok r -> l !! i = Some x ->
  exists y, r !! i = Some y /\ f x = Ok y.
Proof.
  revert r i. induction l as [|x0 l IH]; intros r i; simpl; [done |].
  intros Hr Hi. apply bind_Ok in Hr as (y & Hy & Hr).
  apply bind_Ok in Hr as (ys & Hys & [= <-]).
  destruct i as [|i]; simpl in *.
  - injection Hi as <-. eauto.
  - eauto.
Qed.

Lemma mapM_Ok_intro {A B} (f : A -> Res B) (g : A -> B) (l : list A) :
  Forall (fun x => f x = Ok (g x)) l -> mapM f l = Ok (map g l).
Proof.
  induction 1 as [|x l Hx _ IH]; simpl; [done |]. by rewrite Hx, IH.
Qed.

(** ** Pairwise sums *)

Section PairwiseShape.
Context {A : Type}.

Lemma concat_chunks_take sz n (l : list A) :
  n * sz <= length l -> concat (chunks sz n l) = take (n * sz) l.
Proof.
  intros Hl. rewrite <- chunks_take. apply concat_chunks.
  rewrite length_take. lia.
Qed.

(** The leading multiple of eight of a run of at least eight items: the
    first eight, then the rows the accumulators take in. *)
Lemma leading_rows (l : list A) :
  8 <= length l ->
  let m := length l - length l mod 8 in
  Forall (fun row => length row = 8) (chunks 8 (m / 8 - 1) (drop 8 l)) /\
  take 8 l ++ concat (chunks 8 (m / 8 - 1) (drop 8 l)) ++ drop m l = l.
Proof.
  intros Hl m.
  pose proof (Nat.div_mod_eq (length l) 8) as Hdiv.
  pose proof (Nat.mod_upper_bound (length l) 8 ltac:(lia)) as Hmod.
  assert (Hm : m = 8 * (length l / 8)) by (unfold m; lia).
  assert (Hq : m / 8 = length l / 8).
  { rewrite Hm, Nat.mul_comm. apply Nat.div_mul. lia. }
  assert (Hrows : (m / 8 - 1) * 8 <= length (drop 8 l)).
  { rewrite length_drop. lia. }
  split; [by apply Forall_length_chunks |].
  rewrite concat_chunks_take by done.
  rewrite take_drop_commute.
  replace (8 + (m / 8 - 1) * 8) with m by lia.
  replace (take 8 l) with (take 8 (take m l))
    by (rewrite take_take; f_equal; lia).
  rewrite app_assoc, take_drop. apply take_drop.
Qed.
End PairwiseShape.

Section PairwiseUnfold.
Context {A : Type} `{Float64 A}.

Lemma pairwise_sum_from_0 (l : list A) :
  pairwise_sum_from 0 l
  = if decide (length l < 8) then sum_few l else sum_block l.
Proof. simpl. by repeat destruct (decide _). Qed.

Lemma pairwise_sum_from_S fuel (l : list A) :
  pairwise_sum_from (S fuel) l
  = if decide (length l < 8) then sum_few l
    else if decide (length l <= 128) then sum_block l
    else fadd (pairwise_sum_from fuel
                 (take (length l / 2 - (length l / 2) mod 8) l))
              (pairwise_sum_from fuel
                 (drop (length l / 2 - (length l / 2) mod 8) l)).
Proof. reflexivity. Qed.
End PairwiseUnfold.

(** *** Over the reals: the sum *)

Section PairwiseReal.
Implicit Types (l r : list R) (x : R).

Lemma add_all_from l x : fold_left Rplus l x = (x + add_all l)%R.
Proof.
  unfold add_all. simpl. revert x.
  induction l as [|a l IH]; intros x; simpl; [lra |].
  rewrite IH, (IH (0 + a)%R). lra.
Qed.

Lemma add_all_app l r : add_all (l ++ r) = (add_all l + add_all r)%R.
Proof.
  unfold add_all at 1. rewrite fold_left_app.
  change (fold_left fadd l fzero) with (add_all l).
  apply add_all_from.
Qed.

Lemma add_all_zip l r :
  length l = length r ->
  add_all (zip_with Rplus l r) = (add_all l + add_all r)%R.
Proof.
  revert r. induction l as [|a l IH]; intros [|b r] Hlen; try done.
  - unfold add_all. simpl. lra.
  - simpl in Hlen. cbn [zip_with].
    change (?u :: ?v) with ([u] ++ v). rewrite !add_all_app, IH by lia.
    unfold add_all. simpl. lra.
Qed.

Lemma add_all_rows (rows : list (list R)) r :
  Forall (fun row => length row = length r) rows ->
  add_all (fold_left (zip_with Rplus) rows r)
  = (add_all r + add_all (concat rows))%R.
Proof.
  intros Hrows. revert r Hrows.
  induction rows as [|row rows IH]; intros r Hrows.
  - unfold add_all. simpl. lra.
  - apply Forall_cons in Hrows as [Hrow Hrows]. simpl.
    rewrite IH.
    + rewrite add_all_zip, add_all_app by done. lra.
    + eapply Forall_impl; [exact Hrows |]. intros row' Hrow'. simpl in *.
      rewrite length_zip_with. lia.
Qed.

Lemma sum_few_real l : sum_few l = add_all l.
Proof.
  unfold sum_few. simpl. rewrite add_all_from. lra.
Qed.

Lemma sum_eight_real r : sum_eight r = add_all r.
Proof.
  unfold sum_eight.
  do 9 (destruct r as [|? r]; [try apply sum_few_real |]).
  - unfold add_all. simpl. lra.
  - apply sum_few_real.
Qed.

Lemma sum_block_real l : 8 <= length l -> sum_block l = add_all l.
Proof.
  intros Hl. unfold sum_block.
  destruct (leading_rows l Hl) as [Hrows Hsplit].
  rewrite add_all_from, sum_eight_real.
  change (@fadd R exact) with Rplus.
  rewrite add_all_rows.
  - etransitivity; [| exact (f_equal add_all Hsplit)].
    rewrite !add_all_app. lra.
  - eapply Forall_impl; [exact Hrows |]. intros row Hrow. simpl in *.
    rewrite length_take. lia.
Qed.

Lemma pairwise_sum_from_real fuel l : pairwise_sum_from fuel l = add_all l.
Proof.
  revert l. induction fuel as [|fuel IH]; intros l.
  - rewrite pairwise_sum_from_0.
    destruct (decide (length l < 8)); [apply sum_few_real |].
    apply sum_block_real. lia.
  - rewrite pairwise_sum_from_S.
    destruct (decide (length l < 8)); [apply sum_few_real |].
    destruct (decide (length l <= 128)); [apply sum_block_real; lia |].
    rewrite !IH. change (@fadd R exact) with Rplus.
    rewrite <- add_all_app. by rewrite take_drop.
Qed.

(** Over the reals the order of the additions does not matter. *)
Lemma np_add_reduce_real l : np_add_reduce l = add_all l.
Proof.
  unfold np_add_reduce, pairwise_sum. rewrite pairwise_sum_from_real.
  simpl. lra.
Qed.
End PairwiseReal.

(** *** Enough fuel *)

Section PairwiseFuel.
Context {A : Type} `{Float64 A}.

(** The fuel a run comes with is enough: more does not change the sum. *)
Lemma pairwise_sum_fuel fuel (l : list A) :
  length l <= fuel -> pairwise_sum_from fuel l = pairwise_sum l.
Proof.
  unfold pairwise_sum.
  assert (Hgen : forall f1 f2 (l : list A),
            length l <= f1 -> length l <= f2 ->
            pairwise_sum_from f1 l = pairwise_sum_from f2 l).
  { induction f1 as [|f1 IH]; intros f2 l' H1 H2.
    - destruct l'; [| simpl in H1; lia]. by destruct f2.
    - destruct f2 as [|f2].
      + destruct l'; [done | simpl in H2; lia].
      + rewrite !pairwise_sum_from_S.
        destruct (decide (length l' < 8)); [done |].
        destruct (decide (length l' <= 128)); [done |].
        pose proof (Nat.mod_upper_bound (length l' / 2) 8 ltac:(lia)) as Hmod.
        pose proof (Nat.div_mod_eq (length l') 2) as Hdiv.
        pose proof (Nat.mod_upper_bound (length l') 2 ltac:(lia)) as Hmod2.
        f_equal; apply IH; rewrite ?length_take, ?length_drop; lia. }
  intros Hl. by apply Hgen.
Qed.
End PairwiseFuel.

(** *** In binary64: zeros and a single one *)

Section PairwiseUnits.
Implicit Types (x y : B64.t) (l r : list B64.t).

Lemma ones_app l r : ones (l ++ r) = ones l + ones r.
Proof. induction l as [|x l IH]; simpl; [done | rewrite IH; lia]. Qed.

Lemma ones_concat (rows : list (list B64.t)) :
  ones (concat rows) = foldr (fun row n => ones row + n) 0 rows.
Proof.
  induction rows as [|row rows IH]; simpl; [done |].
  by rewrite ones_app, IH.
Qed.











End PairwiseUnits.

(** ** The binary branch of [get_cluster_masks] *)

Section BinaryMasks.
Context {A : Type} `{Float64 A}.

Lemma one_hot_0 k : one_hot (S k) 0 = fone :: replicate k fzero.
Proof. reflexivity. Qed.

Lemma one_hot_S k c : one_hot (S k) (S c) = fzero :: one_hot k c.
Proof. reflexivity. Qed.

Lemma length_one_hot k c : length (one_hot k c) = k.
Proof. unfold one_hot. by rewrite length_insert, length_replicate. Qed.



Lemma setitem2_Ok r c (d : list A) i j x :
  i < r -> j < c ->
  setitem2 (Nd [r; c] d) i j x = Ok (Nd [r; c] (<[i * c + j := x]> d)).
Proof. intros Hi Hj. unfold setitem2. simpl. by rewrite decide_True. Qed.

(** The loop writes one cell per label. *)
Lemma binary_masks_from labels k n seen pre rest :
  labels = seen ++ rest -> n = length labels ->
  length pre = length seen * k ->
  Forall (fun c => c < k) rest ->
  for_each
    (fun masks i =>
       label ← from_option (labels !! i) IndexError;
       setitem2 masks i label fone)
    (seq (length seen) (length rest))
    (Nd [n; k] (pre ++ replicate (length rest * k) fzero))
  = Ok (Nd [n; k] (pre ++ flat_map (one_hot k) rest)).
Proof.
  intros Hl Hn. revert seen pre Hl.
  induction rest as [|c rest IH]; intros seen pre Hl Hpre Hk.
  - done.
  - apply Forall_cons in Hk as [Hc Hk]. simpl length. simpl seq. simpl for_each.
    rewrite Hl at 1. rewrite list_lookup_middle by done. simpl from_option.
    assert (length seen < n) by (rewrite Hn, Hl, length_app; simpl; lia).
    cbn [mbind Res_bind]. rewrite setitem2_Ok by done.
    replace (S (length rest) * k) with (k + length rest * k) by lia.
    rewrite replicate_add.
    rewrite insert_app_r_alt by lia.
    rewrite insert_app_l by (rewrite length_replicate; lia).
    replace (length seen * k + c - length pre) with c by lia.
    pose proof (IH (seen ++ [c]) (pre ++ one_hot k c)) as IH'.
    rewrite (length_app seen [c]), Nat.add_1_r in IH'.
    rewrite <- !app_assoc in IH'. unfold one_hot in *.
    cbn [flat_map]. unfold one_hot. apply IH'.
    + exact Hl.
    + rewrite length_app, length_insert, length_replicate. simpl. lia.
    + done.
Qed.

Lemma binary_masks_spec labels k :
  Forall (fun c => c < k) labels ->
  binary_masks labels (np_zeros [length labels; k])
  = Ok (Nd [length labels; k] (flat_map (one_hot k) labels)).
Proof.
  intros Hk. unfold binary_masks, np_zeros, np_full. simpl size.
  rewrite Nat.mul_1_r.
  exact (binary_masks_from labels k (length labels) [] [] labels
           eq_refl eq_refl eq_refl Hk).
Qed.

(** Adding along the last axis of a 3-d array: every cell is a contiguous
    run. *)
Lemma np_sum_axis_last T F k (d : list A) :
  np_sum_axis (Nd [T; F; k] d) 2
  = Ok (Nd [T; F] (map np_add_reduce (chunks k (T * F) d))).
Proof.
  unfold np_sum_axis. cbn [shape data drop take app].
  change (size [T; F]) with (T * (F * 1)). change (size []) with 1.
  rewrite !Nat.mul_1_r. f_equal.
Qed.
End BinaryMasks.

(** ** [get_cluster_masks] *)

Section ClusterMasks.
Context {A : Type} `{Float64 A} `{NumLib A} `{KMeansLib A}.

(** C7: [get_cluster_masks] is deterministic. The only state a run can read
    is numpy's global random generator; whatever that state is, two runs on
    the same [vectors], [num_sources] and [binary_mask] return the same
    result, and the run leaves the generator as it found it: the k-means fit
    draws from a generator of its own, seeded with 0. *)
Theorem get_cluster_masks_deterministic vectors num_sources binary_mask g1 g2 :
  fst (get_cluster_masks vectors num_sources binary_mask g1)
  = fst (get_cluster_masks vectors num_sources binary_mask g2)
  /\ snd (get_cluster_masks vectors num_sources binary_mask g1) = g1.
Proof.
  unfold get_cluster_masks, KMeans_fit.
  destruct (shape vectors) as [|B [|T [|F [|E s]]]]; try done.
  destruct (index0 vectors ≫= _) as [X|e]; done.
Qed.

(** C9: only the first batch element of [vectors] is used. Two arrays of
    the same shape with the same [vectors[0]] give the same masks, in both
    modes. *)
Theorem get_cluster_masks_first_batch v1 v2 num_sources binary_mask g :
  shape v1 = shape v2 ->
  index0 v1 = index0 v2 ->
  get_cluster_masks v1 num_sources binary_mask g
  = get_cluster_masks v2 num_sources binary_mask g.
Proof.
  intros Hshape Hfirst. unfold get_cluster_masks. by rewrite Hshape, Hfirst.
Qed.

Lemma size_3 T F E : size [T; F; E] = T * F * E.
Proof. simpl. lia. Qed.

Lemma size_2 n e : size [n; e] = n * e.
Proof. simpl. lia. Qed.

Lemma index0_Ok (a : ndarray A) B s :
  shape a = B :: s -> 0 < B ->
  index0 a = Ok (Nd s (take (size s) (data a))).
Proof.
  intros Hs HB. unfold index0. rewrite Hs. rewrite decide_False by lia. done.
Qed.

Lemma np_reshape_Ok (a : ndarray A) s :
  size s = size (shape a) -> np_reshape a s = Ok (Nd s (data a)).
Proof. intros Hs. unfold np_reshape. by rewrite decide_True. Qed.

(** The rows handed to k-means are the cells of the first batch element. *)
Lemma clustering_input (vectors : ndarray A) B T F E :
  shape vectors = [B; T; F; E] -> 0 < B ->
  (v0 ← index0 vectors; np_reshape v0 [T * F; E])
  = Ok (Nd [T * F; E] (take (T * F * E) (data vectors))).
Proof.
  intros Hs HB. rewrite (index0_Ok _ _ _ Hs HB).
  cbn [mbind Res_bind]. rewrite np_reshape_Ok.
  - by rewrite size_3.
  - simpl. lia.
Qed.

Lemma wf_clustering_input (vectors : ndarray A) B T F E :
  shape vectors = [B; T; F; E] -> wf vectors -> 0 < B ->
  wf (Nd [T * F; E] (take (T * F * E) (data vectors))).
Proof.
  unfold wf. intros -> Hwf HB. simpl in *. rewrite length_take. nia.
Qed.

Context `{!KMeansSound A}.

Lemma get_cluster_masks_binary vectors B T F E k g fit rs' :
  shape vectors = [B; T; F; E] -> wf vectors -> 0 < B ->
  k_means k (RandomState_of_seed 0)
          (Nd [T * F; E] (take (T * F * E) (data vectors))) = (Ok fit, rs') ->
  get_cluster_masks vectors k true g
  = (Ok (Nd [T; F; k] (flat_map (one_hot k) (labels_ fit))), g).
Proof.
  intros Hs Hwf HB Hfit.
  destruct (k_means_sound k _ _ (Nd [T * F; E] (take (T * F * E) (data vectors)))
              (T * F) E _ eq_refl
              (wf_clustering_input _ _ _ _ _ Hs Hwf HB) Hfit)
    as (_ & Hlen & Hlab & _).
  unfold get_cluster_masks. rewrite Hs.
  rewrite (clustering_input _ _ _ _ _ Hs HB).
  unfold KMeans_fit. rewrite Hfit. cbn [fst mbind Res_bind].
  rewrite <- Hlen at 1. rewrite binary_masks_spec by done.
  cbn [mbind Res_bind]. rewrite np_reshape_Ok; [done |].
  simpl. lia.
Qed.
End ClusterMasks.

(** *** Hard masks partition the time-frequency plane *)

Section Partition.
Context `{NumLib B64.t} `{KMeansLib B64.t} `{!KMeansSound B64.t}.



End Partition.

(** ** Broadcasting and slicing *)

Section Broadcast.
Context {A : Type}.

Lemma flat_map_fixed (f : list A -> list A) (xs : list (list A)) :
  Forall (fun x => f x = x) xs -> flat_map f xs = concat xs.
Proof.
  induction 1 as [|x xs Hx _ IH]; [done |]. simpl. by rewrite Hx, IH.
Qed.

Lemma broadcast_to_same (s : list nat) (l : list A) :
  length l = size s -> broadcast_to s s l = l.
Proof.
  revert l. induction s as [|d s IH]; intros l Hl; [done |].
  simpl in *. rewrite decide_True by done.
  rewrite flat_map_fixed.
  - apply concat_chunks. lia.
  - eapply Forall_impl; [apply (Forall_length_chunks (size s) d l); lia |].
    intros c Hc. by apply IH.
Qed.

Lemma broadcast_dim_same d : broadcast_dim d d = Some d.
Proof. unfold broadcast_dim. by rewrite decide_True. Qed.

Lemma broadcast_shapes_same s : broadcast_shapes s s = Some s.
Proof.
  induction s as [|d s IH]; [done |]. simpl.
  rewrite broadcast_dim_same. simpl. by rewrite IH.
Qed.

Lemma pad_shape_same (s : list nat) : pad_shape (length s) s = s.
Proof. unfold pad_shape. by rewrite Nat.sub_diag. Qed.
End Broadcast.

Lemma np_binop_same_shape {A B C} (f : A -> B -> C) (a : ndarray A)
    (b : ndarray B) :
  shape a = shape b -> wf a -> wf b ->
  np_binop f a b = Ok (Nd (shape a) (zip_with f (data a) (data b))).
Proof.
  intros Hs Ha Hb. unfold np_binop. rewrite <- Hs, Nat.max_id.
  rewrite pad_shape_same, broadcast_shapes_same.
  rewrite !broadcast_to_same; [done | by rewrite Hs | done].
Qed.

Section Slices.
Context {A : Type}.

Lemma slice_axis2_3d T F k (d : list A) i :
  i < k ->
  slice_axis2 (Nd [T; F; k] d) i
  = Ok (Nd [T; F] (flat_map (fun blk => take 1 (drop i blk))
                            (chunks k (T * F) d))).
Proof.
  intros Hi. unfold slice_axis2. simpl. rewrite decide_True by done.
  by rewrite !Nat.mul_1_r.
Qed.

Lemma take_1_drop (l : list A) i x :
  l !! i = Some x -> take 1 (drop i l) = [x].
Proof. intros Hx. by rewrite (drop_S _ _ _ Hx). Qed.

(** The [i]th column of [n] rows of [k] items. *)
Lemma column_lookup k n (d : list A) i p :
  n * k <= length d -> i < k -> p < n ->
  flat_map (fun blk => take 1 (drop i blk)) (chunks k n d) !! p
  = d !! (p * k + i).
Proof.
  revert d p. induction n as [|n IH]; intros d p Hd Hi Hp; [lia |].
  rewrite chunks_S. simpl flat_map. simpl in Hd.
  destruct (lookup_lt_is_Some_2 d i) as [x Hx]; [lia |].
  rewrite (take_1_drop (take k d) i x) by (by rewrite lookup_take_lt).
  destruct p as [|p]; simpl.
  - done.
  - rewrite IH; [| rewrite length_drop; lia | done | lia].
    rewrite lookup_drop. f_equal. lia.
Qed.

Lemma column_length k n (d : list A) i :
  n * k <= length d -> i < k ->
  length (flat_map (fun blk => take 1 (drop i blk)) (chunks k n d)) = n.
Proof.
  intros Hd Hi.
  rewrite (length_flat_map_const _ 1).
  - rewrite length_chunks. lia.
  - eapply Forall_impl; [by apply Forall_length_chunks |].
    intros c Hc. simpl in *. rewrite length_take, length_drop. lia.
Qed.
End Slices.

(** ** [apply_masks] *)

Section ApplyMasks.
Context {A : Type} `{Float64 A}.

(** The masked spectrogram of source [i]. *)
Lemma apply_masks_closed_form (spectrogram : ndarray (complex A))
    (masks : ndarray A) T F k :
  shape spectrogram = [T; F] -> wf spectrogram ->
  shape masks = [T; F; k] -> wf masks ->
  apply_masks spectrogram masks
  = Ok (map (fun i =>
               Nd [T; F]
                  (zip_with mask_mul
                     (flat_map (fun blk => take 1 (drop i blk))
                               (chunks k (T * F) (data masks)))
                     (data spectrogram)))
            (seq 0 k)).
Proof.
  intros HS HwS HM HwM. unfold apply_masks. rewrite HM. simpl.
  apply mapM_Ok_intro. apply Forall_forall. intros i Hi.
  apply list_elem_of_In, in_seq in Hi.
  destruct masks as [sM dM]. simpl in *. subst sM.
  rewrite slice_axis2_3d by lia. cbn [mbind Res_bind].
  unfold wf in *. simpl in *.
  rewrite np_binop_same_shape.
  - done.
  - by rewrite HS.
  - unfold wf. simpl. rewrite column_length; lia.
  - done.
Qed.

(** One pass of the loop, on values. *)
Lemma masked_slice (spectrogram : ndarray (complex A)) (masks : ndarray A)
    T F k i :
  shape spectrogram = [T; F] -> wf spectrogram ->
  shape masks = [T; F; k] -> wf masks -> i < k ->
  (m ← slice_axis2 masks i; np_binop mask_mul m spectrogram)
  = Ok (Nd [T; F]
           (zip_with mask_mul
              (flat_map (fun blk => take 1 (drop i blk))
                        (chunks k (T * F) (data masks)))
              (data spectrogram))).
Proof.
  intros HS HwS HM HwM Hi.
  destruct masks as [sM dM]. simpl in *. subst sM.
  rewrite slice_axis2_3d by lia. cbn [mbind Res_bind].
  unfold wf in *. simpl in *.
  rewrite np_binop_same_shape.
  - done.
  - by rewrite HS.
  - unfold wf. simpl. rewrite column_length; lia.
  - done.
Qed.

(** The loop on references: the heap grows by one object per pass, and
    nothing that was in it changes. *)
Lemma apply_masks_loop (h ext : heap A) (S_ref M_ref : nat)
    (spectrogram : ndarray (complex A)) (masks : ndarray A)
    (out : nat -> ndarray (complex A)) (indices : list nat) :
  h !! S_ref = Some (Complex128Array spectrogram) ->
  h !! M_ref = Some (Float64Array masks) ->
  Forall (fun i => (m ← slice_axis2 masks i;
                    np_binop mask_mul m spectrogram) = Ok (out i)) indices ->
  mapM (fun i =>
          M ← py_float64 M_ref;
          m ← py_pure (slice_axis2 M i);
          S ← py_complex128 S_ref;
          product ← py_pure (np_binop mask_mul m S);
          py_new (Complex128Array product))
       indices (h ++ ext)
  = Some (Ok (seq (length (h ++ ext)) (length indices)),
          (h ++ ext) ++ map (fun i => Complex128Array (out i)) indices).
Proof.
  intros HS HM Hout. revert ext.
  induction Hout as [|i indices Hi _ IH]; intros ext.
  - cbn [mapM map length seq]. by rewrite app_nil_r.
  - cbn [mapM map length seq].
    unfold mbind at 1, Py_bind. unfold mbind at 1, Py_bind.
    unfold py_float64 at 1.
    rewrite (lookup_app_l_Some _ _ _ _ HM).
    unfold mbind at 1, Py_bind. unfold py_pure at 1.
    apply bind_Ok in Hi as Hi'. destruct Hi' as (m & Hm & Hprod).
    rewrite Hm.
    unfold mbind at 1, Py_bind. unfold py_complex128 at 1.
    rewrite (lookup_app_l_Some _ _ _ _ HS).
    unfold mbind at 1, Py_bind. unfold py_pure at 1. rewrite Hprod.
    unfold py_new at 1.
    unfold mbind at 1, Py_bind.
    rewrite <- app_assoc, IH.
    unfold mret, Py_ret. rewrite !length_app. simpl.
    rewrite <- !app_assoc. simpl.
    by replace (length h + (length ext + 1))
      with (S (length h + length ext)) by lia.
Qed.

(** C8: [apply_masks] returns one spectrogram per source, in source order,
    and the [i]th one is the item-wise product of mask slice [i] and the
    input: its item at (t, f) is the complex product of the mask item
    [masks[t, f, i]], promoted to [masks[t, f, i] + 0j], and
    [spectrogram[t, f]]. Called on references to the two arrays, it returns
    references to [num_sources] new objects and leaves every object that was
    on the heap, the spectrogram and the masks among them, as it was. *)
Theorem apply_masks_spec (h : heap A) (S_ref M_ref : nat)
    (spectrogram : ndarray (complex A)) (masks : ndarray A) T F k :
  h !! S_ref = Some (Complex128Array spectrogram) ->
  h !! M_ref = Some (Float64Array masks) ->
  shape spectrogram = [T; F] -> wf spectrogram ->
  shape masks = [T; F; k] -> wf masks ->
  exists outs,
    apply_masks spectrogram masks = Ok outs /\
    apply_masks_on S_ref M_ref h
    = Some (Ok (seq (length h) k), h ++ map Complex128Array outs) /\
    length outs = k /\
    forall i, i < k ->
      exists o, outs !! i = Some o /\ shape o = [T; F] /\ wf o /\
        forall t f, t < T -> f < F ->
          exists m z,
            item masks [t; f; i] = Some m /\ item spectrogram [t; f] = Some z /\
            item o [t; f]
            = Some (Cx (fsub (fmul m (re z)) (fmul fzero (im z)))
                       (fadd (fmul m (im z)) (fmul fzero (re z)))).
Proof.
  intros HhS HhM HS HwS HM HwM. eexists.
  split; [by eapply apply_masks_closed_form |]. split.
  { unfold apply_masks_on.
    unfold mbind at 1, Py_bind. unfold py_float64 at 1. rewrite HhM.
    unfold mbind at 1, Py_bind. unfold py_pure at 1. rewrite HM.
    cbn [lookup list_lookup from_option].
    pose proof (apply_masks_loop h [] S_ref M_ref spectrogram masks
                  (fun i =>
                     Nd [T; F]
                        (zip_with mask_mul
                           (flat_map (fun blk => take 1 (drop i blk))
                                     (chunks k (T * F) (data masks)))
                           (data spectrogram)))
                  (seq 0 k) HhS HhM) as Hloop.
    rewrite !app_nil_r, length_seq in Hloop. rewrite map_map.
    apply Hloop. apply Forall_forall. intros i Hi.
    apply list_elem_of_In, in_seq in Hi.
    apply (masked_slice spectrogram masks T F k i); (done || lia). }
  split; [by rewrite length_map, length_seq |].
  intros i Hi. eexists. split.
  { rewrite list_lookup_fmap, lookup_seq_lt by done. reflexivity. }
  unfold wf in *. rewrite HS, HM in *. simpl in HwS, HwM.
  assert (Hcol : length (flat_map (fun blk => take 1 (drop i blk))
                          (chunks k (T * F) (data masks))) = T * F)
    by (apply column_length; lia).
  split; [done |]. split.
  { simpl. rewrite length_zip_with. lia. }
  intros t f Ht Hf.
  assert (Hp : t * F + f < T * F) by nia.
  destruct (lookup_lt_is_Some_2 (data masks) ((t * F + f) * k + i)) as [m Hm];
    [nia |].
  destruct (lookup_lt_is_Some_2 (data spectrogram) (t * F + f)) as [z Hz];
    [lia |].
  exists m, z. unfold item. rewrite HS, HM. simpl.
  rewrite !decide_True by done. simpl.
  replace (t * (F * (k * 1)) + (f * (k * 1) + (i * 1 + 0)))
    with ((t * F + f) * k + i) by lia.
  replace (t * (F * 1) + (f * 1 + 0)) with (t * F + f) by lia.
  split; [done |]. split; [done |].
  rewrite lookup_zip_with, column_lookup by (done || lia).
  by rewrite Hm, Hz.
Qed.
End ApplyMasks.

(** ** Transposition *)

Section Transpose.
Context {A : Type}.
Implicit Types (l : list A) (rows : list (list A)).

Lemma transpose2_columns r c l :
  transpose2 r c l = concat (columns c (chunks c r l)).
Proof. unfold transpose2, columns. apply flat_map_concat_map. Qed.

Lemma chunks_concat c rows :
  Forall (fun row => length row = c) rows ->
  chunks c (length rows) (concat rows) = rows.
Proof.
  intros Hrows.
  pose proof (chunks_flat_map_nil (fun row => row) c rows Hrows) as E.
  by rewrite flat_map_concat_map, !map_id in E.
Qed.

Lemma length_columns c rows : length (columns c rows) = c.
Proof. unfold columns. by rewrite length_map, length_seq. Qed.

Lemma Forall_length_columns c rows :
  Forall (fun row => length row = c) rows ->
  Forall (fun col => length col = length rows) (columns c rows).
Proof.
  intros Hrows. unfold columns. apply Forall_map, Forall_forall.
  intros j Hj. apply list_elem_of_In, in_seq in Hj.
  rewrite (length_flat_map_const _ 1); [lia |].
  eapply Forall_impl; [exact Hrows |].
  intros row Hrow. simpl in *. rewrite length_take, length_drop. lia.
Qed.

(** The first column holds the rows' heads; the others are the columns of
    the rows' tails. *)
Lemma columns_S c rows :
  columns (S c) rows
  = flat_map (take 1) rows :: columns c (map (drop 1) rows).
Proof.
  unfold columns. simpl seq. rewrite <- seq_shift. cbn [map].
  f_equal. rewrite map_map. apply map_ext. intros j.
  rewrite flat_map_map.
  apply flat_map_ext. intros row. by rewrite drop_drop.
Qed.

Lemma rev_axes_1d n l : length l = n -> rev_axes [n] l = l.
Proof.
  intros Hl. cbn [rev_axes]. change (size []) with 1.
  rewrite (flat_map_fixed (rev_axes [])) by (apply Forall_forall; done).
  rewrite concat_chunks by lia.
  rewrite transpose2_columns. unfold columns. cbn [seq map concat].
  rewrite app_nil_r.
  rewrite (flat_map_fixed (fun row => take 1 (drop 0 row))).
  - apply concat_chunks. lia.
  - eapply Forall_impl; [apply (Forall_length_chunks 1 n l); lia |].
    intros c Hc. simpl in *. apply take_ge. lia.
Qed.

Lemma rev_axes_cons d s l :
  rev_axes (d :: s) l
  = transpose2 d (size s) (flat_map (rev_axes s) (chunks (size s) d l)).
Proof. reflexivity. Qed.

(** [a.T] of a 2-d array. *)
Lemma np_T_2d r c l :
  length l = r * c ->
  np_T (Nd [r; c] l) = Nd [c; r] (transpose2 r c l).
Proof.
  intros Hl. unfold np_T. cbn [shape data]. f_equal.
  rewrite rev_axes_cons. change (size [c]) with (c * 1).
  rewrite Nat.mul_1_r. f_equal.
  rewrite (flat_map_fixed (rev_axes [c])).
  - apply concat_chunks. lia.
  - eapply Forall_impl; [apply (Forall_length_chunks c r l); lia |].
    intros row Hrow. by apply rev_axes_1d.
Qed.

Lemma length_transpose2 r c l :
  length l = r * c -> length (transpose2 r c l) = c * r.
Proof.
  intros Hl. rewrite transpose2_columns.
  pose proof (Forall_length_columns c (chunks c r l)) as Hcols.
  rewrite length_chunks in Hcols.
  rewrite (length_concat_const r), length_columns; [done |].
  apply Hcols, Forall_length_chunks. lia.
Qed.
End Transpose.

(** ** The soft branch of [get_cluster_masks] *)

Section Repeat.
Context {A : Type}.
Implicit Types (l : list A).

Lemma flat_map_Forall_ext {B} (f g : B -> list A) (xs : list B) :
  Forall (fun x => f x = g x) xs -> flat_map f xs = flat_map g xs.
Proof.
  induction 1 as [|x xs Hx _ IH]; [done |]. simpl. by rewrite Hx, IH.
Qed.

Lemma flat_map_concat {B} (g : B -> list A) (xs : list (list B)) :
  flat_map g (concat xs) = flat_map (flat_map g) xs.
Proof.
  induction xs as [|x xs IH]; [done |].
  simpl. by rewrite flat_map_app, IH.
Qed.

Lemma flat_map_const {B} (xs : list B) l :
  flat_map (fun _ => l) xs = concat (replicate (length xs) l).
Proof. induction xs as [|x xs IH]; [done |]. simpl. by rewrite IH. Qed.

Lemma flat_map_singleton (x : A) a n :
  flat_map (fun _ => [x]) (seq a n) = replicate n x.
Proof.
  rewrite flat_map_const, length_seq.
  induction n as [|n IH]; [done |]. simpl. by rewrite IH.
Qed.

Lemma concat_replicate_mul T F l :
  concat (replicate T (concat (replicate F l)))
  = concat (replicate (T * F) l).
Proof.
  induction T as [|T IH]; [done |].
  simpl. by rewrite IH, replicate_add, concat_app.
Qed.

Lemma size_app (s t : list nat) : size (s ++ t) = size s * size t.
Proof.
  induction s as [|d s IH]; simpl; [lia |]. rewrite IH. lia.
Qed.

Lemma broadcast_dim_1_l n : broadcast_dim 1 n = Some n.
Proof.
  unfold broadcast_dim. destruct (decide (1 = n)) as [<-|]; [done |].
  by rewrite decide_True.
Qed.

Lemma broadcast_dim_1_r n : broadcast_dim n 1 = Some n.
Proof.
  unfold broadcast_dim. destruct (decide (n = 1)) as [->|]; [done |].
  by rewrite decide_True.
Qed.

(** A leading axis of length 1 repeats the array. *)
Lemma broadcast_to_lead1 s s' T l :
  length l = size s ->
  broadcast_to (1 :: s) (T :: s') l
  = flat_map (fun _ => broadcast_to s s' l) (seq 0 T).
Proof.
  intros Hl. simpl. destruct (decide (1 = T)) as [<-|]; [| done].
  simpl. by rewrite take_ge by lia.
Qed.

(** A last axis of length 1 repeats every item. *)
Lemma broadcast_to_last1 s k l :
  length l = size s ->
  broadcast_to (s ++ [1]) (s ++ [k]) l = flat_map (replicate k) l.
Proof.
  revert l. induction s as [|d s IH]; intros l Hl.
  - destruct l as [|x [|]]; try done. simpl.
    destruct (decide (1 = k)) as [<-|]; [done |].
    by rewrite flat_map_singleton, app_nil_r.
  - simpl in *. rewrite decide_True by done.
    rewrite size_app. simpl. rewrite Nat.mul_1_r.
    rewrite (flat_map_Forall_ext _ (flat_map (replicate k))).
    + rewrite <- flat_map_concat, concat_chunks; [done | lia].
    + eapply Forall_impl; [apply (Forall_length_chunks (size s) d l); lia |].
      intros c Hc. by apply IH.
Qed.

Lemma zip_with_flat_map {B C X} (h : A -> B -> C) (f : X -> list A)
    (g : X -> list B) (xs : list X) :
  Forall (fun x => length (f x) = length (g x)) xs ->
  zip_with h (flat_map f xs) (flat_map g xs)
  = flat_map (fun x => zip_with h (f x) (g x)) xs.
Proof.
  induction 1 as [|x xs Hx _ IH]; [done |].
  simpl. by rewrite zip_with_app, IH.
Qed.
End Repeat.

(** ** Items of arrays built from pieces *)

Section Pieces.
Context {A : Type}.

(** The item at position [i] of piece [p], all pieces having [m] items. *)
Lemma lookup_flat_map_const {B} (f : B -> list A) m (xs : list B) p i x :
  Forall (fun x => length (f x) = m) xs ->
  xs !! p = Some x -> i < m ->
  flat_map f xs !! (p * m + i) = f x !! i.
Proof.
  intros Hxs. revert p. induction Hxs as [|y xs Hy _ IH]; intros p Hp Hi.
  - done.
  - simpl. destruct p as [|p]; simpl in Hp.
    + injection Hp as ->. simpl. apply lookup_app_l. lia.
    + rewrite lookup_app_r by (simpl in *; lia).
      replace (S p * m + i - length (f y)) with (p * m + i)
        by (simpl in *; lia).
      by apply IH.
Qed.

Lemma transpose2_lookup r c (l : list A) i j :
  length l = r * c -> i < r -> j < c ->
  transpose2 r c l !! (j * r + i) = l !! (i * c + j).
Proof.
  intros Hl Hi Hj. unfold transpose2.
  rewrite (lookup_flat_map_const _ r _ j i j).
  - apply column_lookup; lia.
  - apply Forall_forall. intros j' Hj'.
    apply list_elem_of_In, in_seq in Hj'. apply column_length; lia.
  - by apply lookup_seq_lt.
  - done.
Qed.
End Pieces.

Section SoftMasks.
Context {A : Type} `{Float64 A} `{NumLib A}.
Implicit Types (v cell : list A) (rows : list (list A)).

Lemma zip_with_nil_r {B C} (f : A -> B -> C) (l : list A) :
  zip_with f l [] = [].
Proof. by destruct l. Qed.

Lemma zip_with_replicate_r_map {B C} (f : A -> B -> C) (l : list A) y :
  zip_with f l (replicate (length l) y) = map (fun x => f x y) l.
Proof. induction l as [|x l IH]; [done |]. simpl. by rewrite IH. Qed.

Lemma zip_with_replicate_l_map {X Y Z} (f : X -> Y -> Z) (l : list Y) x :
  zip_with f (replicate (length l) x) l = map (f x) l.
Proof. induction l as [|y l IH]; [done |]. simpl. by rewrite IH. Qed.

Lemma zip_with_concat {B C} (h : A -> B -> C) (xs : list (list A))
    (ys : list (list B)) :
  Forall2 (fun x y => length x = length y) xs ys ->
  zip_with h (concat xs) (concat ys) = concat (zip_with (zip_with h) xs ys).
Proof.
  induction 1 as [|x y xs ys Hxy _ IH]; [done |].
  simpl. by rewrite zip_with_app, IH.
Qed.

(** Dot products with an empty vector leave the accumulators alone. *)
Lemma fold_rows_nil (accs : list A) rows :
  length accs = length rows ->
  zip_with (fun acc r => fold_left fadd (zip_with fmul r []) acc) accs rows
  = accs.
Proof.
  revert rows. induction accs as [|a accs IH]; intros [|r rows] Hlen;
    try done.
  simpl in *. rewrite zip_with_nil_r. simpl. f_equal. apply IH. lia.
Qed.

(** Taking the first item of the vector into the accumulators. *)
Lemma fold_rows_cons x v (accs : list A) rows :
  Forall (fun r => length r = S (length v)) rows ->
  length accs = length rows ->
  zip_with (fun acc r => fold_left fadd (zip_with fmul r v) acc)
           (zip_with fadd accs
                     (map (fun c => fmul c x) (flat_map (take 1) rows)))
           (map (drop 1) rows)
  = zip_with (fun acc r => fold_left fadd (zip_with fmul r (x :: v)) acc)
             accs rows.
Proof.
  intros Hrows. revert accs.
  induction Hrows as [|r rows Hr _ IH]; intros [|a accs] Hlen; try done.
  destruct r as [|h t]; [done |].
  simpl in *. f_equal. apply IH. lia.
Qed.

Lemma length_heads n rows :
  Forall (fun r => length r = S n) rows ->
  length (flat_map (take 1) rows) = length rows.
Proof.
  intros Hrows. rewrite (length_flat_map_const _ 1); [lia |].
  eapply Forall_impl; [exact Hrows |].
  intros r Hr. simpl in *. rewrite length_take. lia.
Qed.

(** Adding up the columns scaled by the items of [v] computes the dot
    product of every row with [v]. *)
Lemma fold_columns v rows (accs : list A) :
  Forall (fun r => length r = length v) rows ->
  length accs = length rows ->
  fold_left (zip_with fadd)
            (zip_with (fun col x => map (fun c => fmul c x) col)
                      (columns (length v) rows) v)
            accs
  = zip_with (fun acc r => fold_left fadd (zip_with fmul r v) acc) accs rows.
Proof.
  revert rows accs. induction v as [|x v IH]; intros rows accs Hrows Hlen.
  - simpl. by rewrite fold_rows_nil.
  - simpl length. rewrite columns_S. simpl.
    rewrite IH.
    + by apply fold_rows_cons.
    + apply Forall_map. eapply Forall_impl; [exact Hrows |].
      intros r Hr. simpl in *. rewrite length_drop. lia.
    + rewrite length_zip_with, !length_map, (length_heads (length v)) by done.
      lia.
Qed.

Lemma scaled_columns k (cols : list (list A)) cell :
  Forall (fun col => length col = k) cols ->
  zip_with (zip_with fmul) cols (map (replicate k) cell)
  = zip_with (fun col x => map (fun c => fmul c x) col) cols cell.
Proof.
  intros Hcols. revert cell.
  induction Hcols as [|col cols Hcol _ IH]; intros [|x cell]; try done.
  simpl. by rewrite IH, <- Hcol, zip_with_replicate_r_map.
Qed.

Lemma Forall2_length_replicate k (cols : list (list A)) cell :
  Forall (fun col => length col = k) cols ->
  length cols = length cell ->
  Forall2 (fun x y => length x = length y) cols (map (replicate k) cell).
Proof.
  intros Hcols. revert cell.
  induction Hcols as [|col cols Hcol _ IH]; intros [|x cell] Hlen;
    simpl in *; try lia; constructor.
  - by rewrite length_replicate.
  - apply IH. lia.
Qed.

Lemma Forall_length_scaled k (cols : list (list A)) cell :
  Forall (fun col => length col = k) cols ->
  Forall (fun b => length b = k)
         (zip_with (fun col x => map (fun c => fmul c x) col) cols cell).
Proof.
  intros Hcols. revert cell.
  induction Hcols as [|col cols Hcol _ IH]; intros [|x cell];
    try constructor.
  - by rewrite length_map.
  - apply IH.
Qed.

(** One cell of the soft masks: the products with the transposed centers,
    added up along the embedding axis. *)
Lemma soft_cell k (c : list A) cell :
  length c = k * length cell ->
  fold_left (zip_with fadd)
            (chunks k (length cell)
                    (zip_with fmul (transpose2 k (length cell) c)
                              (flat_map (replicate k) cell)))
            (replicate k fzero)
  = map (fun center => dot center cell) (chunks (length cell) k c).
Proof.
  intros Hc.
  pose proof (Forall_length_chunks (length cell) k c) as Hrows.
  pose proof (Forall_length_columns (length cell) (chunks (length cell) k c))
    as Hcols.
  rewrite length_chunks in Hcols.
  specialize (Hrows ltac:(lia)). specialize (Hcols Hrows).
  pose proof (length_columns (length cell) (chunks (length cell) k c))
    as Hncols.
  rewrite transpose2_columns, (flat_map_concat_map (replicate k)).
  rewrite zip_with_concat by (by apply Forall2_length_replicate).
  rewrite scaled_columns by done.
  pose proof (chunks_concat k _ (Forall_length_scaled k _ cell Hcols)) as Hch.
  rewrite length_zip_with, Hncols, Nat.min_id in Hch. rewrite Hch.
  rewrite fold_columns by (done || by rewrite length_replicate, length_chunks).
  pose proof (zip_with_replicate_l_map
                (fun acc r => fold_left fadd (zip_with fmul r cell) acc)
                (chunks (length cell) k c) fzero) as Hz.
  rewrite length_chunks in Hz. exact Hz.
Qed.
End SoftMasks.

Section SoftBranch.
Context {A : Type} `{Float64 A} `{NumLib A}.

(** The product of the centers, seen as (1, 1, E, k), and of the embeddings,
    seen as (T, F, E, 1). *)
Lemma np_binop_soft (f : A -> A -> A) k E T F (cT v : list A) :
  length cT = E * k -> length v = T * F * E ->
  np_binop f (Nd [1; 1; E; k] cT) (Nd [T; F; E; 1] v)
  = Ok (Nd [T; F; E; k]
           (zip_with f (concat (replicate (T * F) cT))
                     (flat_map (replicate k) v))).
Proof.
  intros HcT Hv. unfold np_binop. cbn [shape data length Nat.max].
  unfold pad_shape. cbn [length Nat.sub replicate app broadcast_shapes].
  rewrite !broadcast_dim_1_l, broadcast_dim_same, broadcast_dim_1_r.
  cbn [mbind option_bind]. do 3 f_equal.
  - rewrite broadcast_to_lead1 by (simpl; lia).
    rewrite (flat_map_Forall_ext _ (fun _ => concat (replicate F cT))).
    + by rewrite flat_map_const, length_seq, concat_replicate_mul.
    + apply Forall_forall. intros _ _.
      rewrite broadcast_to_lead1 by (simpl; lia).
      rewrite broadcast_to_same by (simpl; lia).
      by rewrite flat_map_const, length_seq.
  - change [T; F; E; 1] with ([T; F; E] ++ [1]).
    change [T; F; E; k] with ([T; F; E] ++ [k]).
    apply broadcast_to_last1. simpl. lia.
Qed.

Lemma map_flat_map {X Y Z} (g : Y -> Z) (f : X -> list Y) (xs : list X) :
  map g (flat_map f xs) = flat_map (fun x => map g (f x)) xs.
Proof.
  induction xs as [|x xs IH]; [done |]. simpl. by rewrite map_app, IH.
Qed.

Lemma np_expand_dims_Ok (s : list nat) (d : list A) axis :
  axis <= length s ->
  np_expand_dims (Nd s d) axis = Ok (Nd (take axis s ++ 1 :: drop axis s) d).
Proof. intros Ha. unfold np_expand_dims. simpl. by rewrite decide_True. Qed.

Lemma transpose2_one_row E (c : list A) :
  length c = E -> transpose2 1 E c = c.
Proof.
  intros Hc. apply (list_eq_same_length _ _ E); [done | |].
  - rewrite length_transpose2; lia.
  - intros j x y Hj Hx Hy.
    pose proof (transpose2_lookup 1 E c 0 j) as Hl.
    rewrite Nat.mul_1_r, Nat.add_0_r in Hl. simpl in Hl.
    rewrite Hl in Hx by lia. congruence.
Qed.

Lemma flat_map_replicate_1 (l : list A) : flat_map (replicate 1) l = l.
Proof. induction l as [|x l IH]; [done |]. simpl. f_equal. exact IH. Qed.

(** The sum over the embedding axis of a (T, F, E, k) array. *)
Lemma np_sum_axis_embedding T F E k (d : list A) :
  np_sum_axis (Nd [T; F; E; k] d) 2
  = Ok (Nd [T; F; k]
           (flat_map
              (fun blk =>
                 if decide (k = 1) then [np_add_reduce blk]
                 else fold_left (zip_with fadd) (chunks k E blk)
                                (replicate k fzero))
              (chunks (E * k) (T * F) d))).
Proof.
  unfold np_sum_axis. cbn [shape data drop take app].
  change (size [k]) with (k * 1).
  change (size [T; F]) with (T * (F * 1)). rewrite !Nat.mul_1_r.
  do 2 f_equal.
Qed.

Lemma soft_masks_closed_form k E T F (c v : list A) :
  length c = k * E -> length v = T * F * E ->
  soft_masks (Nd [k; E] c) (Nd [T; F; E] v)
  = Ok (Nd [T; F; k]
           (flat_map (fun cell =>
                        map (fun center => sigmoid (np_dot k center cell))
                            (chunks E k c))
                     (chunks E (T * F) v))).
Proof.
  intros Hc Hv. unfold soft_masks.
  rewrite np_T_2d by done.
  rewrite np_expand_dims_Ok by (simpl; lia). cbn [mbind Res_bind take drop app].
  rewrite np_expand_dims_Ok by (simpl; lia). cbn [mbind Res_bind take drop app].
  rewrite np_expand_dims_Ok by (simpl; lia). cbn [mbind Res_bind take drop app].
  rewrite np_binop_soft by (rewrite ?length_transpose2; lia).
  cbn [mbind Res_bind]. rewrite np_sum_axis_embedding.
  cbn [mbind Res_bind]. unfold np_map. cbn [shape data]. do 2 f_equal.
  pose proof (Forall_length_chunks E (T * F) v ltac:(lia)) as Hcells.
  pose proof (length_chunks E (T * F) v) as Hn.
  pose proof (concat_chunks E (T * F) v ltac:(lia)) as Hv'.
  set (cells := chunks E (T * F) v) in *.
  set (cT := transpose2 k E c).
  assert (HcT : length cT = E * k) by (by apply length_transpose2).
  assert (Hblk : Forall (fun cell =>
                   length (zip_with fmul cT (flat_map (replicate k) cell))
                   = E * k) cells).
  { eapply Forall_impl; [exact Hcells |]. intros cell Hcell. simpl in *.
    rewrite length_zip_with, (length_flat_map_const _ k).
    - lia.
    - apply Forall_forall. intros x _. apply length_replicate. }
  assert (Hzip : zip_with fmul (concat (replicate (T * F) cT))
                          (flat_map (replicate k) v)
                 = flat_map (fun cell =>
                               zip_with fmul cT (flat_map (replicate k) cell))
                            cells).
  { rewrite <- Hv', flat_map_concat, <- Hn, <- flat_map_const.
    apply zip_with_flat_map.
    eapply Forall_impl; [exact Hcells |]. intros cell Hcell. simpl in *.
    rewrite (length_flat_map_const _ k).
    - lia.
    - apply Forall_forall. intros x _. apply length_replicate. }
  rewrite Hzip, <- Hn, (chunks_flat_map_nil _ _ _ Hblk).
  rewrite flat_map_map, map_flat_map.
  apply flat_map_Forall_ext.
  eapply Forall_impl; [exact Hcells |]. intros cell Hcell. simpl in Hcell.
  unfold np_dot. destruct (decide (k = 1)) as [-> | Hk].
  - subst cT. rewrite transpose2_one_row by lia.
    rewrite flat_map_replicate_1, chunks_S. cbn [chunks reshape replicate map].
    by rewrite take_ge by lia.
  - subst cT E. rewrite soft_cell by done. by rewrite map_map.
Qed.
End SoftBranch.

Section ClusterMasksSoft.
Context {A : Type} `{Float64 A} `{NumLib A} `{KMeansLib A} `{!KMeansSound A}.

Lemma get_cluster_masks_soft (vectors : ndarray A) B T F E k g fit rs' :
  shape vectors = [B; T; F; E] -> wf vectors -> 0 < B ->
  k_means k (RandomState_of_seed 0)
          (Nd [T * F; E] (take (T * F * E) (data vectors))) = (Ok fit, rs') ->
  get_cluster_masks vectors k false g
  = (Ok (Nd [T; F; k]
            (flat_map (fun embedding =>
                         map (fun center => sigmoid (np_dot k center embedding))
                             (chunks E k (data (cluster_centers_ fit))))
                      (chunks E (T * F) (data vectors)))),
     g).
Proof.
  intros Hs Hwf HB Hfit.
  destruct (k_means_sound k _ _ (Nd [T * F; E] (take (T * F * E) (data vectors)))
              (T * F) E _ eq_refl
              (wf_clustering_input _ _ _ _ _ Hs Hwf HB) Hfit)
    as (_ & _ & _ & Hcs & Hcwf).
  unfold get_cluster_masks. rewrite Hs.
  rewrite (clustering_input _ _ _ _ _ Hs HB).
  unfold KMeans_fit. rewrite Hfit. cbn [fst mbind Res_bind].
  rewrite (index0_Ok _ _ _ Hs HB). cbn [mbind Res_bind].
  destruct (cluster_centers_ fit) as [cs c]. simpl in Hcs. subst cs.
  unfold wf in Hcwf, Hwf. rewrite Hs in Hwf. simpl in Hcwf, Hwf.
  rewrite size_3, soft_masks_closed_form.
  - by rewrite chunks_take.
  - lia.
  - rewrite length_take. nia.
Qed.


(** In both modes the masks have one item per cell and source. *)
Lemma get_cluster_masks_shape (vectors : ndarray A) B T F E k b g fit rs' :
  shape vectors = [B; T; F; E] -> wf vectors -> 0 < B ->
  k_means k (RandomState_of_seed 0)
          (Nd [T * F; E] (take (T * F * E) (data vectors))) = (Ok fit, rs') ->
  exists masks,
    get_cluster_masks vectors k b g = (Ok masks, g) /\
    shape masks = [T; F; k] /\ wf masks.
Proof.
  intros Hs Hwf HB Hfit.
  destruct (k_means_sound k _ _ (Nd [T * F; E] (take (T * F * E) (data vectors)))
              (T * F) E _ eq_refl
              (wf_clustering_input _ _ _ _ _ Hs Hwf HB) Hfit)
    as (_ & Hlen & _ & _ & _).
  destruct b; eexists.
  - split; [by eapply get_cluster_masks_binary |]. split; [done |].
    unfold wf. simpl. rewrite (length_flat_map_const _ k).
    + lia.
    + apply Forall_forall. intros c _. apply length_one_hot.
  - split; [by eapply get_cluster_masks_soft |]. split; [done |].
    unfold wf. simpl. rewrite (length_flat_map_const _ k).
    + rewrite length_chunks. lia.
    + apply Forall_forall. intros c _. by rewrite length_map, length_chunks.
Qed.
End ClusterMasksSoft.

(** *** Soft masks over the reals *)



Section SoftReal.
Context `{KMeansLib R} `{!KMeansSound R}.


End SoftReal.

(** ** [l41_clustering_separate] *)

Lemma np_stack_Ok {A} (arrays : list (ndarray A)) s :
  arrays <> [] ->
  Forall (fun b => shape b = s) arrays ->
  np_stack arrays = Ok (Nd (length arrays :: s) (flat_map data arrays)).
Proof.
  intros Hne Hs. destruct arrays as [|a arrays]; [done |].
  unfold np_stack. pose proof Hs as Hs'. apply Forall_cons in Hs' as [Ha _].
  rewrite decide_True; [by rewrite Ha |].
  eapply Forall_impl; [exact Hs |]. intros b Hb. simpl in *. congruence.
Qed.

Section L41.
Context {A : Type} `{Float64 A} `{NumLib A} `{KMeansLib A} `{!KMeansSound A}
        `{Model A}.
Variable preprocess_l41_batch : ndarray (complex A) -> ndarray A.

(** C4, as the code has it: for a spectrogram of shape (1, F, T) whose
    embedding vectors have shape (B, T, F, E), whenever the k-means fit
    succeeds, [l41_clustering_separate] returns an array of shape
    (num_sources, F, T), in both modes: the masked spectrograms are stacked
    as (num_sources, T, F) and the final transpose swaps the last two axes
    back to the input's (frequency, time) order. *)
Theorem l41_clustering_separate_shape (spec : ndarray (complex A))
    B T F E num_sources binary_mask g fit rs' :
  let vectors := get_vectors (preprocess_l41_batch spec) in
  shape spec = [1; F; T] -> wf spec ->
  shape vectors = [B; T; F; E] -> wf vectors -> 1 <= B ->
  k_means num_sources (RandomState_of_seed 0)
          (Nd [T * F; E] (take (T * F * E) (data vectors))) = (Ok fit, rs') ->
  exists sources,
    l41_clustering_separate preprocess_l41_batch spec num_sources binary_mask g
    = (Ok sources, g) /\
    shape sources = [num_sources; F; T].
Proof.
  intros vectors Hspec Hwspec Hs Hwf HB Hfit.
  destruct (k_means_sound num_sources _ _
              (Nd [T * F; E] (take (T * F * E) (data vectors)))
              (T * F) E _ eq_refl
              (wf_clustering_input _ _ _ _ _ Hs Hwf HB) Hfit)
    as (Hk & _).
  destruct (get_cluster_masks_shape vectors B T F E num_sources binary_mask g
              fit rs' Hs Hwf HB Hfit) as (masks & Hmasks & Hms & Hmwf).
  unfold l41_clustering_separate. fold vectors. rewrite Hmasks.
  cbn [mbind Res_bind].
  rewrite (index0_Ok spec 1 [F; T] Hspec) by lia. cbn [mbind Res_bind].
  unfold wf in Hwspec. rewrite Hspec in Hwspec. simpl in Hwspec.
  rewrite np_T_2d by (rewrite length_take; simpl; lia).
  rewrite (apply_masks_closed_form _ masks T F num_sources); try done.
  - cbn [mbind Res_bind].
    rewrite (np_stack_Ok _ [T; F]).
    + cbn [mbind Res_bind]. unfold transpose_021. cbn [shape].
      rewrite length_map, length_seq. eauto.
    + destruct num_sources; [lia | done].
    + apply Forall_map, Forall_forall. done.
  - unfold wf. cbn [shape data].
    rewrite length_transpose2; [simpl; lia | rewrite length_take; simpl; lia].
Qed.
End L41.

(** ** Binary64 arithmetic *)

Section Binary64.
Implicit Types (x y z : B64.t).

(** *** Division by zero *)

Lemma B64_div_zero x y :
  B64.is_zero y = true -> B64.isfinite (B64.div x y) = false.
Proof. destruct y; try done. by destruct x. Qed.

Lemma B64_div_zero_zero x y :
  B64.is_zero x = true -> B64.is_zero y = true -> B64.div x y = B64.nan.
Proof. by destruct x, y. Qed.

Lemma B64_div_nan_r x : B64.div x B64.nan = B64.nan.
Proof. by destruct x. Qed.

Lemma B64_div_nan_l y : B64.div B64.nan y = B64.nan.
Proof. done. Qed.

(** *** The order *)

Lemma SFleb_refl x : B64.isnan x = false -> SFleb x x = true.
Proof.
  unfold SFleb, SFcompare.
  destruct x as [[]|[]| |[] m e]; simpl; try done;
    intros _; by rewrite Z.compare_refl, ?Pos.compare_cont_refl.
Qed.

Lemma SFleb_total x y :
  B64.isnan x = false -> B64.isnan y = false ->
  SFleb x y = false -> SFleb y x = true.
Proof.
  unfold SFleb, SFcompare.
  destruct x as [[]|[]| |[] mx ex], y as [[]|[]| |[] my ey]; simpl;
    try done; intros _ _; compare_cases; simpl; done.
Qed.

Lemma SFleb_trans x y z :
  SFleb x y = true -> SFleb y z = true -> SFleb x z = true.
Proof.
  unfold SFleb, SFcompare.
  destruct x as [[]|[]| |[] mx ex], y as [[]|[]| |[] my ey],
           z as [[]|[]| |[] mz ez]; simpl; try done;
    intros Hxy Hyz; compare_cases; simpl in *; done.
Qed.

Lemma SFleb_antisym x y :
  SFleb x y = true -> SFleb y x = true -> SFeqb x y = true.
Proof.
  unfold SFleb, SFeqb, SFcompare.
  destruct x as [[]|[]| |[] mx ex], y as [[]|[]| |[] my ey]; simpl;
    try done; intros Hxy Hyx; compare_cases; simpl in *; done.
Qed.

Lemma SFeqb_leb x y : SFeqb x y = true -> SFleb x y = true.
Proof. unfold SFeqb, SFleb. by destruct (SFcompare x y) as [[]|]. Qed.

Lemma SFleb_not_nan x y :
  SFleb x y = true -> B64.isnan x = false /\ B64.isnan y = false.
Proof. by destruct x as [[]|[]| |[] ? ?], y as [[]|[]| |[] ? ?]. Qed.

(** Equal values have a zero or undefined difference. *)
Lemma B64_sub_eq x y :
  SFeqb x y = true ->
  B64.is_zero (B64.sub x y) = true \/ B64.sub x y = B64.nan.
Proof.
  unfold SFeqb, SFcompare.
  destruct x as [[]|[]| |[] mx ex], y as [[]|[]| |[] my ey]; simpl;
    try done; try (by left); try (by right);
    intros Hxy; compare_cases; simpl in *; try done; left;
    unfold B64.sub, SFsub, shl_align; rewrite Z.min_id, Z.sub_diag;
    cbn [fst cond_Zopp]; by rewrite ?Z.sub_diag.
Qed.
End Binary64.

(** ** Feature normalisation on a degenerate spectrogram *)

Section Degenerate.
Implicit Types (x y : B64.t) (l : list B64.t).

Lemma minimum_lower x y :
  B64.isnan (minimum x y) = false ->
  SFleb (minimum x y) x = true /\ SFleb (minimum x y) y = true.
Proof.
  unfold minimum. simpl.
  destruct (SFleb x y) eqn:Hxy; simpl.
  - intros Hx. split; [by apply SFleb_refl | done].
  - destruct (B64.isnan x) eqn:Hx; [congruence |]. intros Hy.
    split; [by apply SFleb_total | by apply SFleb_refl].
Qed.

Lemma maximum_upper x y :
  B64.isnan (maximum x y) = false ->
  SFleb x (maximum x y) = true /\ SFleb y (maximum x y) = true.
Proof.
  unfold maximum. simpl.
  destruct (SFleb y x) eqn:Hyx; simpl.
  - intros Hx. split; [by apply SFleb_refl | done].
  - destruct (B64.isnan x) eqn:Hx; [congruence |]. intros Hy.
    split; [by apply SFleb_total | by apply SFleb_refl].
Qed.

(** A minimum that is a number is below every item. *)
Lemma fold_minimum_lower l x :
  B64.isnan (fold_left minimum l x) = false ->
  Forall (fun y => SFleb (fold_left minimum l x) y = true) (x :: l).
Proof.
  revert x. induction l as [|a l IH]; intros x Hm; simpl in *.
  - constructor; [by apply SFleb_refl | constructor].
  - specialize (IH _ Hm). apply Forall_cons in IH as [Hx' Hl].
    destruct (minimum_lower x a) as [Hx Ha];
      [by apply SFleb_not_nan in Hx' as [_ ?] |].
    constructor; [by eapply SFleb_trans |].
    constructor; [by eapply SFleb_trans | done].
Qed.

Lemma fold_maximum_upper l x :
  B64.isnan (fold_left maximum l x) = false ->
  Forall (fun y => SFleb y (fold_left maximum l x) = true) (x :: l).
Proof.
  revert x. induction l as [|a l IH]; intros x Hm; simpl in *.
  - constructor; [by apply SFleb_refl | constructor].
  - specialize (IH _ Hm). apply Forall_cons in IH as [Hx' Hl].
    destruct (maximum_upper x a) as [Hx Ha];
      [by apply SFleb_not_nan in Hx' as [? _] |].
    constructor; [by eapply SFleb_trans |].
    constructor; [by eapply SFleb_trans | done].
Qed.

(** When the maximum equals the minimum, every quotient is 0/0 or involves
    inf - inf. *)
Lemma min_max_scaling_degenerate (X : ndarray B64.t) M m :
  np_max X = Ok M -> np_min X = Ok m -> feqb M m = true ->
  np_map (fun x => fdiv x (fsub M m)) (np_map (fun x => fsub x m) X)
  = np_map (fun _ => B64.nan) X.
Proof.
  change (@fdiv _ binary64) with B64.div.
  change (@fsub _ binary64) with B64.sub.
  change (@feqb _ binary64) with SFeqb.
  unfold np_max, np_min, np_map. destruct X as [s [|x l]]; simpl; [done |].
  intros [= <-] [= <-] Heq. f_equal.
  pose proof (SFeqb_leb _ _ Heq) as Hle.
  destruct (SFleb_not_nan _ _ Hle) as [HM Hm].
  pose proof (fold_minimum_lower l x Hm) as Hlow.
  pose proof (fold_maximum_upper l x HM) as Hup.
  rewrite map_map. change (?a :: map ?f l) with (map f (x :: l)).
  change (B64.nan :: map ?f l) with (map f (x :: l)).
  apply map_ext_Forall.
  eapply Forall_impl; [apply Forall_and; split; [exact Hlow | exact Hup] |].
  intros y [Hy1 Hy2]. simpl in *.
  assert (Hyeq : SFeqb y (fold_left minimum l x) = true).
  { apply SFleb_antisym; [| done]. by eapply SFleb_trans. }
  destruct (B64_sub_eq _ _ Hyeq) as [Hn | ->]; [| apply B64_div_nan_l].
  destruct (B64_sub_eq _ _ Heq) as [Hd | ->]; [| apply B64_div_nan_r].
  by apply B64_div_zero_zero.
Qed.

Context `{NumLib B64.t}.

(** C1, as the code has it: neither [preprocess_signal] nor
    [featurize_spectrogram] guards the min-max division. Whenever the
    square-root magnitude of the spectrogram has its maximum equal to its
    minimum, both return a normalised array of the spectrogram's shape in
    which every item is NaN. *)
Theorem normalization_degenerate
    (make_stft_features : ndarray B64.t -> B64.t -> ndarray (complex B64.t))
    (phase_of : ndarray (complex B64.t) -> ndarray B64.t)
    signal sample_rate M m :
  let spectrogram := make_stft_features signal sample_rate in
  let X := np_map fsqrt (np_map cabs spectrogram) in
  np_max X = Ok M -> np_min X = Ok m -> feqb M m = true ->
  preprocess_signal make_stft_features signal sample_rate
  = Ok (spectrogram, np_map (fun _ => B64.nan) spectrogram)
  /\ featurize_spectrogram phase_of spectrogram
     = Ok (np_map (fun _ => B64.nan) spectrogram, phase_of spectrogram, M, m).
Proof.
  intros spectrogram X HM Hm Heq.
  pose proof (min_max_scaling_degenerate X M m HM Hm Heq) as Hnan.
  unfold preprocess_signal, featurize_spectrogram.
  fold spectrogram. fold X. rewrite HM, Hm. cbn [mbind Res_bind].
  rewrite Hnan. unfold X, np_map. simpl. by rewrite !map_map.
Qed.
End Degenerate.

(** ** Waveform normalisation *)

(** C5, as the code has it: [separate_sources] divides by the standard
    deviation without a guard. Whenever a reconstructed waveform has zero
    standard deviation, every item of the normalised waveform is NaN or
    infinite. *)
Theorem normalize_waveform_zero_std (waveform : ndarray B64.t) :
  B64.is_zero (np_std waveform) = true ->
  Forall (fun x => B64.isfinite x = false)
         (data (normalize_waveform waveform)).
Proof.
  intros Hsd. unfold normalize_waveform, np_map. simpl.
  apply Forall_map, Forall_map, Forall_forall. intros x _.
  by apply B64_div_zero.
Qed.

(** ** Undoing the normalisation, over the reals *)

Lemma cabs_nonneg (z : complex R) : (0 <= cabs z)%R.
Proof. unfold cabs. simpl. apply sqrt_pos. Qed.

Lemma denormalize_item (a M m : R) :
  (0 <= a)%R -> M <> m ->
  square (fadd (fmul (fdiv (fsub (fsqrt a) m) (fsub M m)) (fsub M m)) m) = a.
Proof.
  intros Ha HMm. unfold square. simpl.
  replace ((sqrt a - m) / (M - m) * (M - m) + m)%R with (sqrt a).
  - by apply sqrt_sqrt.
  - field. lra.
Qed.

Section Inversion.
Variable phase_of : ndarray (complex R) -> ndarray R.

(** C10, in exact arithmetic: on a non-empty spectrogram
    [featurize_spectrogram] returns, and when the maximum and the minimum it
    returns differ, the denormalisation of [separate_sources] applied to the
    normalised magnitude it returns gives back the magnitude of the
    spectrogram. *)
Theorem undo_normalization_inverts (spectrogram : ndarray (complex R)) :
  data spectrogram <> [] ->
  exists X_input X_max X_min,
    featurize_spectrogram phase_of spectrogram
    = Ok (X_input, phase_of spectrogram, X_max, X_min) /\
    (X_max <> X_min ->
     undo_normalization X_input X_max X_min = np_map cabs spectrogram).
Proof.
  intros Hne. destruct spectrogram as [s [|z l]]; simpl in Hne; [done |].
  unfold featurize_spectrogram, np_max, np_min. cbn [np_map data map].
  cbn [mbind Res_bind]. do 3 eexists. split; [reflexivity |].
  set (M := fold_left maximum _ _). set (m := fold_left minimum _ _).
  clearbody M m. intros HMm.
  unfold undo_normalization, np_map. cbn [shape data].
  f_equal. change (?a :: map cabs l) with (map cabs (z :: l)).
  change (?a :: map fsqrt ?k) with (map fsqrt (map cabs (z :: l))).
  rewrite !map_map. apply map_ext. intros a.
  apply denormalize_item; [apply cabs_nonneg | exact HMm].
Qed.
End Inversion.

(** ** Hard masks reconstruct the spectrogram *)

(** *** Multiplying by 1.0 and by 0.0 *)

Section Binary64Masks.
Implicit Types (x y a b : B64.t) (z u acc : complex B64.t).

Lemma digits2_pos_shift52 m :
  Zpos (digits2_pos (Pos.mul 4503599627370496 m))
  = (Zpos (digits2_pos m) + 52)%Z.
Proof. cbv [Pos.mul]. cbn [digits2_pos]. lia. Qed.

Lemma B64_mul_one x : B64.valid x = true -> B64.mul B64.one x = x.
Proof.
  destruct x as [s|s| |s m e]; try done. intros Hb.
  unfold B64.valid, valid_binary, bounded, canonical_mantissa in Hb.
  apply andb_prop in Hb as [Hc He]. apply Z.eqb_eq in Hc.
  unfold B64.mul, B64.one, SFmul. cbn [xorb].
  unfold binary_round_aux. unfold shr_fexp at 1. unfold Zdigits2.
  rewrite digits2_pos_shift52.
  replace (Z.pos (digits2_pos m) + 52 + (-52 + e))%Z
    with (Z.pos (digits2_pos m) + e)%Z by lia.
  rewrite Hc. replace (e - (-52 + e))%Z with 52%Z by lia.
  unfold shr. cbn [shr_record_of_loc].
  cbv [Pos.mul]. cbn [SpecFloat.iter_pos shr_1 orb].
  cbn [loc_of_shr_record shr_m round_nearest_even].
  unfold shr_fexp. cbn [Zdigits2].
  replace (-52 + e + 52)%Z with e by lia.
  rewrite Hc, Z.sub_diag. cbn [shr shr_record_of_loc shr_m].
  by rewrite He.
Qed.

Lemma B64_mul_zero x :
  B64.isfinite x = true -> B64.is_zero (B64.mul B64.zero x) = true.
Proof. by destruct x. Qed.

Lemma same_value_refl x : same_value x x.
Proof. by left. Qed.

Lemma SFeqb_refl x : B64.isfinite x = true -> SFeqb x x = true.
Proof.
  intros Hx. apply SFleb_antisym; apply SFleb_refl; by destruct x.
Qed.

Lemma same_value_eqb x y :
  B64.isfinite y = true -> same_value x y -> SFeqb x y = true.
Proof.
  intros Hy [-> | [Hx Hy']]; [by apply SFeqb_refl |].
  by destruct x, y.
Qed.

Lemma add_zeros a b :
  B64.is_zero a = true -> B64.is_zero b = true ->
  B64.is_zero (B64.add a b) = true.
Proof. by destruct a as [[]| | |], b as [[]| | |]. Qed.

Lemma sub_zeros a b :
  B64.is_zero a = true -> B64.is_zero b = true ->
  B64.is_zero (B64.sub a b) = true.
Proof. by destruct a as [[]| | |], b as [[]| | |]. Qed.

Lemma add_zero_r_same x y a :
  B64.isfinite y = true -> same_value x y -> B64.is_zero a = true ->
  same_value (B64.add x a) y.
Proof.
  intros Hy [-> | [Hx Hy']] Ha.
  - destruct y as [s| | |s m e]; try done; destruct a as [t| | |]; try done.
    + right. split; [by destruct s, t | done].
    + by left.
  - right. split; [by apply add_zeros | done].
Qed.

Lemma add_zero_l_same x y a :
  B64.isfinite y = true -> same_value x y -> B64.is_zero a = true ->
  same_value (B64.add a x) y.
Proof.
  intros Hy [-> | [Hx Hy']] Ha.
  - destruct y as [s| | |s m e]; try done; destruct a as [t| | |]; try done.
    + right. split; [by destruct s, t | done].
    + by left.
  - right. split; [by apply add_zeros | done].
Qed.

Lemma sub_zero_r_same x y a :
  B64.isfinite y = true -> same_value x y -> B64.is_zero a = true ->
  same_value (B64.sub x a) y.
Proof.
  intros Hy [-> | [Hx Hy']] Ha.
  - destruct y as [s| | |s m e]; try done; destruct a as [t| | |]; try done.
    + right. split; [by destruct s, t | done].
    + by left.
  - right. split; [by apply sub_zeros | done].
Qed.

(** A cell selected by the mask keeps its value. *)
Lemma mask_mul_one z :
  finite_item (re z) -> finite_item (im z) -> csame (mask_mul fone z) z.
Proof.
  intros [Hrf Hrv] [Hif Hiv]. unfold mask_mul, cmul, of_real, csame.
  cbn [re im]. b64_ops. rewrite !B64_mul_one by done. split.
  - apply sub_zero_r_same; [done | apply same_value_refl |].
    by apply B64_mul_zero.
  - apply add_zero_r_same; [done | apply same_value_refl |].
    by apply B64_mul_zero.
Qed.

(** A cell the mask leaves out becomes a zero. *)
Lemma mask_mul_zero z :
  finite_item (re z) -> finite_item (im z) -> czeroish (mask_mul fzero z).
Proof.
  intros [Hrf Hrv] [Hif Hiv]. unfold mask_mul, cmul, of_real, czeroish.
  cbn [re im]. b64_ops. split.
  - apply sub_zeros; by apply B64_mul_zero.
  - apply add_zeros; by apply B64_mul_zero.
Qed.

Lemma cadd_zeroish acc u : czeroish acc -> czeroish u -> czeroish (cadd acc u).
Proof. intros [] []. split; cbn [re im cadd]; b64_ops; by apply add_zeros. Qed.

Lemma cadd_same_l acc u z :
  finite_item (re z) -> finite_item (im z) ->
  csame acc z -> czeroish u -> csame (cadd acc u) z.
Proof.
  intros [] [] [] []. split; cbn [re im cadd]; b64_ops;
    by apply add_zero_r_same.
Qed.

Lemma cadd_same_r acc u z :
  finite_item (re z) -> finite_item (im z) ->
  czeroish acc -> csame u z -> csame (cadd acc u) z.
Proof.
  intros [] [] [] []. split; cbn [re im cadd]; b64_ops;
    by apply add_zero_l_same.
Qed.

Lemma csame_ceqb u z :
  finite_item (re z) -> finite_item (im z) -> csame u z -> ceqb u z = true.
Proof.
  intros [] [] []. unfold ceqb. b64_ops.
  by rewrite !same_value_eqb.
Qed.

(** The sources of one cell, added up. *)
Lemma fold_zero_masks n acc z :
  finite_item (re z) -> finite_item (im z) -> csame acc z ->
  csame (fold_left cadd (map (fun m => mask_mul m z) (replicate n fzero)) acc)
        z.
Proof.
  intros Hr Hi. revert acc. induction n as [|n IH]; intros acc Hacc; [done |].
  simpl. apply IH. apply cadd_same_l; try done. by apply mask_mul_zero.
Qed.

Lemma fold_one_hot k c acc z :
  finite_item (re z) -> finite_item (im z) -> c < k -> czeroish acc ->
  csame (fold_left cadd (map (fun m => mask_mul m z) (one_hot k c)) acc) z.
Proof.
  intros Hr Hi. revert c acc.
  induction k as [|k IH]; intros c acc Hc Hacc; [lia |].
  destruct c as [|c].
  - rewrite one_hot_0. simpl. apply fold_zero_masks; try done.
    apply cadd_same_r; try done. by apply mask_mul_one.
  - rewrite one_hot_S. simpl. apply IH; [lia |].
    apply cadd_zeroish; [done |]. by apply mask_mul_zero.
Qed.
End Binary64Masks.

(** *** Adding up the masked spectrograms *)

Section SumOfSources.
Context {A : Type} `{Float64 A}.
Implicit Types (dS accs : list (complex A)) (cells : list (list A)).

(** Cells without sources leave the accumulators alone. *)
Lemma fold_cells_nil accs dS cells :
  Forall (fun cell => length cell = 0) cells ->
  length dS = length cells -> length accs = length cells ->
  zip_with (fun az cell =>
              fold_left cadd (map (fun m => mask_mul m az.2) cell) az.1)
           (zip accs dS) cells
  = accs.
Proof.
  intros Hcells. revert accs dS.
  induction Hcells as [|cell cells Hcell _ IH];
    intros [|a accs] [|z dS] Hd Ha; try done.
  destruct cell; [| done]. simpl in *. f_equal. apply IH; lia.
Qed.

(** Taking the first source of every cell into the accumulators. *)
Lemma fold_cells_cons k accs dS cells :
  Forall (fun cell => length cell = S k) cells ->
  length dS = length cells -> length accs = length cells ->
  zip_with (fun az cell =>
              fold_left cadd (map (fun m => mask_mul m az.2) cell) az.1)
           (zip (zip_with cadd accs
                          (zip_with mask_mul (flat_map (take 1) cells) dS))
                dS)
           (map (drop 1) cells)
  = zip_with (fun az cell =>
                fold_left cadd (map (fun m => mask_mul m az.2) cell) az.1)
             (zip accs dS) cells.
Proof.
  intros Hcells. revert accs dS.
  induction Hcells as [|cell cells Hcell _ IH];
    intros [|a accs] [|z dS] Hd Ha; try done.
  destruct cell as [|m cell]; [done |].
  simpl in *. f_equal. apply IH; lia.
Qed.

(** Adding the masked spectrograms source by source adds, in every cell, the
    cell's masked values. *)
Lemma fold_masked k cells dS accs :
  Forall (fun cell => length cell = k) cells ->
  length dS = length cells -> length accs = length cells ->
  fold_left (zip_with cadd)
            (map (fun col => zip_with mask_mul col dS) (columns k cells))
            accs
  = zip_with (fun az cell =>
                fold_left cadd (map (fun m => mask_mul m az.2) cell) az.1)
             (zip accs dS) cells.
Proof.
  revert cells accs. induction k as [|k IH]; intros cells accs Hcells Hd Ha.
  - simpl. by rewrite fold_cells_nil.
  - rewrite columns_S. simpl. rewrite IH.
    + by apply (fold_cells_cons k).
    + apply Forall_map. eapply Forall_impl; [exact Hcells |].
      intros cell Hcell. simpl in *. rewrite length_drop. lia.
    + by rewrite length_map.
    + rewrite !length_zip_with, length_map.
      rewrite (length_flat_map_const _ 1); [lia |].
      eapply Forall_impl; [exact Hcells |].
      intros cell Hcell. simpl in *. rewrite length_take. lia.
Qed.

Lemma concat_replicate_replicate {X} T F (x : X) :
  concat (replicate T (replicate F x)) = replicate (T * F) x.
Proof.
  induction T as [|T IH]; [done |]. simpl. by rewrite IH, replicate_add.
Qed.

(** A 0-d array against a 2-d one. *)
Lemma np_binop_scalar_2d {X Y Z} (f : X -> Y -> Z) (x : X) T F (d : list Y) :
  length d = T * F ->
  np_binop f (scalar x) (Nd [T; F] d)
  = Ok (Nd [T; F] (zip_with f (replicate (T * F) x) d)).
Proof.
  intros Hd. unfold np_binop, scalar. cbn [shape data length Nat.max].
  unfold pad_shape. cbn [length Nat.sub replicate app broadcast_shapes].
  rewrite !broadcast_dim_1_l. cbn [mbind option_bind].
  rewrite broadcast_to_lead1 by done.
  rewrite (flat_map_Forall_ext _ (fun _ => replicate F x)).
  - rewrite flat_map_const, length_seq, concat_replicate_replicate.
    rewrite broadcast_to_same by (simpl; lia). done.
  - apply Forall_forall. intros _ _.
    rewrite broadcast_to_lead1 by done. simpl.
    apply flat_map_singleton.
Qed.

Lemma for_each_add s (outs : list (ndarray (complex A))) accs :
  Forall (fun o => shape o = s /\ wf o) outs ->
  length accs = size s ->
  for_each (np_binop cadd) outs (Nd s accs)
  = Ok (Nd s (fold_left (zip_with cadd) (map data outs) accs)).
Proof.
  intros Houts. revert accs.
  induction Houts as [|o outs [Hs Hwf] _ IH]; intros accs Ha; [done |].
  simpl. rewrite np_binop_same_shape; [| done | done | done].
  cbn [mbind Res_bind shape data]. apply IH.
  rewrite length_zip_with. unfold wf in Hwf. rewrite Hs in Hwf. lia.
Qed.

Lemma py_sum_2d T F (outs : list (ndarray (complex A))) :
  outs <> [] ->
  Forall (fun o => shape o = [T; F] /\ wf o) outs ->
  py_sum outs
  = Ok (Nd [T; F] (fold_left (zip_with cadd) (map data outs)
                             (replicate (T * F) czero))).
Proof.
  intros Hne Houts. destruct outs as [|o outs]; [done |].
  apply Forall_cons in Houts as [[Hs Hwf] Houts].
  unfold py_sum. simpl. destruct o as [so d]. simpl in Hs. subst so.
  unfold wf in Hwf. simpl in Hwf.
  rewrite np_binop_scalar_2d by lia. cbn [mbind Res_bind].
  apply for_each_add; [done |].
  rewrite length_zip_with, length_replicate. simpl. lia.
Qed.

(** The sum of the masked spectrograms, cell by cell. *)
Lemma sum_of_masked (spectrogram : ndarray (complex A))
    (masks : ndarray A) T F k :
  shape spectrogram = [T; F] -> wf spectrogram ->
  shape masks = [T; F; k] -> wf masks -> 0 < k ->
  exists outs,
    apply_masks spectrogram masks = Ok outs /\
    py_sum outs
    = Ok (Nd [T; F]
             (zip_with (fun az cell =>
                          fold_left cadd (map (fun m => mask_mul m az.2) cell)
                                    az.1)
                       (zip (replicate (T * F) czero) (data spectrogram))
                       (chunks k (T * F) (data masks)))).
Proof.
  intros HS HwS HM HwM Hk.
  pose proof (apply_masks_closed_form spectrogram masks T F k HS HwS HM HwM)
    as Houts.
  destruct spectrogram as [sS dS], masks as [sM dM].
  simpl in HS, HM. subst sS sM.
  unfold wf in HwS, HwM. simpl in HwS, HwM, Houts. cbn [data].
  set (cells := chunks k (T * F) dM) in *.
  assert (Hn : length cells = T * F) by apply length_chunks.
  assert (Hcl : Forall (fun cell => length cell = k) cells)
    by (apply Forall_length_chunks; lia).
  assert (Hcols : forall i, i < k ->
            length (flat_map (fun blk => take 1 (drop i blk)) cells) = T * F)
    by (intros i Hi; apply column_length; lia).
  eexists. split; [exact Houts |].
  rewrite (py_sum_2d T F).
  - rewrite map_map. cbn [data].
    rewrite <- (map_map (fun j => flat_map (fun blk => take 1 (drop j blk))
                                           cells)
                        (fun col => zip_with mask_mul col dS)).
    fold (columns k cells).
    by rewrite fold_masked; [| done | lia | rewrite length_replicate; lia].
  - destruct k; [lia | done].
  - apply Forall_map, Forall_forall. intros i Hi.
    apply list_elem_of_In, in_seq in Hi. split; [done |].
    unfold wf. cbn [shape data].
    rewrite length_zip_with, Hcols by lia. simpl. lia.
Qed.

(** Without sources the sum is the scalar 0, equal to an empty array. *)
Lemma sum_of_nothing (spectrogram : ndarray (complex A)) T F :
  shape spectrogram = [T; F] -> wf spectrogram -> T * F = 0 ->
  all_equal (scalar czero) spectrogram = Ok true.
Proof.
  intros HS HwS HTF. destruct spectrogram as [sS dS]. simpl in HS. subst sS.
  unfold wf in HwS. simpl in HwS.
  unfold all_equal. rewrite np_binop_scalar_2d by lia.
  cbn [mbind Res_bind data]. destruct dS; [| simpl in HwS; lia].
  by destruct (replicate (T * F) czero).
Qed.
End SumOfSources.

Lemma Forall2_of_Forall {X Y} (P : X -> Prop) (Q : Y -> Prop) l1 l2 :
  length l1 = length l2 -> Forall P l1 -> Forall Q l2 ->
  Forall2 (fun x y => P x /\ Q y) l1 l2.
Proof.
  intros Hlen H1. revert l2 Hlen.
  induction H1 as [|x l1 Hx _ IH]; intros [|y l2] Hlen H2;
    simpl in Hlen; try lia; [constructor |].
  apply Forall_cons in H2 as [Hy H2]. constructor; [done |].
  apply IH; [lia | done].
Qed.

Section Reconstruction.
Implicit Types (dS : list (complex B64.t)) (cells : list (list B64.t)).

Lemma all_cells_equal k cells dS :
  Forall2 (fun cell z =>
             (exists c, c < k /\ cell = one_hot k c) /\
             (finite_item (re z) /\ finite_item (im z)))
          cells dS ->
  forallb (fun b : bool => b)
    (zip_with ceqb
       (zip_with (fun az cell =>
                    fold_left cadd (map (fun m => mask_mul m az.2) cell) az.1)
                 (zip (replicate (length cells) czero) dS) cells)
       dS)
  = true.
Proof.
  induction 1 as [|cell z cells dS [(c & Hc & ->) [Hr Hi]] _ IH]; [done |].
  simpl. rewrite IH, andb_true_r.
  apply csame_ceqb; try done. by apply fold_one_hot.
Qed.

(** C3, as the code computes it: for a hard mask, one that selects exactly
    one source in every cell with items 1.0 and 0.0, and a spectrogram with
    finite items, the masked spectrograms returned by [apply_masks] add up
    to an array equal to the spectrogram:
    [(sum(apply_masks(spectrogram, masks)) == spectrogram).all()] holds in
    binary64. *)
Theorem hard_masks_reconstruct (spectrogram : ndarray (complex B64.t))
    (masks : ndarray B64.t) T F k :
  shape spectrogram = [T; F] -> wf spectrogram ->
  shape masks = [T; F; k] -> wf masks ->
  Forall (fun z => finite_item (re z) /\ finite_item (im z))
         (data spectrogram) ->
  Forall (fun cell => exists c, c < k /\ cell = one_hot k c)
         (chunks k (T * F) (data masks)) ->
  exists outs total,
    apply_masks spectrogram masks = Ok outs /\
    py_sum outs = Ok total /\
    all_equal total spectrogram = Ok true.
Proof.
  intros HS HwS HM HwM Hfin Hhard.
  assert (Hn : length (chunks k (T * F) (data masks)) = T * F)
    by apply length_chunks.
  destruct k as [|k].
  - (* no source: the mask has no cell *)
    assert (HTF : T * F = 0).
    { destruct (chunks 0 (T * F) (data masks)) as [|cell ?]; [done |].
      apply Forall_cons in Hhard as [(c & Hc & _) _]. lia. }
    exists [], (scalar czero).
    split; [by rewrite (apply_masks_closed_form spectrogram masks T F 0) |].
    split; [done |]. by apply (sum_of_nothing spectrogram T F).
  - destruct (sum_of_masked spectrogram masks T F (S k))
      as (outs & Houts & Hsum); try done; [lia |].
    do 2 eexists. split; [exact Houts |]. split; [exact Hsum |].
    pose proof HwS as Hlen. unfold wf in Hlen. rewrite HS in Hlen.
    simpl in Hlen.
    unfold all_equal. rewrite np_binop_same_shape; [| by rewrite HS | | done].
    + cbn [mbind Res_bind data]. f_equal.
      set (cells := chunks (S k) (T * F) (data masks)) in *.
      rewrite <- Hn. apply (all_cells_equal (S k)).
      apply Forall2_of_Forall; [lia | done | done].
    + unfold wf. cbn [shape data].
      rewrite length_zip_with, length_zip, length_replicate. simpl. lia.
Qed.
End Reconstruction.

(** *** Exact arithmetic: any mask that sums to one *)

Section RealReconstruction.
Implicit Types (cell : list R) (z acc : complex R).

Lemma fold_left_Rplus_from cell (x : R) :
  fold_left Rplus cell x = (x + fold_left Rplus cell 0)%R.
Proof.
  revert x. induction cell as [|m cell IH]; intros x; simpl; [lra |].
  rewrite (IH (x + m)%R), (IH (0 + m)%R). lra.
Qed.

(** The sources of one cell add up to the cell's mask total times its
    value. *)
Lemma fold_cell_real cell z acc :
  fold_left cadd (map (fun m => mask_mul m z) cell) acc
  = Cx (re acc + add_all cell * re z)%R (im acc + add_all cell * im z)%R.
Proof.
  revert acc. induction cell as [|m cell IH]; intros acc.
  - destruct acc. unfold add_all. simpl. f_equal; lra.
  - simpl. rewrite IH. unfold add_all. simpl.
    rewrite (fold_left_Rplus_from cell (0 + m)%R). f_equal; lra.
Qed.

Lemma cells_reconstruct (cells : list (list R)) (dS : list (complex R)) :
  length dS = length cells ->
  Forall (fun cell => add_all cell = 1%R) cells ->
  zip_with (fun az cell =>
              fold_left cadd (map (fun m => mask_mul m az.2) cell) az.1)
           (zip (replicate (length cells) czero) dS) cells
  = dS.
Proof.
  intros Hlen Hcells. revert dS Hlen.
  induction Hcells as [|cell cells Hcell _ IH]; intros [|z dS] Hlen;
    simpl in Hlen; try lia; [done |].
  simpl. rewrite IH by lia. f_equal.
  rewrite fold_cell_real, Hcell. destruct z. simpl. f_equal; lra.
Qed.

Lemma Reqb_refl (x : R) : Reqb x x = true.
Proof. unfold Reqb. by destruct (Req_dec_T x x). Qed.

Lemma all_ceqb_refl (dS : list (complex R)) :
  forallb (fun b : bool => b) (zip_with ceqb dS dS) = true.
Proof.
  induction dS as [|z dS IH]; [done |].
  simpl. rewrite IH. unfold ceqb. simpl. by rewrite !Reqb_refl.
Qed.

(** Over the reals, the sources add up to the spectrogram for every mask,
    binary or not, that sums to one in every cell. *)
Theorem unit_masks_reconstruct (spectrogram : ndarray (complex R))
    (masks : ndarray R) T F k :
  shape spectrogram = [T; F] -> wf spectrogram ->
  shape masks = [T; F; k] -> wf masks ->
  np_sum_axis masks 2 = Ok (np_full [T; F] 1%R) ->
  exists outs total,
    apply_masks spectrogram masks = Ok outs /\
    py_sum outs = Ok total /\
    all_equal total spectrogram = Ok true /\
    (0 < k -> total = spectrogram).
Proof.
  intros HS HwS HM HwM Hunit.
  pose proof HwS as HlS. pose proof HwM as HlM. unfold wf in HlS, HlM.
  rewrite HS in HlS. rewrite HM in HlM. simpl in HlS, HlM.
  assert (Hcells : Forall (fun cell => add_all cell = 1%R)
                          (chunks k (T * F) (data masks))).
  { destruct masks as [sM dM]. simpl in HM, HlM. subst sM.
    rewrite np_sum_axis_last in Hunit.
    injection Hunit as Hunit. simpl.
    apply Forall_forall. intros cell Hcell.
    assert (Hin : np_add_reduce cell
                  ∈ map np_add_reduce (chunks k (T * F) dM))
      by (by apply list_elem_of_fmap_2).
    rewrite Hunit in Hin. apply elem_of_replicate in Hin as [Hin _].
    by rewrite <- np_add_reduce_real. }
  assert (Hn : length (chunks k (T * F) (data masks)) = T * F)
    by apply length_chunks.
  destruct k as [|k].
  - assert (HTF : T * F = 0).
    { destruct (chunks 0 (T * F) (data masks)) as [|cell ?] eqn:Hc; [done |].
      apply Forall_cons in Hcells as [Hcell _].
      assert (Hnil : cell = []).
      { apply nil_length_inv.
        pose proof (Forall_length_chunks 0 (T * F) (data masks) ltac:(lia))
          as Hl.
        rewrite Hc in Hl. by apply Forall_cons in Hl as [? _]. }
      subst cell. unfold add_all in Hcell. simpl in Hcell. lra. }
    exists [], (scalar czero).
    split; [by rewrite (apply_masks_closed_form spectrogram masks T F 0) |].
    split; [done |]. split; [by apply (sum_of_nothing spectrogram T F) | lia].
  - destruct (sum_of_masked spectrogram masks T F (S k))
      as (outs & Houts & Hsum); try done; [lia |].
    set (cells := chunks (S k) (T * F) (data masks)) in *.
    rewrite <- Hn in Hsum. rewrite cells_reconstruct in Hsum by (done || lia).
    assert (Htotal : Nd [T; F] (data spectrogram) = spectrogram)
      by (destruct spectrogram; simpl in *; by subst).
    rewrite Htotal in Hsum.
    exists outs, spectrogram. split; [done |]. split; [done |].
    split; [| done].
    unfold all_equal. rewrite np_binop_same_shape by done.
    cbn [mbind Res_bind data]. by rewrite all_ceqb_refl.
Qed.
End RealReconstruction.

Section OneHot.
Context {A : Type} `{Float64 A}.

Lemma one_hot_lookup k c i :
  i < k -> one_hot k c !! i = Some (if decide (c = i) then fone else fzero).
Proof.
  intros Hi. unfold one_hot. destruct (decide (c = i)) as [-> | Hne].
  - apply list_lookup_insert_eq. by rewrite length_replicate.
  - rewrite list_lookup_insert_ne by done. by apply lookup_replicate_2.
Qed.
End OneHot.

(** ** The outcomes of [get_cluster_masks] *)

Section ClusterMasksOutcome.
Context {A : Type} `{Float64 A} `{NumLib A} `{KMeansLib A}.

(** The result never depends on the global generator, which is handed back
    as it was. *)
Lemma get_cluster_masks_generator (vectors : ndarray A) k b g g' :
  get_cluster_masks vectors k b g
  = (fst (get_cluster_masks vectors k b g'), g).
Proof.
  unfold get_cluster_masks, KMeans_fit.
  destruct (shape vectors) as [|B [|T [|F [|E s]]]]; try done.
  destruct (index0 vectors ≫= _) as [X|e]; done.
Qed.

(** Fewer than four axes, or an empty batch: [IndexError], before any
    clustering. *)
Theorem get_cluster_masks_bad_shape (vectors : ndarray A) k b g :
  length (shape vectors) < 4 \/ shape vectors !! 0 = Some 0 ->
  get_cluster_masks vectors k b g = (Raise IndexError, g).
Proof.
  intros Hbad. unfold get_cluster_masks.
  destruct (shape vectors) as [|B [|T [|F [|E s]]]] eqn:Hs; try done.
  destruct Hbad as [Hlen | HB]; [simpl in Hlen; lia |].
  injection HB as ->. unfold index0. rewrite Hs.
  by rewrite decide_True.
Qed.

Context `{!KMeansSound A}.

(** Binary masks: the item for cell (t, f) and source [i] is 1 when the
    cell's label is [i] and 0 otherwise; the cells are labelled in row-major
    order. *)
Theorem binary_masks_follow_labels (vectors : ndarray A) B T F E k g fit rs' :
  shape vectors = [B; T; F; E] -> wf vectors -> 1 <= B ->
  k_means k (RandomState_of_seed 0)
          (Nd [T * F; E] (take (T * F * E) (data vectors))) = (Ok fit, rs') ->
  exists masks,
    get_cluster_masks vectors k true g = (Ok masks, g) /\
    forall t f i, t < T -> f < F -> i < k ->
      exists label,
        labels_ fit !! (t * F + f) = Some label /\ label < k /\
        item masks [t; f; i]
        = Some (if decide (label = i) then fone else fzero).
Proof.
  intros Hs Hwf HB Hfit.
  destruct (k_means_sound k _ _
              (Nd [T * F; E] (take (T * F * E) (data vectors)))
              (T * F) E _ eq_refl
              (wf_clustering_input _ _ _ _ _ Hs Hwf HB) Hfit)
    as (_ & Hlen & Hlab & _).
  eexists. split; [by eapply get_cluster_masks_binary |].
  intros t f i Ht Hf Hi.
  destruct (lookup_lt_is_Some_2 (labels_ fit) (t * F + f)) as [label Hl];
    [nia |].
  exists label. split; [done |].
  split; [by eapply (proj1 (Forall_lookup _ _) Hlab) |].
  unfold item. simpl. rewrite !decide_True by done. simpl.
  replace (t * (F * (k * 1)) + (f * (k * 1) + (i * 1 + 0)))
    with ((t * F + f) * k + i) by lia.
  rewrite (lookup_flat_map_const _ k _ _ _ label); try done.
  - by apply one_hot_lookup.
  - apply Forall_forall. intros c _. apply length_one_hot.
Qed.

(** On a well-shaped input the only source of failure is the fit: the call
    raises exactly the exception the fit raises, in both modes. *)
Theorem get_cluster_masks_raises_iff (vectors : ndarray A) B T F E k b g e :
  shape vectors = [B; T; F; E] -> wf vectors -> 1 <= B ->
  fst (get_cluster_masks vectors k b g) = Raise e <->
  fst (k_means k (RandomState_of_seed 0)
               (Nd [T * F; E] (take (T * F * E) (data vectors)))) = Raise e.
Proof.
  intros Hs Hwf HB.
  destruct (k_means k (RandomState_of_seed 0)
              (Nd [T * F; E] (take (T * F * E) (data vectors))))
    as [[fit|e'] rs'] eqn:Hfit.
  - destruct (get_cluster_masks_shape vectors B T F E k b g fit rs'
                Hs Hwf HB Hfit) as (masks & -> & _).
    simpl. split; intros [=].
  - unfold get_cluster_masks. rewrite Hs.
    rewrite (clustering_input _ _ _ _ _ Hs HB).
    unfold KMeans_fit. rewrite Hfit. simpl. split; intros [= ->]; done.
Qed.
End ClusterMasksOutcome.


(** ** The errors of [apply_masks] *)

Section ApplyMasksErrors.
Context {A : Type} `{Float64 A}.

Lemma broadcast_dim_None a b : broadcast_dim a b = None <-> clash a b.
Proof.
  unfold broadcast_dim, clash.
  repeat destruct (decide _); split; try done; intros (? & ? & ?); done.
Qed.

Lemma broadcast_dim_Some a b :
  ~ clash a b -> exists d, broadcast_dim a b = Some d.
Proof.
  intros Hc. destruct (broadcast_dim a b) as [d|] eqn:Hd; [by exists d |].
  by apply broadcast_dim_None in Hd.
Qed.

(** A binary ufunc on two matrices. *)
Lemma np_binop_2d {X Y Z} (f : X -> Y -> Z) (a : ndarray X) (b : ndarray Y)
    T F T' F' :
  shape a = [T; F] -> shape b = [T'; F'] ->
  (clash T T' \/ clash F F' -> np_binop f a b = Raise ValueError) /\
  (~ clash T T' -> ~ clash F F' -> exists r, np_binop f a b = Ok r).
Proof.
  intros Ha Hb. unfold np_binop. rewrite Ha, Hb. simpl.
  unfold pad_shape. simpl. split.
  - intros [Hc | Hc]; apply broadcast_dim_None in Hc.
    + by rewrite Hc.
    + rewrite Hc. by destruct (broadcast_dim T T').
  - intros HT HF.
    destruct (broadcast_dim_Some _ _ HT) as [d1 ->].
    destruct (broadcast_dim_Some _ _ HF) as [d2 ->]. simpl. eauto.
Qed.

Lemma mapM_Ok_exists {X Y} (f : X -> Res Y) (l : list X) :
  Forall (fun x => exists y, f x = Ok y) l -> exists r, mapM f l = Ok r.
Proof.
  induction 1 as [|x l [y Hy] _ [r IH]]; simpl; [by eexists |].
  rewrite Hy. simpl. rewrite IH. simpl. by eexists.
Qed.

(** Masks without a source axis. *)
Theorem apply_masks_needs_three_axes (spectrogram : ndarray (complex A))
    (masks : ndarray A) :
  length (shape masks) < 3 ->
  apply_masks spectrogram masks = Raise IndexError.
Proof.
  intros Hlen. unfold apply_masks.
  by rewrite (lookup_ge_None_2 (shape masks) 2) by lia.
Qed.

Lemma slice_axis2_shape (masks : ndarray A) T F k i :
  shape masks = [T; F; k] -> i < k ->
  exists m, slice_axis2 masks i = Ok m /\ shape m = [T; F].
Proof.
  intros HM Hi. unfold slice_axis2. rewrite HM.
  rewrite decide_True by done. eauto.
Qed.

(** With at least one source, a clash between the shapes is a
    [ValueError]. *)
Lemma apply_masks_clash (spectrogram : ndarray (complex A))
    (masks : ndarray A) T F T' F' k :
  shape spectrogram = [T'; F'] -> shape masks = [T; F; k] -> 0 < k ->
  clash T T' \/ clash F F' ->
  apply_masks spectrogram masks = Raise ValueError.
Proof.
  intros HS HM Hk Hc. unfold apply_masks. rewrite HM. simpl.
  destruct k as [|k]; [lia |].
  destruct (slice_axis2_shape masks T F (S k) 0 HM) as (m & Hm & Hms); [lia |].
  cbn [seq mapM]. rewrite Hm. cbn [mbind Res_bind].
  by rewrite (proj1 (np_binop_2d mask_mul m spectrogram _ _ _ _ Hms HS) Hc).
Qed.

(** On a matrix and a 3-d mask array the only exception is the [ValueError]
    of a failed broadcast, raised exactly when there is at least one source
    and the time or the frequency axes clash. *)
Theorem apply_masks_raises_iff (spectrogram : ndarray (complex A))
    (masks : ndarray A) T F T' F' k e :
  shape spectrogram = [T'; F'] -> shape masks = [T; F; k] ->
  apply_masks spectrogram masks = Raise e <->
  e = ValueError /\ 0 < k /\ (clash T T' \/ clash F F').
Proof.
  intros HS HM.
  destruct (decide (0 < k /\ (clash T T' \/ clash F F'))) as [[Hk Hc] | Hc].
  - rewrite (apply_masks_clash _ _ _ _ _ _ _ HS HM Hk Hc).
    split; [by intros [= <-] | by intros (-> & _)].
  - unfold apply_masks. rewrite HM. simpl.
    destruct (mapM_Ok_exists
                (fun i => m ← slice_axis2 masks i;
                          np_binop mask_mul m spectrogram) (seq 0 k))
      as [r Hr].
    + apply Forall_forall. intros i Hi.
      apply list_elem_of_In, in_seq in Hi.
      destruct (slice_axis2_shape masks T F k i HM) as (m & Hm & Hms);
        [lia |].
      rewrite Hm. cbn [mbind Res_bind].
      apply (proj2 (np_binop_2d mask_mul m spectrogram _ _ _ _ Hms HS));
        intros ?; apply Hc; split; (lia || tauto).
    + rewrite Hr. split; [done |]. intros (_ & ? & ?). tauto.
Qed.
End ApplyMasksErrors.


(** ** The items of [l41_clustering_separate] *)

Section L41Items.
Context {A : Type} `{Float64 A} `{NumLib A} `{KMeansLib A} `{!KMeansSound A}
        `{Model A}.
Variable preprocess_l41_batch : ndarray (complex A) -> ndarray A.

(** What [l41_clustering_separate] computes from the masks. *)
Lemma l41_closed_form (spec : ndarray (complex A)) (masks : ndarray A)
    B' T F k b g :
  shape spec = [B'; F; T] -> wf spec -> 1 <= B' ->
  get_cluster_masks (get_vectors (preprocess_l41_batch spec)) k b g
  = (Ok masks, g) ->
  shape masks = [T; F; k] -> wf masks -> 0 < k ->
  l41_clustering_separate preprocess_l41_batch spec k b g
  = (Ok (Nd [k; F; T]
            (flat_map
               (fun i =>
                  transpose2 T F
                    (zip_with mask_mul
                       (flat_map (fun blk => take 1 (drop i blk))
                                 (chunks k (T * F) (data masks)))
                       (transpose2 F T (take (F * T) (data spec)))))
               (seq 0 k))),
     g).
Proof.
  intros Hspec Hwspec HB Hmasks Hms Hmwf Hk.
  unfold l41_clustering_separate. rewrite Hmasks. cbn [mbind Res_bind].
  rewrite (index0_Ok spec B' [F; T] Hspec) by lia. cbn [mbind Res_bind].
  unfold wf in Hwspec. rewrite Hspec in Hwspec. simpl in Hwspec.
  assert (Hl0 : length (take (size [F; T]) (data spec)) = F * T).
  { rewrite length_take. simpl. nia. }
  rewrite np_T_2d by done.
  rewrite (apply_masks_closed_form _ masks T F k); try done.
  - cbn [mbind Res_bind].
    rewrite (np_stack_Ok _ [T; F]).
    + cbn [mbind Res_bind]. unfold transpose_021. cbn [shape data].
      rewrite length_map, length_seq. do 3 f_equal.
      rewrite flat_map_map. cbn [data].
      match goal with
      | |- context [chunks _ k (flat_map ?h _)] =>
          pose proof (chunks_flat_map_nil h (T * F) (seq 0 k)) as Hc
      end.
      rewrite length_seq in Hc. rewrite Hc.
      * rewrite flat_map_map. by rewrite size_2.
      * apply Forall_forall. intros i Hi.
        apply list_elem_of_In, in_seq in Hi.
        unfold wf in Hmwf. rewrite Hms in Hmwf. simpl in Hmwf.
        rewrite length_zip_with, column_length, length_transpose2; lia.
    + destruct k; [lia | done].
    + apply Forall_map, Forall_forall. done.
  - unfold wf. cbn [shape data].
    rewrite length_transpose2; [simpl; lia | done].
Qed.

(** An item of the result: the masked spectrograms are transposed back. *)
Lemma l41_item_lookup (dM : list A) (dS : list (complex A)) T F k i f t m z :
  length dM = T * F * k -> length dS = F * T ->
  i < k -> f < F -> t < T ->
  dM !! ((t * F + f) * k + i) = Some m -> dS !! (f * T + t) = Some z ->
  flat_map
    (fun i =>
       transpose2 T F
         (zip_with mask_mul
            (flat_map (fun blk => take 1 (drop i blk)) (chunks k (T * F) dM))
            (transpose2 F T dS)))
    (seq 0 k) !! (i * (T * F) + (f * T + t))
  = Some (mask_mul m z).
Proof.
  intros HdM HdS Hi Hf Ht Hm Hz.
  assert (Hp : t * F + f < T * F) by nia.
  assert (Hq : f * T + t < F * T) by nia.
  assert (Hcol : forall j, j < k ->
            length (flat_map (fun blk => take 1 (drop j blk))
                             (chunks k (T * F) dM)) = T * F)
    by (intros j Hj; apply column_length; lia).
  rewrite (lookup_flat_map_const _ (T * F) _ i (f * T + t) i).
  - rewrite transpose2_lookup; [| | done | done].
    + rewrite lookup_zip_with, column_lookup by (done || lia).
      rewrite Hm. simpl. rewrite transpose2_lookup by done. by rewrite Hz.
    + rewrite length_zip_with, Hcol, length_transpose2 by done. lia.
  - apply Forall_forall. intros j Hj.
    apply list_elem_of_In, in_seq in Hj.
    rewrite length_transpose2; [lia |].
    rewrite length_zip_with, Hcol, length_transpose2 by (done || lia). lia.
  - by apply lookup_seq_lt.
  - lia.
Qed.

(** The sources item by item, in both modes: source [i] at (f, t) is the
    mask of source [i] at (t, f) times the first spectrogram of the batch at
    (f, t). *)
Theorem l41_sources_items (spec : ndarray (complex A))
    B' B T F E k b g fit rs' :
  let vectors := get_vectors (preprocess_l41_batch spec) in
  shape spec = [B'; F; T] -> wf spec -> 1 <= B' ->
  shape vectors = [B; T; F; E] -> wf vectors -> 1 <= B ->
  k_means k (RandomState_of_seed 0)
          (Nd [T * F; E] (take (T * F * E) (data vectors))) = (Ok fit, rs') ->
  exists masks sources,
    get_cluster_masks vectors k b g = (Ok masks, g) /\
    l41_clustering_separate preprocess_l41_batch spec k b g
    = (Ok sources, g) /\
    shape sources = [k; F; T] /\
    forall i f t, i < k -> f < F -> t < T ->
      exists m z,
        item masks [t; f; i] = Some m /\ item spec [0; f; t] = Some z /\
        item sources [i; f; t] = Some (mask_mul m z).
Proof.
  intros vectors Hspec Hwspec HB' Hs Hwf HB Hfit.
  destruct (k_means_sound k _ _
              (Nd [T * F; E] (take (T * F * E) (data vectors)))
              (T * F) E _ eq_refl
              (wf_clustering_input _ _ _ _ _ Hs Hwf HB) Hfit)
    as (Hk & _).
  destruct (get_cluster_masks_shape vectors B T F E k b g
              fit rs' Hs Hwf HB Hfit) as (masks & Hmasks & Hms & Hmwf).
  exists masks. eexists. split; [done |].
  split; [by eapply l41_closed_form |]. split; [done |].
  intros i f t Hi Hf Ht.
  unfold wf in Hwspec, Hmwf. rewrite Hspec in Hwspec. rewrite Hms in Hmwf.
  simpl in Hwspec, Hmwf.
  assert (Hq : f * T + t < F * T) by nia.
  assert (Hpk : (t * F + f) * k + i < T * F * k) by nia.
  destruct (lookup_lt_is_Some_2 (data masks) ((t * F + f) * k + i)) as [m Hm];
    [lia |].
  destruct (lookup_lt_is_Some_2 (data spec) (f * T + t)) as [z Hz]; [nia |].
  exists m, z. unfold item. rewrite Hspec, Hms. simpl.
  rewrite !decide_True by (done || lia). simpl.
  replace (t * (F * (k * 1)) + (f * (k * 1) + (i * 1 + 0)))
    with ((t * F + f) * k + i) by lia.
  replace (f * (T * 1) + (t * 1 + 0)) with (f * T + t) by lia.
  replace (i * (F * (T * 1)) + (f * T + t))
    with (i * (T * F) + (f * T + t)) by lia.
  split; [done |]. split; [done |].
  apply l41_item_lookup; try done.
  - lia.
  - rewrite length_take. nia.
  - by rewrite lookup_take_lt.
Qed.

(** A spectrogram whose time or frequency axis clashes with the embedding's
    is rejected, after the clustering, by the broadcast in [apply_masks]. *)
Theorem l41_shape_mismatch (spec : ndarray (complex A))
    B' F' T' B T F E k b g fit rs' :
  let vectors := get_vectors (preprocess_l41_batch spec) in
  shape spec = [B'; F'; T'] -> 1 <= B' ->
  shape vectors = [B; T; F; E] -> wf vectors -> 1 <= B ->
  k_means k (RandomState_of_seed 0)
          (Nd [T * F; E] (take (T * F * E) (data vectors))) = (Ok fit, rs') ->
  clash T T' \/ clash F F' ->
  l41_clustering_separate preprocess_l41_batch spec k b g
  = (Raise ValueError, g).
Proof.
  intros vectors Hspec HB' Hs Hwf HB Hfit Hclash.
  destruct (k_means_sound k _ _
              (Nd [T * F; E] (take (T * F * E) (data vectors)))
              (T * F) E _ eq_refl
              (wf_clustering_input _ _ _ _ _ Hs Hwf HB) Hfit)
    as (Hk & _).
  destruct (get_cluster_masks_shape vectors B T F E k b g
              fit rs' Hs Hwf HB Hfit) as (masks & Hmasks & Hms & Hmwf).
  unfold l41_clustering_separate. fold vectors. rewrite Hmasks.
  cbn [mbind Res_bind].
  rewrite (index0_Ok spec B' [F'; T'] Hspec) by lia. cbn [mbind Res_bind].
  rewrite (apply_masks_clash _ masks T F T' F' k); done.
Qed.
End L41Items.

(** ** The pipelines and the random generator *)

Section Generator.
Context {A : Type} `{Float64 A} `{NumLib A} `{KMeansLib A} `{Model A}.
Variable make_stft_features : ndarray A -> A -> ndarray (complex A).
Variable istft : ndarray (complex A) -> A -> A -> ndarray A.
Variable undo_preemphasis : ndarray A -> ndarray A.
Variable preprocess_l41_batch : ndarray (complex A) -> ndarray A.

(** Both separation pipelines return the same result whatever the state of
    numpy's global random generator, and leave that state as it was. *)
Theorem separation_ignores_generator g g' :
  (forall signal sample_rate num_sources binary_mask,
     clustering_separate make_stft_features istft undo_preemphasis
       signal sample_rate num_sources binary_mask g
     = (fst (clustering_separate make_stft_features istft undo_preemphasis
               signal sample_rate num_sources binary_mask g'), g)) /\
  (forall spec num_sources binary_mask,
     l41_clustering_separate preprocess_l41_batch spec num_sources
       binary_mask g
     = (fst (l41_clustering_separate preprocess_l41_batch spec num_sources
               binary_mask g'), g)).
Proof.
  split.
  - intros signal sample_rate k b. unfold clustering_separate.
    destruct (process_signal _ _ _) as [[spectrogram vectors]|e]; [| done].
    rewrite (get_cluster_masks_generator vectors k b g g').
    by destruct (get_cluster_masks vectors k b g') as [masks g0].
  - intros spec k b. unfold l41_clustering_separate.
    rewrite (get_cluster_masks_generator _ k b g g').
    by destruct (get_cluster_masks _ k b g') as [masks g0].
Qed.
End Generator.


(** ** Binary masks select *)

Section L41Binary.
Context `{NumLib B64.t} `{KMeansLib B64.t} `{!KMeansSound B64.t}
        `{Model B64.t}.
Variable preprocess_l41_batch : ndarray (complex B64.t) -> ndarray B64.t.

(** With binary masks every cell of the first spectrogram of the batch goes
    to the source its embedding was clustered into, unchanged, and is zero in
    every other source. *)
Theorem l41_binary_selects (spec : ndarray (complex B64.t))
    B' B T F E k g fit rs' :
  let vectors := get_vectors (preprocess_l41_batch spec) in
  shape spec = [B'; F; T] -> wf spec -> 1 <= B' ->
  Forall (fun z => finite_item (re z) /\ finite_item (im z))
         (take (F * T) (data spec)) ->
  shape vectors = [B; T; F; E] -> wf vectors -> 1 <= B ->
  k_means k (RandomState_of_seed 0)
          (Nd [T * F; E] (take (T * F * E) (data vectors))) = (Ok fit, rs') ->
  exists sources,
    l41_clustering_separate preprocess_l41_batch spec k true g
    = (Ok sources, g) /\
    forall i f t, i < k -> f < F -> t < T ->
      exists label z u,
        labels_ fit !! (t * F + f) = Some label /\
        item spec [0; f; t] = Some z /\
        item sources [i; f; t] = Some u /\
        if decide (label = i) then csame u z else czeroish u.
Proof.
  intros vectors Hspec Hwspec HB' Hfin Hs Hwf HB Hfit.
  destruct (k_means_sound k _ _
              (Nd [T * F; E] (take (T * F * E) (data vectors)))
              (T * F) E _ eq_refl
              (wf_clustering_input _ _ _ _ _ Hs Hwf HB) Hfit)
    as (Hk & Hlen & Hlab & _).
  pose proof (get_cluster_masks_binary vectors B T F E k g fit rs'
                Hs Hwf HB Hfit) as Hmasks.
  assert (Hcells : Forall (fun c => length (one_hot (A:=B64.t) k c) = k)
                          (labels_ fit)).
  { apply Forall_forall. intros c _. apply length_one_hot. }
  assert (HdM : length (flat_map (one_hot (A:=B64.t) k) (labels_ fit))
                = T * F * k).
  { rewrite (length_flat_map_const _ _ _ Hcells). lia. }
  eexists. split.
  { eapply (l41_closed_form _ spec _ B' T F k true g Hspec Hwspec HB' Hmasks);
      [done | | done].
    unfold wf. simpl. rewrite HdM. lia. }
  intros i f t Hi Hf Ht.
  unfold wf in Hwspec. rewrite Hspec in Hwspec. simpl in Hwspec.
  assert (Hq : f * T + t < F * T) by nia.
  destruct (lookup_lt_is_Some_2 (labels_ fit) (t * F + f)) as [label Hl];
    [nia |].
  destruct (lookup_lt_is_Some_2 (data spec) (f * T + t)) as [z Hz]; [nia |].
  exists label, z. eexists. split; [done |].
  unfold item. rewrite Hspec. simpl.
  rewrite !decide_True by (done || lia). simpl.
  replace (f * (T * 1) + (t * 1 + 0)) with (f * T + t) by lia.
  replace (i * (F * (T * 1)) + (f * T + t))
    with (i * (T * F) + (f * T + t)) by lia.
  split; [done |]. split.
  { apply l41_item_lookup; try done.
    - rewrite length_take. nia.
    - rewrite (lookup_flat_map_const _ k _ _ _ label); try done.
      by apply one_hot_lookup.
    - by rewrite lookup_take_lt. }
  assert (Hz' : take (F * T) (data spec) !! (f * T + t) = Some z)
    by (by rewrite lookup_take_lt).
  destruct (proj1 (Forall_lookup _ _) Hfin _ _ Hz') as [Hre Him].
  destruct (decide (label = i)).
  - by apply mask_mul_one.
  - by apply mask_mul_zero.
Qed.
End L41Binary.


(** ** Min-max scaling *)

Section Scaling.
Context {A : Type} `{Float64 A} `{NumLib A}.
Variable make_stft_features : ndarray A -> A -> ndarray (complex A).
Variable phase_of : ndarray (complex A) -> ndarray A.

(** Both normalisations raise on a spectrogram without items, where
    [min] and [max] have nothing to reduce, and only there. *)
Theorem normalization_raises_iff signal sample_rate e :
  let spectrogram := make_stft_features signal sample_rate in
  (preprocess_signal make_stft_features signal sample_rate = Raise e <->
   e = ValueError /\ data spectrogram = []) /\
  (featurize_spectrogram phase_of spectrogram = Raise e <->
   e = ValueError /\ data spectrogram = []).
Proof.
  intros spectrogram.
  unfold preprocess_signal, featurize_spectrogram, np_min, np_max.
  fold spectrogram. cbn [np_map data].
  destruct (data spectrogram) as [|z l]; simpl.
  - split; (split; [by intros [= <-] | by intros [-> _]]).
  - split; (split; [done | by intros [_ ?]]).
Qed.
End Scaling.

Section ScalingReal.
Implicit Types (l : list R) (x y : R).

Lemma minimum_Rmin x y : minimum x y = Rmin x y.
Proof.
  unfold minimum, Rmin. simpl. unfold Rleb.
  by destruct (Rle_dec x y).
Qed.

Lemma maximum_Rmax x y : maximum x y = Rmax x y.
Proof.
  unfold maximum. simpl. unfold Rleb. rewrite Rmax_comm. unfold Rmax.
  by destruct (Rle_dec y x).
Qed.

Lemma fold_minimum_real l x :
  fold_left minimum l x ∈ x :: l /\
  Forall (fun y => (fold_left minimum l x <= y)%R) (x :: l).
Proof.
  revert x. induction l as [|a l IH]; intros x; simpl.
  - split; [apply list_elem_of_here |].
    constructor; [lra | constructor].
  - destruct (IH (minimum x a)) as [Hin Hle].
    apply Forall_cons in Hle as [Hm Hl].
    rewrite minimum_Rmin in *.
    pose proof (Rmin_l x a). pose proof (Rmin_r x a).
    split.
    + apply elem_of_cons in Hin as [-> | Hin].
      * unfold Rmin. destruct (Rle_dec x a).
        -- apply list_elem_of_here.
        -- apply list_elem_of_further, list_elem_of_here.
      * by do 2 apply list_elem_of_further.
    + constructor; [lra |]. constructor; [lra | done].
Qed.

Lemma fold_maximum_real l x :
  fold_left maximum l x ∈ x :: l /\
  Forall (fun y => (y <= fold_left maximum l x)%R) (x :: l).
Proof.
  revert x. induction l as [|a l IH]; intros x; simpl.
  - split; [apply list_elem_of_here |].
    constructor; [lra | constructor].
  - destruct (IH (maximum x a)) as [Hin Hle].
    apply Forall_cons in Hle as [Hm Hl].
    rewrite maximum_Rmax in *.
    pose proof (Rmax_l x a). pose proof (Rmax_r x a).
    split.
    + apply elem_of_cons in Hin as [-> | Hin].
      * unfold Rmax. destruct (Rle_dec x a).
        -- apply list_elem_of_further, list_elem_of_here.
        -- apply list_elem_of_here.
      * by do 2 apply list_elem_of_further.
    + constructor; [lra |]. constructor; [lra | done].
Qed.

(** Min-max scaling of an array with two different items: the minimum goes
    to 0, the maximum to 1, everything else in between. *)
Lemma min_max_scaling_range (X : ndarray R) x1 x2 :
  x1 ∈ data X -> x2 ∈ data X -> x1 <> x2 ->
  exists M m,
    np_max X = Ok M /\ np_min X = Ok m /\ (m < M)%R /\
    let Y := np_map (fun x => fdiv x (fsub M m))
                    (np_map (fun x => fsub x m) X) in
    shape Y = shape X /\
    Forall (fun y => (0 <= y <= 1)%R) (data Y) /\
    0%R ∈ data Y /\ 1%R ∈ data Y.
Proof.
  intros H1 H2 Hne. unfold np_max, np_min.
  destruct X as [s [|x l]]; simpl in *; [by apply elem_of_nil in H1 |].
  destruct (fold_minimum_real l x) as [Hmin Hlow].
  destruct (fold_maximum_real l x) as [Hmax Hup].
  set (M := fold_left maximum l x) in *.
  set (m := fold_left minimum l x) in *.
  exists M, m. split; [done |]. split; [done |].
  assert (HmM : (m < M)%R).
  { pose proof (proj1 (Forall_forall _ _) Hlow) as Hl.
    pose proof (proj1 (Forall_forall _ _) Hup) as Hu.
    pose proof (Hl _ H1). pose proof (Hl _ H2).
    pose proof (Hu _ H1). pose proof (Hu _ H2).
    destruct (Rlt_le_dec m M) as [? | ?]; [done |].
    exfalso. apply Hne. lra. }
  split; [done |]. split; [done |].
  assert (Hitem : forall y, (m <= y <= M)%R -> (0 <= (y - m) / (M - m) <= 1)%R).
  { intros y Hy. split.
    - apply Rmult_le_pos; [lra |]. apply Rlt_le, Rinv_0_lt_compat. lra.
    - apply (Rmult_le_reg_r (M - m)); [lra |].
      unfold Rdiv. rewrite Rmult_assoc, Rinv_l by lra. lra. }
  change (?a :: map ?f (map ?g l)) with (map f (map g (x :: l))).
  rewrite !map_map. split; [| split].
  - apply Forall_map.
    eapply Forall_impl; [apply Forall_and; split; [exact Hlow | exact Hup] |].
    intros y Hy. simpl in *. by apply Hitem.
  - replace 0%R with ((m - m) / (M - m))%R by (field; lra).
    by apply (list_elem_of_fmap_2 (fun y => ((y - m) / (M - m))%R)).
  - replace 1%R with ((M - m) / (M - m))%R by (field; lra).
    by apply (list_elem_of_fmap_2 (fun y => ((y - m) / (M - m))%R)).
Qed.

Lemma sqrt_cabs_inj (z1 z2 : complex R) :
  cabs z1 <> cabs z2 -> fsqrt (cabs z1) <> fsqrt (cabs z2).
Proof.
  intros Hne Heq. apply Hne. simpl in Heq.
  apply sqrt_inj; [apply cabs_nonneg | apply cabs_nonneg | done].
Qed.

Variable make_stft_features : ndarray R -> R -> ndarray (complex R).
Variable phase_of : ndarray (complex R) -> ndarray R.

(** In exact arithmetic, the features [featurize_spectrogram] computes from a
    spectrogram with two items of different magnitude lie in [0, 1]; 0 and 1
    are both attained, and the scalars returned with them are the least and
    the greatest square-root magnitude. *)
Theorem featurize_spectrogram_range (spectrogram : ndarray (complex R)) z1 z2 :
  z1 ∈ data spectrogram -> z2 ∈ data spectrogram -> cabs z1 <> cabs z2 ->
  exists X_input X_max X_min,
    featurize_spectrogram phase_of spectrogram
    = Ok (X_input, phase_of spectrogram, X_max, X_min) /\
    shape X_input = shape spectrogram /\
    (X_min < X_max)%R /\
    Forall (fun z => (X_min <= sqrt (cabs z) <= X_max)%R) (data spectrogram) /\
    Forall (fun x => (0 <= x <= 1)%R) (data X_input) /\
    0%R ∈ data X_input /\ 1%R ∈ data X_input.
Proof.
  intros H1 H2 Hne.
  destruct (min_max_scaling_range (np_map fsqrt (np_map cabs spectrogram))
              (fsqrt (cabs z1)) (fsqrt (cabs z2)))
    as (M & m & HM & Hm & HmM & Hs & Hr & H0 & H1').
  { cbn [np_map data].
    by apply (list_elem_of_fmap_2 fsqrt), (list_elem_of_fmap_2 cabs). }
  { cbn [np_map data].
    by apply (list_elem_of_fmap_2 fsqrt), (list_elem_of_fmap_2 cabs). }
  { by apply sqrt_cabs_inj. }
  unfold featurize_spectrogram. rewrite HM, Hm. cbn [mbind Res_bind].
  do 3 eexists. split; [reflexivity |]. split; [done |]. split; [done |].
  split; [| done].
  unfold np_max, np_min in HM, Hm. simpl in HM, Hm.
  destruct (data spectrogram) as [|z l]; [done |]. simpl in HM, Hm.
  injection HM as <-. injection Hm as <-.
  destruct (fold_minimum_real (map fsqrt (map cabs l)) (sqrt (cabs z)))
    as [_ Hlow].
  destruct (fold_maximum_real (map fsqrt (map cabs l)) (sqrt (cabs z)))
    as [_ Hup].
  change (?a :: map fsqrt (map cabs l))
    with (map fsqrt (map cabs (z :: l))) in Hlow, Hup.
  rewrite !Forall_map in Hlow, Hup.
  eapply Forall_impl; [apply Forall_and; split; [exact Hlow | exact Hup] |].
  intros y Hy. simpl in *. done.
Qed.

(** The same for [preprocess_signal]. *)
Theorem preprocess_signal_range signal sample_rate z1 z2 :
  let spectrogram := make_stft_features signal sample_rate in
  z1 ∈ data spectrogram -> z2 ∈ data spectrogram -> cabs z1 <> cabs z2 ->
  exists X_in,
    preprocess_signal make_stft_features signal sample_rate
    = Ok (spectrogram, X_in) /\
    shape X_in = shape spectrogram /\
    Forall (fun x => (0 <= x <= 1)%R) (data X_in) /\
    0%R ∈ data X_in /\ 1%R ∈ data X_in.
Proof.
  intros spectrogram H1 H2 Hne.
  destruct (min_max_scaling_range (np_map fsqrt (np_map cabs spectrogram))
              (fsqrt (cabs z1)) (fsqrt (cabs z2)))
    as (M & m & HM & Hm & HmM & Hs & Hr & H0 & H1').
  { cbn [np_map data].
    by apply (list_elem_of_fmap_2 fsqrt), (list_elem_of_fmap_2 cabs). }
  { cbn [np_map data].
    by apply (list_elem_of_fmap_2 fsqrt), (list_elem_of_fmap_2 cabs). }
  { by apply sqrt_cabs_inj. }
  unfold preprocess_signal. fold spectrogram. rewrite HM, Hm.
  cbn [mbind Res_bind]. eexists. split; [reflexivity |]. done.
Qed.
End ScalingReal.


(** ** A NaN in the spectrogram *)

Section NaN.
Implicit Types (x y : B64.t) (l : list B64.t).

Lemma isnan_eq x : B64.isnan x = true -> x = B64.nan.
Proof. by destruct x. Qed.

Lemma maximum_nan_l y : maximum B64.nan y = B64.nan.
Proof. unfold maximum. simpl. by destruct y. Qed.

Lemma maximum_nan_r x : maximum x B64.nan = B64.nan.
Proof. unfold maximum. simpl. by destruct x. Qed.

Lemma minimum_nan_l y : minimum B64.nan y = B64.nan.
Proof. unfold minimum. simpl. by destruct y. Qed.

Lemma minimum_nan_r x : minimum x B64.nan = B64.nan.
Proof. unfold minimum. simpl. by destruct x. Qed.

Lemma fold_maximum_nan l x :
  B64.nan ∈ x :: l -> fold_left maximum l x = B64.nan.
Proof.
  revert x. induction l as [|a l IH]; intros x Hin; simpl.
  - by apply list_elem_of_singleton in Hin.
  - apply IH. apply elem_of_cons in Hin as [<- | Hin].
    + rewrite maximum_nan_l. apply list_elem_of_here.
    + apply elem_of_cons in Hin as [<- | Hin].
      * rewrite maximum_nan_r. apply list_elem_of_here.
      * by apply list_elem_of_further.
Qed.

Lemma fold_minimum_nan l x :
  B64.nan ∈ x :: l -> fold_left minimum l x = B64.nan.
Proof.
  revert x. induction l as [|a l IH]; intros x Hin; simpl.
  - by apply list_elem_of_singleton in Hin.
  - apply IH. apply elem_of_cons in Hin as [<- | Hin].
    + rewrite minimum_nan_l. apply list_elem_of_here.
    + apply elem_of_cons in Hin as [<- | Hin].
      * rewrite minimum_nan_r. apply list_elem_of_here.
      * by apply list_elem_of_further.
Qed.

Lemma B64_sub_nan_r x : B64.sub x B64.nan = B64.nan.
Proof. by destruct x. Qed.

(** One NaN item makes the minimum, the maximum and every scaled item NaN. *)
Lemma min_max_scaling_nan (X : ndarray B64.t) :
  B64.nan ∈ data X ->
  np_max X = Ok B64.nan /\ np_min X = Ok B64.nan /\
  np_map (fun x => fdiv x (fsub B64.nan B64.nan))
         (np_map (fun x => fsub x B64.nan) X)
  = np_map (fun _ => B64.nan) X.
Proof.
  intros Hin. unfold np_max, np_min, np_map.
  destruct X as [s [|x l]]; simpl in *; [by apply elem_of_nil in Hin |].
  rewrite fold_maximum_nan, fold_minimum_nan by done.
  split; [done |]. split; [done |]. f_equal.
  change (@fdiv _ binary64) with B64.div.
  change (@fsub _ binary64) with B64.sub.
  rewrite B64_sub_nan_r, B64_div_nan_l. f_equal.
  rewrite map_map. apply map_ext. intros y.
  by rewrite B64_sub_nan_r, B64_div_nan_l.
Qed.

Context `{NumLib B64.t}.

(** A single item whose square-root magnitude is NaN makes every feature
    NaN, in both normalisations: [min] and [max] propagate it, and so do the
    subtraction and the division. *)
Theorem normalization_nan_spreads
    (make_stft_features : ndarray B64.t -> B64.t -> ndarray (complex B64.t))
    (phase_of : ndarray (complex B64.t) -> ndarray B64.t)
    signal sample_rate z :
  let spectrogram := make_stft_features signal sample_rate in
  z ∈ data spectrogram -> B64.isnan (fsqrt (cabs z)) = true ->
  preprocess_signal make_stft_features signal sample_rate
  = Ok (spectrogram, np_map (fun _ => B64.nan) spectrogram)
  /\ featurize_spectrogram phase_of spectrogram
     = Ok (np_map (fun _ => B64.nan) spectrogram, phase_of spectrogram,
           B64.nan, B64.nan).
Proof.
  intros spectrogram Hz Hnan. apply isnan_eq in Hnan.
  destruct (min_max_scaling_nan (np_map fsqrt (np_map cabs spectrogram)))
    as (HM & Hm & Hall).
  { cbn [np_map data]. rewrite <- Hnan.
    by apply (list_elem_of_fmap_2 fsqrt), (list_elem_of_fmap_2 cabs). }
  unfold preprocess_signal, featurize_spectrogram.
  fold spectrogram. rewrite HM, Hm. cbn [mbind Res_bind].
  rewrite Hall. unfold np_map. simpl. by rewrite !map_map.
Qed.
End NaN.

(** ** Standardised waveforms *)

Section Standardise.
Implicit Types (l : list R) (c x : R).

Lemma add_all_cons x l : add_all (x :: l) = (x + add_all l)%R.
Proof.
  unfold add_all. simpl. rewrite fold_left_Rplus_from.
  rewrite Rplus_0_l. done.
Qed.

Lemma add_all_shift c l :
  add_all (map (fun x => fsub x c) l)
  = (add_all l - INR (length l) * c)%R.
Proof.
  induction l as [|x l IH].
  - unfold add_all. simpl. lra.
  - cbn [map]. rewrite !add_all_cons, IH.
    change (length (x :: l)) with (S (length l)). rewrite S_INR.
    simpl. lra.
Qed.

Lemma add_all_scale (f : R -> R) c l :
  add_all (map (fun x => (f x / c)%R) l) = (add_all (map f l) / c)%R.
Proof.
  induction l as [|x l IH].
  - unfold add_all. simpl. unfold Rdiv. lra.
  - cbn [map]. rewrite !add_all_cons, IH. unfold Rdiv. lra.
Qed.

(** In exact arithmetic, a waveform whose standard deviation is not zero
    comes out of the normalisation of [separate_sources] with mean 0 and
    standard deviation 1. *)
Theorem normalize_waveform_standardizes (waveform : ndarray R) :
  np_std waveform <> 0%R ->
  let normalized := normalize_waveform waveform in
  shape normalized = shape waveform /\
  np_mean normalized = 0%R /\ np_std normalized = 1%R.
Proof.
  intros Hsd normalized. split; [done |].
  unfold normalized, normalize_waveform, np_std, np_mean, np_map, square
    in *.
  rewrite !np_add_reduce_real in *.
  cbn [data] in *. rewrite !length_map in *. rewrite !map_map in *.
  simpl in *.
  set (l := data waveform) in *. set (n := INR (length l)) in *.
  set (mu := (add_all l / n)%R) in *.
  set (v := (add_all (map (fun x => ((x - mu) * (x - mu))%R) l) / n)%R) in *.
  assert (Hn : n <> 0%R).
  { intros Hn. apply Hsd. unfold v. rewrite Hn.
    unfold Rdiv. rewrite Rinv_0, Rmult_0_r. apply sqrt_0. }
  assert (Hv : (0 < v)%R).
  { destruct (Rlt_le_dec 0 v) as [? | Hle]; [done |].
    exfalso. apply Hsd. by apply sqrt_neg_0. }
  assert (Hsq : (sqrt v * sqrt v = v)%R) by (apply sqrt_sqrt; lra).
  assert (Hmean :
    (add_all (map (fun x => (x - mu) / sqrt v) l) / n = 0)%R).
  { rewrite (add_all_scale (fun x => (x - mu)%R)).
    pose proof (add_all_shift mu l) as Hshift. simpl in Hshift.
    rewrite Hshift. fold n. unfold mu. field. done. }
  split; [exact Hmean |].
  rewrite Hmean.
  rewrite (map_ext _ (fun x => ((x - mu) * (x - mu) / v)%R)).
  - rewrite (add_all_scale (fun x => ((x - mu) * (x - mu))%R)).
    assert (Hsum : add_all (map (fun x => ((x - mu) * (x - mu))%R) l)
                   = (v * n)%R) by (unfold v; field; done).
    rewrite Hsum.
    replace (v * n / v / n)%R with 1%R by (field; lra).
    apply sqrt_1.
  - intros x. rewrite <- Hsq at 3. field. done.
Qed.
End Standardise.


(** ** [process_signal] and [clustering_separate] *)

Section Pipeline.
Context {A : Type} `{Float64 A} `{NumLib A} `{KMeansLib A} `{!KMeansSound A}
        `{Model A}.
Variable make_stft_features : ndarray A -> A -> ndarray (complex A).
Variable istft : ndarray (complex A) -> A -> A -> ndarray A.
Variable undo_preemphasis : ndarray A -> ndarray A.

Lemma preprocess_signal_Ok signal sample_rate :
  let spectrogram := make_stft_features signal sample_rate in
  data spectrogram <> [] ->
  exists X_in,
    preprocess_signal make_stft_features signal sample_rate
    = Ok (spectrogram, X_in) /\
    shape X_in = shape spectrogram /\
    length (data X_in) = length (data spectrogram).
Proof.
  intros spectrogram Hne. unfold preprocess_signal, np_min, np_max.
  fold spectrogram. cbn [np_map data].
  destruct (data spectrogram) as [|z l] eqn:Hd; [done |].
  cbn [map mbind Res_bind]. eexists. split; [reflexivity |].
  split; [done |]. unfold np_map. cbn [data].
  rewrite !length_map. by rewrite ?Hd.
Qed.

(** On a spectrogram that is a non-empty (T, F) matrix, [process_signal]
    returns the spectrogram as it is, with what the model's [get_vectors]
    makes of the normalised features presented as one batch element of
    shape (1, T, F). *)
Theorem process_signal_feeds_model signal sample_rate T F :
  let spectrogram := make_stft_features signal sample_rate in
  shape spectrogram = [T; F] -> data spectrogram <> [] ->
  exists X_in,
    preprocess_signal make_stft_features signal sample_rate
    = Ok (spectrogram, X_in) /\
    process_signal make_stft_features signal sample_rate
    = Ok (spectrogram, get_vectors (Nd [1; T; F] (data X_in))).
Proof.
  intros spectrogram Hs Hne.
  destruct (preprocess_signal_Ok signal sample_rate Hne)
    as (X_in & HX & HXs & _).
  exists X_in. split; [done |].
  unfold process_signal. rewrite HX. cbn [mbind Res_bind].
  fold spectrogram in HXs. rewrite HXs, Hs.
  cbn [lookup list_lookup from_option].
  cbn [mbind Res_bind]. unfold np_reshape. rewrite HXs, Hs.
  rewrite decide_True by (simpl; lia). done.
Qed.

(** A spectrogram with items but fewer than two axes cannot be presented to
    the model: reading its second dimension raises [IndexError]. *)
Theorem process_signal_needs_matrix signal sample_rate :
  let spectrogram := make_stft_features signal sample_rate in
  data spectrogram <> [] -> length (shape spectrogram) < 2 ->
  process_signal make_stft_features signal sample_rate = Raise IndexError.
Proof.
  intros spectrogram Hne Hlen.
  destruct (preprocess_signal_Ok signal sample_rate Hne)
    as (X_in & HX & HXs & _).
  unfold process_signal. rewrite HX. cbn [mbind Res_bind].
  fold spectrogram in HXs. rewrite HXs.
  destruct (shape spectrogram) as [|d0 [|d1 s]]; simpl in *; (done || lia).
Qed.

(** The waveforms of [clustering_separate]: when the first stage returns a
    (T, F) spectrogram with (B, T, F, E) embeddings, the fit succeeds and the
    inverse STFT gives waveforms of one shape, the result stacks, in source
    order, the un-emphasised inverse STFT of every masked spectrogram. *)
Theorem clustering_separate_stacks signal sample_rate
    (spectrogram : ndarray (complex A)) (vectors : ndarray A)
    B T F E k b g fit rs' s :
  let rate := of_nat (100 * 100) in
  let overlap := fdiv (of_nat 256) (of_nat (100 * 100)) in
  process_signal make_stft_features signal sample_rate
  = Ok (spectrogram, vectors) ->
  shape spectrogram = [T; F] -> wf spectrogram ->
  shape vectors = [B; T; F; E] -> wf vectors -> 1 <= B ->
  k_means k (RandomState_of_seed 0)
          (Nd [T * F; E] (take (T * F * E) (data vectors))) = (Ok fit, rs') ->
  (forall c, shape c = [T; F] ->
             shape (undo_preemphasis (istft c rate overlap)) = s) ->
  exists masks masked_specs,
    get_cluster_masks vectors k b g = (Ok masks, g) /\
    apply_masks spectrogram masks = Ok masked_specs /\
    length masked_specs = k /\
    clustering_separate make_stft_features istft undo_preemphasis
      signal sample_rate k b g
    = (Ok (Nd (k :: s)
              (flat_map
                 (fun masked =>
                    data (undo_preemphasis (istft masked rate overlap)))
                 masked_specs)),
       g).
Proof.
  intros rate overlap Hproc HS HwS Hs Hwf HB Hfit Hwave.
  destruct (k_means_sound k _ _
              (Nd [T * F; E] (take (T * F * E) (data vectors)))
              (T * F) E _ eq_refl
              (wf_clustering_input _ _ _ _ _ Hs Hwf HB) Hfit)
    as (Hk & _).
  destruct (get_cluster_masks_shape vectors B T F E k b g
              fit rs' Hs Hwf HB Hfit) as (masks & Hmasks & Hms & Hmwf).
  pose proof (apply_masks_closed_form spectrogram masks T F k HS HwS Hms Hmwf)
    as Happly.
  exists masks. eexists. split; [done |]. split; [exact Happly |].
  split; [by rewrite length_map, length_seq |].
  unfold clustering_separate. rewrite Hproc, Hmasks.
  cbn [mbind Res_bind]. rewrite Happly. cbn [mbind Res_bind].
  set (masked := fun i => Nd [T; F] _).
  rewrite (mapM_Ok_intro _
             (fun i => undo_preemphasis (istft (masked i) rate overlap))).
  - cbn [mbind Res_bind].
    rewrite (np_stack_Ok _ s).
    + rewrite length_map, length_seq. by rewrite !flat_map_map.
    + destruct k; [lia | done].
    + apply Forall_map, Forall_forall. intros i _. by apply Hwave.
  - apply Forall_forall. intros i Hi.
    apply list_elem_of_In, in_seq in Hi.
    rewrite list_lookup_fmap, lookup_seq_lt by lia. done.
Qed.
End Pipeline.


(** ** [separate_sources] *)

Section SeparateSources.
Context {A : Type} `{Float64 A} `{NumLib A} `{Model A}.
Variable Path : Type.
Variable sf_read : Path -> ndarray A * A.
Variable make_stft_features :
  ndarray A -> A -> A -> A -> A -> nat -> ndarray (complex A).
Variable phase_of : ndarray (complex A) -> ndarray A.
Variable cis : A -> complex A.
Variable istft : ndarray (complex A) -> A -> A -> nat -> ndarray A.
Variable undo_preemphasis : ndarray A -> ndarray A.

Lemma featurize_spectrogram_shape (spectrogram : ndarray (complex A))
    X_input phases X_max X_min :
  featurize_spectrogram phase_of spectrogram
  = Ok (X_input, phases, X_max, X_min) ->
  shape X_input = shape spectrogram /\ phases = phase_of spectrogram.
Proof.
  unfold featurize_spectrogram. intros Hf.
  apply bind_Ok in Hf as (M & _ & Hf).
  apply bind_Ok in Hf as (m & _ & Hf).
  by injection Hf as <- <- _ _.
Qed.

(** Up to the call of the model. *)
Lemma separate_sources_unfold signal_path sample_rate window_size overlap
    signal rate X_input phases X_max X_min T F :
  let spectrogram :=
    make_stft_features signal rate sample_rate window_size overlap 500 in
  let y_output :=
    undo_normalization (predict (Nd [1; T; F; 1] (data X_input)))
                       X_max X_min in
  sf_read signal_path = (signal, rate) ->
  shape spectrogram = [T; F] ->
  featurize_spectrogram phase_of spectrogram
  = Ok (X_input, phases, X_max, X_min) ->
  separate_sources Path sf_read make_stft_features phase_of cis istft
    undo_preemphasis signal_path sample_rate window_size overlap
  = (n ← from_option (shape y_output !! 3) IndexError;
     source_list ←
       mapM (fun i =>
               y0 ← index0 y_output;
               yi ← slice_axis2 y0 i;
               complex_spectrogram ←
                 np_binop mask_mul yi (np_map cis phases);
               let waveform :=
                 istft complex_spectrogram sample_rate overlap 500 in
               let waveform := undo_preemphasis waveform in
               Ok (normalize_waveform waveform))
            (seq 0 n);
     np_stack source_list).
Proof.
  intros spectrogram y_output Hread Hs Hfeat.
  destruct (featurize_spectrogram_shape _ _ _ _ _ Hfeat) as [HXs _].
  unfold separate_sources. rewrite Hread. fold spectrogram.
  rewrite Hfeat. cbn [mbind Res_bind].
  fold spectrogram in HXs. rewrite HXs, Hs.
  cbn [lookup list_lookup from_option mbind Res_bind].
  unfold np_reshape. rewrite HXs, Hs.
  rewrite decide_True by (simpl; lia). cbn [mbind Res_bind]. done.
Qed.

(** The result of [separate_sources]: one row per output channel of the
    model, in channel order; row [i] is the standardised, un-emphasised
    inverse STFT of the spectrogram whose item at (t, f) is the denormalised
    output [y_output[0, t, f, i]] times [exp(1j * phases[t, f])]. *)
Theorem separate_sources_stacks signal_path sample_rate window_size overlap
    signal rate X_input phases X_max X_min B T F n s :
  let spectrogram :=
    make_stft_features signal rate sample_rate window_size overlap 500 in
  let y_output :=
    undo_normalization (predict (Nd [1; T; F; 1] (data X_input)))
                       X_max X_min in
  sf_read signal_path = (signal, rate) ->
  shape spectrogram = [T; F] ->
  featurize_spectrogram phase_of spectrogram
  = Ok (X_input, phases, X_max, X_min) ->
  shape y_output = [B; T; F; n] -> wf y_output -> 1 <= B -> 1 <= n ->
  shape phases = [T; F] -> wf phases ->
  (forall c, shape c = [T; F] ->
             shape (undo_preemphasis (istft c sample_rate overlap 500)) = s) ->
  exists channels,
    length channels = n /\
    (forall i, i < n ->
       exists c, channels !! i = Some c /\ shape c = [T; F] /\
         forall t f, t < T -> f < F ->
           exists y p,
             item y_output [0; t; f; i] = Some y /\
             item phases [t; f] = Some p /\
             item c [t; f] = Some (mask_mul y (cis p))) /\
    separate_sources Path sf_read make_stft_features phase_of cis istft
      undo_preemphasis signal_path sample_rate window_size overlap
    = Ok (Nd (n :: s)
             (flat_map
                (fun c =>
                   data (normalize_waveform
                           (undo_preemphasis
                              (istft c sample_rate overlap 500))))
                channels)).
Proof.
  intros spectrogram y_output Hread Hs Hfeat Hys Hywf HB Hn Hps Hpwf Hwave.
  pose (channel := fun i =>
          Nd [T; F]
             (zip_with mask_mul
                (flat_map (fun blk => take 1 (drop i blk))
                          (chunks n (T * F) (take (T * F * n) (data y_output))))
                (map cis (data phases)))).
  unfold wf in Hywf, Hpwf. rewrite Hys in Hywf. rewrite Hps in Hpwf.
  change (size [B; T; F; n]) with (B * (T * (F * (n * 1)))) in Hywf.
  change (size [T; F]) with (T * (F * 1)) in Hpwf.
  assert (Hb : T * F * n <= length (data y_output)).
  { rewrite Hywf.
    replace (B * (T * (F * (n * 1)))) with (B * (T * F * n)) by lia. nia. }
  assert (Hy0 : length (take (T * F * n) (data y_output)) = T * F * n).
  { rewrite length_take. lia. }
  assert (Hcol : forall i, i < n ->
            length (flat_map (fun blk => take 1 (drop i blk))
                      (chunks n (T * F) (take (T * F * n) (data y_output))))
            = T * F)
    by (intros i Hi; apply column_length; lia).
  exists (map channel (seq 0 n)).
  split; [by rewrite length_map, length_seq |]. split.
  - clearbody y_output. intros i Hi. exists (channel i).
    split; [by rewrite list_lookup_fmap, lookup_seq_lt by done |].
    split; [done |]. intros t f Ht Hf.
    assert (Hp : t * F + f < T * F) by nia.
    assert (Hpk : (t * F + f) * n + i < T * F * n) by nia.
    destruct (lookup_lt_is_Some_2 (data y_output) ((t * F + f) * n + i))
      as [y Hy]; [lia |].
    destruct (lookup_lt_is_Some_2 (data phases) (t * F + f)) as [p Hph];
      [lia |].
    exists y, p. unfold item. rewrite Hys, Hps. simpl.
    rewrite !decide_True by (done || lia). simpl.
    replace (t * (F * (n * 1)) + (f * (n * 1) + (i * 1 + 0)))
      with ((t * F + f) * n + i) by lia.
    replace (t * (F * 1) + (f * 1 + 0)) with (t * F + f) by lia.
    split; [done |]. split; [done |].
    rewrite lookup_zip_with, column_lookup by (done || lia).
    rewrite lookup_take_lt by lia. rewrite Hy. simpl.
    by rewrite list_lookup_fmap, Hph.
  - rewrite (separate_sources_unfold _ _ _ _ _ _ _ _ _ _ T F Hread Hs Hfeat).
    fold y_output. rewrite Hys.
    cbn [lookup list_lookup from_option mbind Res_bind].
    rewrite (mapM_Ok_intro _
               (fun i => normalize_waveform
                           (undo_preemphasis
                              (istft (channel i) sample_rate overlap 500)))).
    + cbn [mbind Res_bind]. rewrite (np_stack_Ok _ s).
      * rewrite length_map, length_seq. by rewrite !flat_map_map.
      * destruct n; [lia | done].
      * apply Forall_map, Forall_forall. intros i _.
        unfold normalize_waveform, np_map. cbn [shape]. by apply Hwave.
    + apply Forall_forall. intros i Hi.
      apply list_elem_of_In, in_seq in Hi.
      rewrite (index0_Ok y_output B [T; F; n] Hys) by lia.
      cbn [mbind Res_bind]. rewrite size_3.
      rewrite slice_axis2_3d by lia. cbn [mbind Res_bind].
      rewrite np_binop_same_shape.
      * done.
      * unfold np_map. cbn [shape]. by rewrite Hps.
      * unfold wf. cbn [shape data]. rewrite Hcol by lia. simpl. lia.
      * unfold wf, np_map. cbn [shape data].
        rewrite length_map, Hps. simpl. lia.
Qed.

(** A model whose output has fewer than four axes: reading the channel
    axis raises [IndexError]. *)
Theorem separate_sources_needs_channel_axis signal_path sample_rate
    window_size overlap signal rate X_input phases X_max X_min T F :
  let spectrogram :=
    make_stft_features signal rate sample_rate window_size overlap 500 in
  let y := predict (Nd [1; T; F; 1] (data X_input)) in
  sf_read signal_path = (signal, rate) ->
  shape spectrogram = [T; F] ->
  featurize_spectrogram phase_of spectrogram
  = Ok (X_input, phases, X_max, X_min) ->
  length (shape y) < 4 ->
  separate_sources Path sf_read make_stft_features phase_of cis istft
    undo_preemphasis signal_path sample_rate window_size overlap
  = Raise IndexError.
Proof.
  intros spectrogram y Hread Hs Hfeat Hlen.
  rewrite (separate_sources_unfold _ _ _ _ _ _ _ _ _ _ T F Hread Hs Hfeat).
  unfold undo_normalization, np_map. cbn [shape]. fold y.
  by rewrite (lookup_ge_None_2 (shape y) 3) by lia.
Qed.

(** A model whose output has no channel: nothing is reconstructed and
    [np.stack] raises [ValueError] on the empty list. *)
Theorem separate_sources_no_channels signal_path sample_rate
    window_size overlap signal rate X_input phases X_max X_min T F :
  let spectrogram :=
    make_stft_features signal rate sample_rate window_size overlap 500 in
  let y := predict (Nd [1; T; F; 1] (data X_input)) in
  sf_read signal_path = (signal, rate) ->
  shape spectrogram = [T; F] ->
  featurize_spectrogram phase_of spectrogram
  = Ok (X_input, phases, X_max, X_min) ->
  shape y !! 3 = Some 0 ->
  separate_sources Path sf_read make_stft_features phase_of cis istft
    undo_preemphasis signal_path sample_rate window_size overlap
  = Raise ValueError.
Proof.
  intros spectrogram y Hread Hs Hfeat Hn.
  rewrite (separate_sources_unfold _ _ _ _ _ _ _ _ _ _ T F Hread Hs Hfeat).
  unfold undo_normalization, np_map. cbn [shape]. fold y.
  by rewrite Hn.
Qed.
End SeparateSources.

(** ** An empty spectrogram *)

Section EmptyClustering.
Context {A : Type} `{Float64 A} `{NumLib A} `{KMeansLib A} `{Model A}.
Variable make_stft_features : ndarray A -> A -> ndarray (complex A).
Variable istft : ndarray (complex A) -> A -> A -> ndarray A.
Variable undo_preemphasis : ndarray A -> ndarray A.

(** A signal whose STFT has no items stops [clustering_separate] at the
    normalisation: [ValueError], before the model or the clustering is
    reached. *)
Theorem clustering_separate_empty signal sample_rate num_sources b g :
  data (make_stft_features signal sample_rate) = [] ->
  clustering_separate make_stft_features istft undo_preemphasis
    signal sample_rate num_sources b g
  = (Raise ValueError, g).
Proof.
  intros Hd. unfold clustering_separate, process_signal, preprocess_signal.
  unfold np_min. cbn [np_map data]. by rewrite Hd.
Qed.
End EmptyClustering.

Section EmptyDemo.
Context {A : Type} `{Float64 A} `{NumLib A} `{Model A}.
Variable Path : Type.
Variable sf_read : Path -> ndarray A * A.
Variable make_stft_features :
  ndarray A -> A -> A -> A -> A -> nat -> ndarray (complex A).
Variable phase_of : ndarray (complex A) -> ndarray A.
Variable cis : A -> complex A.
Variable istft : ndarray (complex A) -> A -> A -> nat -> ndarray A.
Variable undo_preemphasis : ndarray A -> ndarray A.

(** The same for [separate_sources]: the model is never called. *)
Theorem separate_sources_empty signal_path sample_rate window_size overlap
    signal rate :
  sf_read signal_path = (signal, rate) ->
  data (make_stft_features signal rate sample_rate window_size overlap 500)
  = [] ->
  separate_sources Path sf_read make_stft_features phase_of cis istft
    undo_preemphasis signal_path sample_rate window_size overlap
  = Raise ValueError.
Proof.
  intros Hread Hd. unfold separate_sources. rewrite Hread.
  unfold featurize_spectrogram, np_max. cbn [np_map data]. by rewrite Hd.
Qed.
End EmptyDemo.

(** ** Masks between 0 and 1 *)

Section Attenuation.
Implicit Types (m : R) (z : complex R).

Lemma cabs_mask_mul m z :
  (0 <= m)%R -> cabs (mask_mul m z) = (m * cabs z)%R.
Proof.
  intros Hm. unfold cabs, mask_mul, cmul, of_real. simpl.
  replace ((m * re z - 0 * im z) * (m * re z - 0 * im z)
           + (m * im z + 0 * re z) * (m * im z + 0 * re z))%R
    with ((m * m) * (re z * re z + im z * im z))%R by ring.
  rewrite sqrt_mult_alt by nra. by rewrite sqrt_square.
Qed.

(** In exact arithmetic, masks with items in [0, 1] never amplify: every
    item of every masked spectrogram is at most as large, in magnitude, as
    the item of the input at the same place. *)
Theorem apply_masks_attenuates (spectrogram : ndarray (complex R))
    (masks : ndarray R) T F k :
  shape spectrogram = [T; F] -> wf spectrogram ->
  shape masks = [T; F; k] -> wf masks ->
  Forall (fun m => (0 <= m <= 1)%R) (data masks) ->
  exists outs,
    apply_masks spectrogram masks = Ok outs /\ length outs = k /\
    Forall (fun o =>
              shape o = [T; F] /\
              Forall2 (fun u z => (cabs u <= cabs z)%R)
                      (data o) (data spectrogram))
           outs.
Proof.
  intros HS HwS HM HwM Hrange.
  eexists. split; [by eapply apply_masks_closed_form |].
  split; [by rewrite length_map, length_seq |].
  apply Forall_map, Forall_forall. intros i Hi.
  apply list_elem_of_In, in_seq in Hi. split; [done |]. cbn [data].
  unfold wf in *. rewrite HS, HM in *. simpl in HwS, HwM.
  assert (Hcol : length (flat_map (fun blk => take 1 (drop i blk))
                          (chunks k (T * F) (data masks))) = T * F)
    by (apply column_length; lia).
  apply Forall2_same_length_lookup_2.
  - rewrite length_zip_with. lia.
  - intros p u z Hu Hz.
    apply lookup_zip_with_Some in Hu as (m & z' & -> & Hm & Hz').
    rewrite Hz in Hz'. injection Hz' as <-.
    apply lookup_lt_Some in Hz as Hp.
    rewrite column_lookup in Hm by lia.
    pose proof (proj1 (Forall_lookup _ _) Hrange _ _ Hm) as [Hm0 Hm1].
    rewrite cabs_mask_mul by done.
    pose proof (cabs_nonneg z). nra.
Qed.
End Attenuation.

(** ** The example clustering keeps the contract *)

Lemma round_robin_sound {A} : @KMeansSound A round_robin.
Proof.
  constructor. intros k rs rs' X n e fit Hs Hwf. simpl.
  unfold round_robin_k_means. rewrite Hs.
  destruct (decide (1 <= k <= n /\ 1 <= e)) as [[[Hk Hn] He]|]; [| done].
  intros [= <- _]. simpl.
  unfold wf in *. rewrite Hs in Hwf. simpl in Hwf.
  split; [lia |]. split; [by rewrite length_map, length_seq |].
  split; [| split; [done |]].
  - apply Forall_map, Forall_forall. intros i _. simpl.
    apply Nat.mod_upper_bound. lia.
  - unfold wf. simpl. rewrite length_take. nia.
Qed.

(** With [random_state=None] the fit would follow numpy's global generator:
    the seed in [get_cluster_masks] is what makes it repeatable. *)
Lemma unseeded_fit_follows_generator :
  fst (KMeans_fit (H1:=round_robin) 2 None
         (Nd [2; 1] [B64.of_Z 1; B64.of_Z 2]) 0)
  <> fst (KMeans_fit (H1:=round_robin) 2 None
            (Nd [2; 1] [B64.of_Z 1; B64.of_Z 2]) 1).
Proof. vm_compute. discriminate. Qed.

(** ** The theorems at the example inputs *)

(** C1 at the silent spectrogram. *)
Lemma normalization_degenerate_silent :
  preprocess_signal (H0:=binary64_lib) silent_stft (Nd [0] []) B64.zero
  = Ok (silent_spectrogram, np_map (fun _ => B64.nan) silent_spectrogram)
  /\ featurize_spectrogram (H0:=binary64_lib) zero_phase silent_spectrogram
     = Ok (np_map (fun _ => B64.nan) silent_spectrogram,
           zero_phase silent_spectrogram, B64.zero, B64.zero).
Proof.
  apply (normalization_degenerate (H:=binary64_lib) silent_stft zero_phase
           (Nd [0] []) B64.zero B64.zero B64.zero); reflexivity.
Defined.

(** C1 fails: the normalised silent spectrogram is all NaN. *)
Lemma featurize_spectrogram_silent_nan :
  featurize_spectrogram (H0:=binary64_lib) zero_phase silent_spectrogram
  = Ok (Nd [2; 2] [B64.nan; B64.nan; B64.nan; B64.nan],
        Nd [2; 2] [B64.zero; B64.zero; B64.zero; B64.zero],
        B64.zero, B64.zero).
Proof. vm_compute. reflexivity. Qed.


(** C3 at the example spectrogram and hard mask. *)
Lemma hard_masks_reconstruct_example :
  exists outs total,
    apply_masks example_spectrogram example_hard_mask = Ok outs /\
    py_sum outs = Ok total /\
    all_equal total example_spectrogram = Ok true.
Proof.
  apply (hard_masks_reconstruct example_spectrogram example_hard_mask 1 2 2).
  - reflexivity.
  - reflexivity.
  - reflexivity.
  - reflexivity.
  - repeat constructor.
  - repeat constructor.
    + exists 0. split; [lia | reflexivity].
    + exists 1. split; [lia | reflexivity].
Defined.

(** C3 fails for a soft mask: 0.3 + 0.7 is 1.0, yet 0.3*3 + 0.7*3 is
    2.9999999999999996. *)
Lemma soft_masks_do_not_reconstruct :
  np_sum_axis mask_3_7 2 = Ok (np_full [1; 1] B64.one) /\
  exists outs total,
    apply_masks three mask_3_7 = Ok outs /\
    py_sum outs = Ok total /\
    all_equal total three = Ok false.
Proof.
  split; [vm_compute; reflexivity |].
  do 2 eexists. split; [vm_compute; reflexivity |].
  split; vm_compute; reflexivity.
Qed.

(** C4 at a (1, 3, 2) spectrogram and two sources. *)
Lemma l41_clustering_separate_shape_example :
  exists sources,
    l41_clustering_separate (H0:=binary64_lib) (H1:=round_robin)
      (H2:=identity_model) (magnitudes_time_major (H0:=binary64_lib))
      l41_spec 2 true 0
    = (Ok sources, 0) /\
    shape sources = [2; 3; 2].
Proof.
  eapply (l41_clustering_separate_shape (H0:=binary64_lib) (H1:=round_robin)
            (KMeansSound0:=round_robin_sound) (H2:=identity_model)
            (magnitudes_time_major (H0:=binary64_lib))
            l41_spec 1 2 3 1 2 true 0).
  - reflexivity.
  - reflexivity.
  - reflexivity.
  - reflexivity.
  - lia.
  - vm_compute. reflexivity.
Defined.

(** C4 fails: with F = 3, T = 2 and two sources the result has shape
    (2, 3, 2), not (num_sources, T, F) = (2, 2, 3). *)
Lemma l41_shape_is_not_time_major :
  exists sources,
    l41_clustering_separate (H0:=binary64_lib) (H1:=round_robin)
      (H2:=identity_model) (magnitudes_time_major (H0:=binary64_lib))
      l41_spec 2 true 0
    = (Ok sources, 0) /\
    shape sources = [2; 3; 2] /\ shape sources <> [2; 2; 3].
Proof.
  eexists. split; [vm_compute; reflexivity |]. split; [reflexivity | done].
Qed.

(** C5 at ten samples of 0.1, whose standard deviation is 0. *)
Lemma normalize_waveform_tenths :
  B64.is_zero (np_std tenths) = true /\
  Forall (fun x => B64.isfinite x = false)
         (data (normalize_waveform tenths)).
Proof.
  split; [vm_compute; reflexivity |].
  apply (normalize_waveform_zero_std tenths). vm_compute. reflexivity.
Defined.

(** C5 fails: the silent waveform has zero standard deviation and is
    normalised to NaN. *)
Lemma normalize_waveform_silent_nan :
  np_std silent_waveform = B64.zero /\
  normalize_waveform silent_waveform
  = Nd [4] [B64.nan; B64.nan; B64.nan; B64.nan].
Proof. split; vm_compute; reflexivity. Qed.



(** C8 at the example spectrogram and mask, in a heap that holds them at
    references 1 and 2 after another array. *)
Lemma apply_masks_spec_example :
  let h := [Float64Array silent_waveform;
            Complex128Array example_spectrogram;
            Float64Array example_hard_mask] in
  exists outs,
    apply_masks example_spectrogram example_hard_mask = Ok outs /\
    apply_masks_on 1 2 h
    = Some (Ok [3; 4], h ++ map Complex128Array outs) /\
    length outs = 2 /\
    forall i, i < 2 ->
      exists o, outs !! i = Some o /\ shape o = [1; 2] /\ wf o /\
        forall t f, t < 1 -> f < 2 ->
          exists m z,
            item example_hard_mask [t; f; i] = Some m /\
            item example_spectrogram [t; f] = Some z /\
            item o [t; f]
            = Some (Cx (B64.sub (B64.mul m (re z)) (B64.mul B64.zero (im z)))
                       (B64.add (B64.mul m (im z))
                                (B64.mul B64.zero (re z)))).
Proof.
  refine (apply_masks_spec
            [Float64Array silent_waveform;
             Complex128Array example_spectrogram;
             Float64Array example_hard_mask]
            1 2 example_spectrogram example_hard_mask 1 2 2 _ _ _ _ _ _);
    reflexivity.
Defined.

(** C9 at two batches that differ in their second element. *)
Lemma get_cluster_masks_first_batch_example :
  batch_a <> batch_b /\
  forall binary_mask,
    get_cluster_masks (H0:=binary64_lib) (H1:=round_robin)
      batch_a 2 binary_mask 0
    = get_cluster_masks (H0:=binary64_lib) (H1:=round_robin)
        batch_b 2 binary_mask 0.
Proof.
  split; [vm_compute; discriminate |].
  intros binary_mask.
  apply (get_cluster_masks_first_batch (H0:=binary64_lib) (H1:=round_robin)
           batch_a batch_b 2 binary_mask 0); reflexivity.
Defined.

(** C10 at the real spectrogram with magnitudes 0 and 1: the maximum is 1,
    the minimum is 0, and the magnitudes come back. *)
Lemma undo_normalization_inverts_example :
  exists X_input X_max X_min,
    featurize_spectrogram zero_phase real_zero_one
    = Ok (X_input, zero_phase real_zero_one, X_max, X_min) /\
    X_max <> X_min /\
    undo_normalization X_input X_max X_min = np_map cabs real_zero_one.
Proof.
  destruct (undo_normalization_inverts zero_phase real_zero_one)
    as (X & M & m & Hf & Hinv); [discriminate |].
  exists X, M, m. split; [exact Hf |].
  assert (HMm : M <> m); [| by split; [| apply Hinv]].
  unfold featurize_spectrogram, np_max, np_min in Hf.
  cbn [np_map data real_zero_one map mbind Res_bind fold_left] in Hf.
  injection Hf as _ HM Hm. subst M m.
  unfold maximum, minimum, cabs. cbn [re im lib_hypot exact_lib].
  cbn [fleb fisnan fsqrt exact orb].
  replace (0 * 0 + 0 * 0)%R with 0%R by lra.
  replace (1 * 1 + 0 * 0)%R with 1%R by lra.
  rewrite !sqrt_0, !sqrt_1, !orb_false_r. unfold Rleb.
  destruct (Rle_dec 1 0), (Rle_dec 0 1); lra.
Defined.

(** C10 fails in binary64: the magnitude 2 comes back as
    2.0000000000000004. *)
Lemma undo_normalization_rounds :
  exists X_input phases X_max X_min,
    featurize_spectrogram (H0:=binary64_lib) zero_phase zero_two
    = Ok (X_input, phases, X_max, X_min) /\
    feqb X_max X_min = false /\
    undo_normalization X_input X_max X_min
    = Nd [1; 2] [B64.zero; S754_finite false 4503599627370497 (-51)] /\
    np_map (cabs (H0:=binary64_lib)) zero_two
    = Nd [1; 2] [B64.zero; S754_finite false 4503599627370496 (-51)].
Proof.
  do 4 eexists. split; [vm_compute; reflexivity |].
  repeat split; vm_compute; reflexivity.
Qed.

(** Over the reals the soft mask (0.3, 0.7) does reconstruct 3 + 0i. *)
Lemma unit_masks_reconstruct_example :
  exists outs total,
    apply_masks real_three real_mask_3_7 = Ok outs /\
    py_sum outs = Ok total /\
    all_equal total real_three = Ok true /\
    (0 < 2 -> total = real_three).
Proof.
  apply (unit_masks_reconstruct real_three real_mask_3_7 1 1 2);
    try reflexivity.
  unfold real_mask_3_7. rewrite np_sum_axis_last.
  unfold np_full. do 2 f_equal. cbn -[np_add_reduce].
  rewrite np_add_reduce_real. unfold add_all. simpl. f_equal. lra.
Defined.


(** With one source the products of the second cell are added in pairs:
    their sum is 1, where adding them one after the other gives 0. *)
Lemma soft_masks_add_in_pairs :
  let products :=
    [B64.one; B64.of_Z (2 ^ 53); B64.one; B64.of_Z (- 2 ^ 53);
     B64.zero; B64.zero; B64.zero; B64.zero] in
  np_add_reduce products = B64.one /\ add_all products = B64.zero /\
  exists masks,
    get_cluster_masks (H0:=binary64_lib) (H1:=round_robin)
      pairwise_vectors 1 false 0 = (Ok masks, 0) /\
    item masks [0; 1; 0]
    = Some (B64.div B64.one (B64.add B64.one (B64_exp (B64.of_Z (-1))))).
Proof.
  split; [by vm_compute |]. split; [by vm_compute |].
  eexists. split; [vm_compute; reflexivity |]. by vm_compute.
Qed.

(** Ten samples of 0.1: added in pairs they have the mean 0.1 exactly, so
    the standard deviation is 0 and the normalised waveform is all NaN. *)
Lemma normalize_waveform_tenths_nan :
  np_mean tenths = B64.ratio 1 10 /\ np_std tenths = B64.zero /\
  normalize_waveform tenths = Nd [10] (replicate 10 B64.nan).
Proof. repeat split; vm_compute; reflexivity. Qed.

(** ** The outcomes and the pipelines at the example inputs *)

(** Embeddings with two axes only. *)
Lemma get_cluster_masks_bad_shape_example :
  get_cluster_masks (H0:=binary64_lib) (H1:=round_robin) flat_vectors 2 true 0
  = (Raise IndexError, 0).
Proof.
  apply (get_cluster_masks_bad_shape (H0:=binary64_lib) (H1:=round_robin)
           flat_vectors 2 true 0).
  left. simpl. lia.
Defined.

(** The binary masks of the example embeddings follow the labels
    0, 1, 0, 1. *)
Lemma binary_masks_follow_labels_example :
  exists masks,
    get_cluster_masks (H0:=binary64_lib) (H1:=round_robin)
      example_vectors 2 true 0 = (Ok masks, 0) /\
    forall t f i, t < 2 -> f < 2 -> i < 2 ->
      exists label,
        [0; 1; 0; 1] !! (t * 2 + f) = Some label /\ label < 2 /\
        item masks [t; f; i]
        = Some (if decide (label = i) then B64.one else B64.zero).
Proof.
  refine (binary_masks_follow_labels (H0:=binary64_lib) (H1:=round_robin)
            (KMeansSound0:=round_robin_sound) example_vectors 1 2 2 1 2 0
            (Fit [0; 1; 0; 1] (Nd [2; 1] [B64.of_Z 1; B64.of_Z 2])) 1
            _ _ _ _).
  - reflexivity.
  - reflexivity.
  - lia.
  - reflexivity.
Defined.

(** Asked for no cluster at all, the example clustering raises
    [ValueError], and so does [get_cluster_masks]. *)
Lemma get_cluster_masks_raises_iff_example :
  fst (get_cluster_masks (H0:=binary64_lib) (H1:=round_robin)
         example_vectors 0 false 0) = Raise ValueError <->
  fst (k_means (KMeansLib:=round_robin) 0 (RandomState_of_seed 0)
         (Nd [2 * 2; 1] (take (2 * 2 * 1) (data example_vectors))))
  = Raise ValueError.
Proof.
  apply (get_cluster_masks_raises_iff (H0:=binary64_lib) (H1:=round_robin)
           (KMeansSound0:=round_robin_sound) example_vectors 1 2 2 1 0 false 0
           ValueError).
  - reflexivity.
  - reflexivity.
  - lia.
Defined.

(** Masks with two axes only. *)
Lemma apply_masks_needs_three_axes_example :
  apply_masks example_spectrogram flat_vectors = Raise IndexError.
Proof.
  apply (apply_masks_needs_three_axes example_spectrogram flat_vectors).
  simpl. lia.
Defined.

(** Three time frames against two. *)
Lemma apply_masks_raises_iff_example :
  apply_masks tall_spectrogram square_mask = Raise ValueError <->
  ValueError = ValueError /\ 0 < 1 /\ (clash 2 3 \/ clash 2 2).
Proof.
  apply (apply_masks_raises_iff tall_spectrogram square_mask 2 2 3 2 1
           ValueError); reflexivity.
Defined.

(** The sources of the (1, 3, 2) example, item by item. *)
Lemma l41_sources_items_example :
  exists masks sources,
    get_cluster_masks (H0:=binary64_lib) (H1:=round_robin)
      (get_vectors (Model:=identity_model)
         (magnitudes_time_major (H0:=binary64_lib) l41_spec)) 2 false 0
    = (Ok masks, 0) /\
    l41_clustering_separate (H0:=binary64_lib) (H1:=round_robin)
      (H2:=identity_model) (magnitudes_time_major (H0:=binary64_lib))
      l41_spec 2 false 0
    = (Ok sources, 0) /\
    shape sources = [2; 3; 2] /\
    forall i f t, i < 2 -> f < 3 -> t < 2 ->
      exists m z,
        item masks [t; f; i] = Some m /\ item l41_spec [0; f; t] = Some z /\
        item sources [i; f; t] = Some (mask_mul m z).
Proof.
  refine (l41_sources_items (H0:=binary64_lib) (H1:=round_robin)
            (KMeansSound0:=round_robin_sound) (H2:=identity_model)
            (magnitudes_time_major (H0:=binary64_lib))
            l41_spec 1 1 2 3 1 2 false 0 _ _ _ _ _ _ _ _ _).
  - reflexivity.
  - reflexivity.
  - lia.
  - reflexivity.
  - reflexivity.
  - lia.
  - vm_compute. reflexivity.
Defined.

(** With binary masks every cell of the example goes to one source. *)
Lemma l41_binary_selects_example :
  exists sources,
    l41_clustering_separate (H0:=binary64_lib) (H1:=round_robin)
      (H2:=identity_model) (magnitudes_time_major (H0:=binary64_lib))
      l41_spec 2 true 0
    = (Ok sources, 0) /\
    forall i f t, i < 2 -> f < 3 -> t < 2 ->
      exists label z u,
        [0; 1; 0; 1; 0; 1] !! (t * 3 + f) = Some label /\
        item l41_spec [0; f; t] = Some z /\
        item sources [i; f; t] = Some u /\
        if decide (label = i) then csame u z else czeroish u.
Proof.
  refine (l41_binary_selects (H:=binary64_lib) (H0:=round_robin)
            (KMeansSound0:=round_robin_sound) (H1:=identity_model)
            (magnitudes_time_major (H0:=binary64_lib))
            l41_spec 1 1 2 3 1 2 0
            (Fit [0; 1; 0; 1; 0; 1] (Nd [2; 1] [B64.of_Z 1; B64.of_Z 3])) 1
            _ _ _ _ _ _ _ _).
  - reflexivity.
  - reflexivity.
  - lia.
  - repeat constructor.
  - reflexivity.
  - reflexivity.
  - lia.
  - vm_compute. reflexivity.
Defined.

(** Five frames of embeddings against a spectrogram of two. *)
Lemma l41_shape_mismatch_example :
  l41_clustering_separate (H0:=binary64_lib) (H1:=round_robin)
    (H2:=identity_model) five_frames l41_spec 2 true 0
  = (Raise ValueError, 0).
Proof.
  refine (l41_shape_mismatch (H0:=binary64_lib) (H1:=round_robin)
            (KMeansSound0:=round_robin_sound) (H2:=identity_model)
            five_frames l41_spec 1 3 2 1 5 3 1 2 true 0 _ _ _ _ _ _ _ _ _).
  - reflexivity.
  - lia.
  - reflexivity.
  - reflexivity.
  - lia.
  - vm_compute. reflexivity.
  - left. unfold clash. lia.
Defined.

Lemma cabs_real_0 : cabs (Cx 0%R 0%R) = 0%R.
Proof.
  unfold cabs. simpl. rewrite Rmult_0_l, Rplus_0_l. apply sqrt_0.
Qed.

Lemma cabs_real_1 : cabs (Cx 1%R 0%R) = 1%R.
Proof.
  unfold cabs. simpl. rewrite Rmult_0_l, Rplus_0_r, Rmult_1_l. apply sqrt_1.
Qed.

(** The features of the magnitudes 0 and 1. *)
Lemma featurize_spectrogram_range_example :
  exists X_input X_max X_min,
    featurize_spectrogram zero_phase real_zero_one
    = Ok (X_input, zero_phase real_zero_one, X_max, X_min) /\
    shape X_input = [1; 2] /\
    (X_min < X_max)%R /\
    Forall (fun z => (X_min <= sqrt (cabs z) <= X_max)%R)
           (data real_zero_one) /\
    Forall (fun x => (0 <= x <= 1)%R) (data X_input) /\
    0%R ∈ data X_input /\ 1%R ∈ data X_input.
Proof.
  refine (featurize_spectrogram_range zero_phase real_zero_one
            (Cx 0%R 0%R) (Cx 1%R 0%R) _ _ _).
  - apply list_elem_of_here.
  - apply list_elem_of_further, list_elem_of_here.
  - rewrite cabs_real_0, cabs_real_1. lra.
Defined.

Lemma preprocess_signal_range_example :
  exists X_in,
    preprocess_signal (fixed_stft real_zero_one) (Nd [0] []) 1%R
    = Ok (real_zero_one, X_in) /\
    shape X_in = [1; 2] /\
    Forall (fun x => (0 <= x <= 1)%R) (data X_in) /\
    0%R ∈ data X_in /\ 1%R ∈ data X_in.
Proof.
  refine (preprocess_signal_range (fixed_stft real_zero_one) (Nd [0] []) 1%R
            (Cx 0%R 0%R) (Cx 1%R 0%R) _ _ _).
  - apply list_elem_of_here.
  - apply list_elem_of_further, list_elem_of_here.
  - rewrite cabs_real_0, cabs_real_1. lra.
Defined.

(** One NaN among two items. *)
Lemma normalization_nan_spreads_example :
  preprocess_signal (H0:=binary64_lib) (fixed_stft nan_spectrogram)
    (Nd [0] []) B64.one
  = Ok (nan_spectrogram, Nd [1; 2] [B64.nan; B64.nan])
  /\ featurize_spectrogram (H0:=binary64_lib) zero_phase nan_spectrogram
     = Ok (Nd [1; 2] [B64.nan; B64.nan], zero_phase nan_spectrogram,
           B64.nan, B64.nan).
Proof.
  refine (normalization_nan_spreads (H:=binary64_lib)
            (fixed_stft nan_spectrogram) zero_phase (Nd [0] []) B64.one
            (Cx B64.nan B64.zero) _ _).
  - apply list_elem_of_here.
  - reflexivity.
Defined.

Lemma np_std_real_ramp : np_std real_ramp = 1%R.
Proof.
  unfold np_std, np_mean, np_map, real_ramp, square. cbn [data map length].
  rewrite !np_add_reduce_real. unfold add_all. simpl.
  replace ((0 + (0 - (0 + 0 + 2) / (1 + 1)) * (0 - (0 + 0 + 2) / (1 + 1))
            + (2 - (0 + 0 + 2) / (1 + 1)) * (2 - (0 + 0 + 2) / (1 + 1)))
           / (1 + 1))%R with 1%R by field.
  apply sqrt_1.
Qed.

(** The waveform (0, 2) has standard deviation 1. *)
Lemma normalize_waveform_standardizes_example :
  shape (normalize_waveform real_ramp) = [2] /\
  np_mean (normalize_waveform real_ramp) = 0%R /\
  np_std (normalize_waveform real_ramp) = 1%R.
Proof.
  refine (normalize_waveform_standardizes real_ramp _).
  rewrite np_std_real_ramp. lra.
Defined.

(** The magnitudes 0 and 2 presented to the model. *)
Lemma process_signal_feeds_model_example :
  exists X_in,
    preprocess_signal (H0:=binary64_lib) (fixed_stft zero_two)
      (Nd [0] []) B64.one
    = Ok (zero_two, X_in) /\
    process_signal (H0:=binary64_lib) (H2:=identity_model)
      (fixed_stft zero_two) (Nd [0] []) B64.one
    = Ok (zero_two,
          get_vectors (Model:=identity_model) (Nd [1; 1; 2] (data X_in))).
Proof.
  refine (process_signal_feeds_model (H0:=binary64_lib) (H2:=identity_model)
            (fixed_stft zero_two) (Nd [0] []) B64.one 1 2 _ _).
  - reflexivity.
  - discriminate.
Defined.

(** A spectrogram with one axis. *)
Lemma process_signal_needs_matrix_example :
  process_signal (H0:=binary64_lib) (H2:=identity_model)
    (fixed_stft line_spectrogram) (Nd [0] []) B64.one
  = Raise IndexError.
Proof.
  refine (process_signal_needs_matrix (H0:=binary64_lib) (H2:=identity_model)
            (fixed_stft line_spectrogram) (Nd [0] []) B64.one _ _).
  - discriminate.
  - simpl. lia.
Defined.

(** The magnitudes 0 and 2 separated into two sources. *)
Lemma clustering_separate_stacks_example :
  exists masks masked_specs,
    get_cluster_masks (H0:=binary64_lib) (H1:=round_robin)
      (Nd [1; 1; 2; 1] [B64.zero; B64.one]) 2 true 0 = (Ok masks, 0) /\
    apply_masks zero_two masks = Ok masked_specs /\
    length masked_specs = 2 /\
    clustering_separate (H0:=binary64_lib) (H1:=round_robin)
      (H2:=identity_model) (fixed_stft zero_two) real_parts no_filter
      (Nd [0] []) B64.one 2 true 0
    = (Ok (Nd [2; 2]
              (flat_map
                 (fun masked =>
                    data (no_filter
                            (real_parts masked (of_nat (100 * 100))
                               (fdiv (of_nat 256) (of_nat (100 * 100))))))
                 masked_specs)),
       0).
Proof.
  refine (clustering_separate_stacks (H0:=binary64_lib) (H1:=round_robin)
            (KMeansSound0:=round_robin_sound) (H2:=identity_model)
            (fixed_stft zero_two) real_parts no_filter
            (Nd [0] []) B64.one zero_two
            (Nd [1; 1; 2; 1] [B64.zero; B64.one]) 1 1 2 1 2 true 0
            (Fit [0; 1] (Nd [2; 1] [B64.zero; B64.one])) 1 [2]
            _ _ _ _ _ _ _ _).
  - vm_compute. reflexivity.
  - reflexivity.
  - reflexivity.
  - reflexivity.
  - reflexivity.
  - lia.
  - reflexivity.
  - intros c Hc. unfold no_filter, real_parts. simpl. by rewrite Hc.
Defined.

(** The magnitudes 0 and 2 through a model that returns its input. *)
Lemma separate_sources_stacks_example :
  let y_output :=
    undo_normalization
      (predict (Model:=identity_model)
         (Nd [1; 1; 2; 1] [B64.zero; B64.one]))
      (B64.sqrt (B64.of_Z 2)) B64.zero in
  exists channels,
    length channels = 1 /\
    (forall i, i < 1 ->
       exists c, channels !! i = Some c /\ shape c = [1; 2] /\
         forall t f, t < 1 -> f < 2 ->
           exists y p,
             item y_output [0; t; f; i] = Some y /\
             item (zero_phase zero_two) [t; f] = Some p /\
             item c [t; f] = Some (mask_mul y (small_phasor p))) /\
    separate_sources (H0:=binary64_lib) (H1:=identity_model) unit no_file
      (fixed_stft_demo zero_two) zero_phase small_phasor real_parts_demo
      no_filter tt B64.one B64.one B64.one
    = Ok (Nd [1; 2]
             (flat_map
                (fun c =>
                   data (normalize_waveform
                           (no_filter
                              (real_parts_demo c B64.one B64.one 500))))
                channels)).
Proof.
  refine (separate_sources_stacks (H0:=binary64_lib) (H1:=identity_model)
            unit no_file (fixed_stft_demo zero_two) zero_phase small_phasor
            real_parts_demo no_filter tt B64.one B64.one B64.one
            (Nd [0] []) B64.one
            (Nd [1; 2] [B64.zero; B64.one]) (zero_phase zero_two)
            (B64.sqrt (B64.of_Z 2)) B64.zero 1 1 2 1 [2]
            _ _ _ _ _ _ _ _ _ _).
  - reflexivity.
  - reflexivity.
  - vm_compute. reflexivity.
  - reflexivity.
  - reflexivity.
  - lia.
  - lia.
  - reflexivity.
  - reflexivity.
  - intros c Hc. unfold no_filter, real_parts_demo. simpl. by rewrite Hc.
Defined.

(** A model whose output has one axis. *)
Lemma separate_sources_needs_channel_axis_example :
  separate_sources (H0:=binary64_lib) (H1:=flat_model) unit no_file
    (fixed_stft_demo zero_two) zero_phase small_phasor real_parts_demo
    no_filter tt B64.one B64.one B64.one
  = Raise IndexError.
Proof.
  refine (separate_sources_needs_channel_axis (H0:=binary64_lib)
            (H1:=flat_model)
            unit no_file (fixed_stft_demo zero_two) zero_phase small_phasor
            real_parts_demo no_filter tt B64.one B64.one B64.one
            (Nd [0] []) B64.one
            (Nd [1; 2] [B64.zero; B64.one]) (zero_phase zero_two)
            (B64.sqrt (B64.of_Z 2)) B64.zero 1 2 _ _ _ _).
  - reflexivity.
  - reflexivity.
  - vm_compute. reflexivity.
  - simpl. lia.
Defined.

(** A model whose output has no channel. *)
Lemma separate_sources_no_channels_example :
  separate_sources (H0:=binary64_lib) (H1:=mute_model) unit no_file
    (fixed_stft_demo zero_two) zero_phase small_phasor real_parts_demo
    no_filter tt B64.one B64.one B64.one
  = Raise ValueError.
Proof.
  refine (separate_sources_no_channels (H0:=binary64_lib) (H1:=mute_model)
            unit no_file (fixed_stft_demo zero_two) zero_phase small_phasor
            real_parts_demo no_filter tt B64.one B64.one B64.one
            (Nd [0] []) B64.one
            (Nd [1; 2] [B64.zero; B64.one]) (zero_phase zero_two)
            (B64.sqrt (B64.of_Z 2)) B64.zero 1 2 _ _ _ _).
  - reflexivity.
  - reflexivity.
  - vm_compute. reflexivity.
  - reflexivity.
Defined.

(** No frame at all. *)
Lemma clustering_separate_empty_example :
  clustering_separate (H0:=binary64_lib) (H1:=round_robin)
    (H2:=identity_model) (fixed_stft empty_spectrogram) real_parts no_filter
    (Nd [0] []) B64.one 2 true 0
  = (Raise ValueError, 0).
Proof.
  refine (clustering_separate_empty (H0:=binary64_lib) (H1:=round_robin)
            (H2:=identity_model) (fixed_stft empty_spectrogram) real_parts
            no_filter (Nd [0] []) B64.one 2 true 0 _).
  reflexivity.
Defined.

Lemma separate_sources_empty_example :
  separate_sources (H0:=binary64_lib) (H1:=identity_model) unit no_file
    (fixed_stft_demo empty_spectrogram) zero_phase small_phasor
    real_parts_demo no_filter tt B64.one B64.one B64.one
  = Raise ValueError.
Proof.
  refine (separate_sources_empty (H0:=binary64_lib) (H1:=identity_model)
            unit no_file (fixed_stft_demo empty_spectrogram) zero_phase
            small_phasor real_parts_demo no_filter tt B64.one B64.one
            B64.one (Nd [0] []) B64.one _ _); reflexivity.
Defined.

(** The soft mask (0.3, 0.7) on the one-cell spectrogram 3 + 0i. *)
Lemma apply_masks_attenuates_example :
  exists outs,
    apply_masks real_three real_mask_3_7 = Ok outs /\ length outs = 2 /\
    Forall (fun o =>
              shape o = [1; 1] /\
              Forall2 (fun u z => (cabs u <= cabs z)%R)
                      (data o) (data real_three))
           outs.
Proof.
  refine (apply_masks_attenuates real_three real_mask_3_7 1 1 2 _ _ _ _ _).
  - reflexivity.
  - reflexivity.
  - reflexivity.
  - reflexivity.
  - repeat constructor; simpl; lra.
Defined.
